(** * Job-run discovery and cross-job test aggregation (ci-tools)

    A shallow embedding of
      - pkg/jobrunaggregator/jobrunaggregatorlib/gcs_client.go
        (NextJobRunID, ReadJobRunFromGCS, ListJobRunNamesOlderThanFourHours)
      - pkg/jobrunaggregator/jobruntestcaseanalyzer (getTestStatus,
        addToTestSuiteFromSuiteNames, updateTestCountsInSuite, CheckTestCase,
        findJobRunsWithRetry, GetRelatedJobRuns)
    together with the properties stated about them. *)

From Stdlib Require Import ZArith List String Ascii Bool Lia Permutation Sorted.
From Equations Require Import Equations.
Import ListNotations.

Open Scope string_scope.
Open Scope Z_scope.

(* ===================================================================== *)
(** * Go base types                                                        *)
(* ===================================================================== *)

Module GoInt.

(** Go's [int]/[int64]: two's complement on 64 bits. *)
Definition min_int64 : Z := - 2 ^ 63.
Definition max_int64 : Z := 2 ^ 63 - 1.

Definition wrap_int64 (z : Z) : Z := (z + 2 ^ 63) mod 2 ^ 64 - 2 ^ 63.

(** Go's [uint] on a 64-bit platform. *)
Definition wrap_uint64 (z : Z) : Z := z mod 2 ^ 64.

End GoInt.

(* ===================================================================== *)
(** * The junit data model (package junit, as used by the analyzer)        *)
(* ===================================================================== *)

Module junit.

Record FailureOutput : Type := mkFailureOutput {
  Message : string;
  Output : string
}.

(** [Duration] is a wall-clock float and is left out. *)
Record TestCase : Type := mkTestCase {
  tcName : string;
  SystemOut : string;
  tcFailureOutput : option FailureOutput   (* nil pointer = None *)
}.

(** A suite exclusively owns its children, so the pointer structure
    [Children []*TestSuite] is an owned tree. *)
#[local] Unset Elimination Schemes.
Inductive TestSuite : Type :=
  mkTestSuite (Name : string) (NumTests NumFailed : Z)
              (TestCases : list TestCase) (Children : list TestSuite).

#[local] Set Elimination Schemes.

Definition Name (s : TestSuite) : string :=
  match s with mkTestSuite n _ _ _ _ => n end.
Definition NumTests (s : TestSuite) : Z :=
  match s with mkTestSuite _ nt _ _ _ => nt end.
Definition NumFailed (s : TestSuite) : Z :=
  match s with mkTestSuite _ _ nf _ _ => nf end.
Definition TestCases (s : TestSuite) : list TestCase :=
  match s with mkTestSuite _ _ _ tcs _ => tcs end.
Definition Children (s : TestSuite) : list TestSuite :=
  match s with mkTestSuite _ _ _ _ ch => ch end.

(** [junit.TestSuites]: the forest parsed from one run. *)
Record TestSuites : Type := mkTestSuites { Suites : list TestSuite }.

(** Induction over the owned tree, with the hypothesis on every child. *)
Section TestSuite_ind.
Variable P : TestSuite -> Prop.
Hypothesis step : forall n nt nf tcs ch,
    Forall P ch -> P (mkTestSuite n nt nf tcs ch).

Fixpoint TestSuite_ind' (s : TestSuite) : P s :=
  match s with
  | mkTestSuite n nt nf tcs ch =>
      step n nt nf tcs ch
        ((fix all (l : list TestSuite) : Forall P l :=
            match l with
            | [] => Forall_nil P
            | c :: cs => Forall_cons c (TestSuite_ind' c) (all cs)
            end) ch)
  end.
End TestSuite_ind.

End junit.
Import junit.

(* ===================================================================== *)
(** * Suite Matcher: getTestStatus                                         *)
(* ===================================================================== *)

Record testIdentifier : Type := mkTestIdentifier {
  testSuites : list string;
  testName : string
}.

Inductive testStatus : Type := testSkipped | testPassed | testFailed.

(** The scan of [testSuite.TestCases] when the path is down to one name. *)
Fixpoint scanTestCases (name : string) (tcs : list TestCase) : testStatus :=
  match tcs with
  | [] => testSkipped
  | testCase :: rest =>
      if (tcName testCase =? name)%string then
        match tcFailureOutput testCase with
        | None => testPassed
        | Some _ => testFailed
        end
      else scanTestCases name rest
  end.

Fixpoint getTestStatus (id : testIdentifier) (testSuite : TestSuite) {struct testSuite}
  : testStatus :=
  match testSuite with
  | mkTestSuite suiteName _ _ cases children =>
      match testSuites id with
      | [] => testSkipped
      | s0 :: tail =>
          if negb (s0 =? suiteName)%string then testSkipped
          else
            match tail with
            | [] => scanTestCases (testName id) cases
            | _ :: _ =>
                let next := {| testSuites := tail; testName := testName id |} in
                (fix searchChildren (cs : list TestSuite) : testStatus :=
                   match cs with
                   | [] => testSkipped
                   | childSuite :: more =>
                       match testSuites next with
                       | n0 :: _ =>
                           if (n0 =? Name childSuite)%string then
                             match getTestStatus next childSuite with
                             | testPassed => testPassed
                             | testFailed => testFailed
                             | testSkipped => searchChildren more
                             end
                           else searchChildren more
                       | [] => searchChildren more
                       end
                   end) children
            end
      end
  end.

(* ===================================================================== *)
(** * Decimal formatting and parsing (fmt "%d", strconv.ParseInt)          *)
(* ===================================================================== *)

Module strconv.

Definition is_digit (c : ascii) : bool :=
  (48 <=? Z.of_nat (nat_of_ascii c)) && (Z.of_nat (nat_of_ascii c) <=? 57).

Definition digit_val (c : ascii) : Z := Z.of_nat (nat_of_ascii c) - 48.

Definition digit_char (d : Z) : ascii := ascii_of_nat (Z.to_nat (48 + d)).

(** [formatBits] for base 10: digits are produced from the least
    significant one; a uint64 has at most 20 of them. *)
Fixpoint formatDigits (fuel : nat) (u : Z) (acc : string) : string :=
  match fuel with
  | O => acc
  | S fuel' =>
      let acc' := String (digit_char (u mod 10)) acc in
      if u <? 10 then acc' else formatDigits fuel' (u / 10) acc'
  end.

Definition formatUint (u : Z) : string := formatDigits 20 u "".

(** [fmt.Sprintf("%d", i)] for an int / int64 value [i]. *)
Definition formatInt (i : Z) : string :=
  if i <? 0 then String "-" (formatUint (- i)) else formatUint i.

Inductive NumError : Type := ErrSyntax | ErrRange.

(** The character loop of [ParseUint(s, 10, 64)]: a non-digit is a
    syntax error, an overflow of uint64 a range error, whichever the
    left-to-right scan meets first. *)
Fixpoint parseUintLoop (s : string) (n : Z) : Z + NumError :=
  match s with
  | EmptyString => inl n
  | String c rest =>
      if negb (is_digit c) then inr ErrSyntax
      else if n >=? (2 ^ 64 - 1) / 10 + 1 then inr ErrRange
      else
        let n1 := n * 10 + digit_val c in
        if n1 >? 2 ^ 64 - 1 then inr ErrRange
        else parseUintLoop rest n1
  end.

Definition ParseUint (s : string) : Z + NumError :=
  match s with
  | EmptyString => inr ErrSyntax
  | _ => parseUintLoop s 0
  end.

(** [ParseInt(s, 10, 64)]: optional sign, then [ParseUint], then the
    signed range check against the cutoff 2^63. *)
Definition ParseInt (s : string) : Z + NumError :=
  match s with
  | EmptyString => inr ErrSyntax
  | String c rest =>
      let '(neg, body) :=
        if Ascii.eqb c "+" then (false, rest)
        else if Ascii.eqb c "-" then (true, rest)
        else (false, s) in
      match ParseUint body with
      | inr ErrSyntax => inr ErrSyntax
      | inr ErrRange => inr ErrRange
      | inl un =>
          if negb neg && (un >=? 2 ^ 63) then inr ErrRange
          else if neg && (un >? 2 ^ 63) then inr ErrRange
          else inl (if neg then - un else un)
      end
  end.

(** The value of a digit string read in base 10, with no bound. *)
Fixpoint decimalValue (s : string) (acc : Z) : Z :=
  match s with
  | EmptyString => acc
  | String c rest => decimalValue rest (acc * 10 + digit_val c)
  end.

Fixpoint allDigits (s : string) : bool :=
  match s with
  | EmptyString => true
  | String c rest => is_digit c && allDigits rest
  end.

(** "Rendered without leading zeros": the only string starting with the
    digit zero is the one-character string. *)
Definition noLeadingZero (s : string) : bool :=
  match s with
  | String c (String _ _) => negb (Ascii.eqb c "0")
  | _ => true
  end.

(** A numeric identifier in the sense of [ParseInt]'s syntax: an optional
    sign followed by at least one digit. *)
Definition numericSyntax (s : string) : bool :=
  match s with
  | EmptyString => false
  | String c rest =>
      if Ascii.eqb c "+" || Ascii.eqb c "-" then
        match rest with EmptyString => false | _ => allDigits rest end
      else allDigits s
  end.

End strconv.

(** A Go [error], identified by its message. *)
Definition error : Type := string.

(** A function that either returns or panics. *)
Inductive outcome (A : Type) : Type :=
| Returns (a : A)
| Panics (why : string).
Arguments Returns {A} a.
Arguments Panics {A} why.

(** [NextJobRunID]: the empty id starts at "0"; otherwise parse, add one
    in int64 and print. A parse error panics. *)
Definition NextJobRunID (curr : string) : outcome string :=
  if (String.length curr =? 0)%nat then Returns "0"
  else
    match strconv.ParseInt curr with
    | inr strconv.ErrSyntax => Panics "strconv.ParseInt: invalid syntax"
    | inr strconv.ErrRange => Panics "strconv.ParseInt: value out of range"
    | inl idAsInt => Returns (strconv.formatInt (GoInt.wrap_int64 (idAsInt + 1)))
    end.

(* ===================================================================== *)
(** * Pointers into the synthetic suite tree                               *)
(* ===================================================================== *)

(** A [*junit.TestSuite] that is reachable from [topSuite] is named by the
    child indices leading to it; writing through the pointer rewrites the
    node at that place of the tree owned by [topSuite]. *)
Definition suitePtr : Type := list nat.

Fixpoint updateNth {A : Type} (i : nat) (f : A -> A) (l : list A) : list A :=
  match l, i with
  | [], _ => []
  | x :: xs, O => f x :: xs
  | x :: xs, S j => x :: updateNth j f xs
  end.

Fixpoint deref (top : TestSuite) (p : suitePtr) : option TestSuite :=
  match p with
  | [] => Some top
  | i :: rest =>
      match nth_error (Children top) i with
      | Some child => deref child rest
      | None => None
      end
  end.

Fixpoint storeAt (p : suitePtr) (f : TestSuite -> TestSuite) (top : TestSuite)
  : TestSuite :=
  match p with
  | [] => f top
  | i :: rest =>
      match top with
      | mkTestSuite n nt nf tcs ch =>
          mkTestSuite n nt nf tcs (updateNth i (storeAt rest f) ch)
      end
  end.

Definition appendChild (child : TestSuite) (s : TestSuite) : TestSuite :=
  match s with
  | mkTestSuite n nt nf tcs ch => mkTestSuite n nt nf tcs (ch ++ [child])%list
  end.

Definition appendTestCase (tc : TestCase) (s : TestSuite) : TestSuite :=
  match s with
  | mkTestSuite n nt nf tcs ch => mkTestSuite n nt nf (tcs ++ [tc])%list ch
  end.

Definition updateTestCase (i : nat) (f : TestCase -> TestCase) (s : TestSuite)
  : TestSuite :=
  match s with
  | mkTestSuite n nt nf tcs ch => mkTestSuite n nt nf (updateNth i f tcs) ch
  end.

Definition numChildrenAt (top : TestSuite) (p : suitePtr) : nat :=
  match deref top p with
  | Some s => List.length (Children s)
  | None => O
  end.

Definition numTestCasesAt (top : TestSuite) (p : suitePtr) : nat :=
  match deref top p with
  | Some s => List.length (TestCases s)
  | None => O
  end.

(** [addToTestSuiteFromSuiteNames]: one fresh suite per name, each appended
    to the children of the previous one. Returns the tree and the pointer
    to the bottom suite. *)
Fixpoint addToTestSuiteFromSuiteNames (topSuite : TestSuite)
         (previousSuite : suitePtr) (suiteNames : list string)
  : TestSuite * suitePtr :=
  match suiteNames with
  | [] => (topSuite, previousSuite)
  | suiteName :: rest =>
      let currentSuite := mkTestSuite suiteName 0 0 [] [] in
      let slot := numChildrenAt topSuite previousSuite in
      let topSuite' := storeAt previousSuite (appendChild currentSuite) topSuite in
      addToTestSuiteFromSuiteNames topSuite' (previousSuite ++ [slot])%list rest
  end.

(** The first loop of [updateTestCountsInSuite], over the suite's own
    test cases, on uint counters. *)
Fixpoint countTestCases (tcs : list TestCase) (numTests numFailed : Z) : Z * Z :=
  match tcs with
  | [] => (numTests, numFailed)
  | test :: rest =>
      let numTests' := GoInt.wrap_uint64 (numTests + 1) in
      let numFailed' :=
        match tcFailureOutput test with
        | Some _ => GoInt.wrap_uint64 (numFailed + 1)
        | None => numFailed
        end in
      countTestCases rest numTests' numFailed'
  end.

(** The second loop adds each (already updated) child's counters. *)
Definition addChildCounts (acc : Z * Z) (child : TestSuite) : Z * Z :=
  (GoInt.wrap_uint64 (fst acc + NumTests child),
   GoInt.wrap_uint64 (snd acc + NumFailed child)).

Fixpoint updateTestCountsInSuite (suite : TestSuite) : TestSuite :=
  match suite with
  | mkTestSuite name _ _ cases children =>
      let children' := map updateTestCountsInSuite children in
      let counts := fold_left addChildCounts children' (countTestCases cases 0 0) in
      mkTestSuite name (fst counts) (snd counts) cases children'
  end.

(* ===================================================================== *)
(** * Threshold Checker: CheckTestCase                                     *)
(* ===================================================================== *)

(** What the checker reads of a [jobrunaggregatorapi.JobRunInfo]. *)
Record JobRunInfo : Type := mkJobRunInfo {
  GetJobName : string;
  GetJobRunID : string;
  GetHumanURL : string;
  GetGCSArtifactURL : string
}.

(** [TestCasePass], [TestCaseFailure] and [TestCaseSkip] carry the same
    three fields. *)
Record TestCaseRef : Type := mkTestCaseRef {
  refJobRunID : string;
  refHumanURL : string;
  refGCSArtifactURL : string
}.

Record TestCaseDetails : Type := mkTestCaseDetails {
  detName : string;
  detTestSuiteName : string;
  detSummary : string;
  Passes : list TestCaseRef;
  Failures : list TestCaseRef;
  Skips : list TestCaseRef
}.

Record minimumRequiredPassesTestCaseChecker : Type := mkChecker {
  id : testIdentifier;
  testNameSuffix : string;
  requiredNumberOfPasses : Z
}.

Definition refOf (jobRun : JobRunInfo) : TestCaseRef :=
  {| refJobRunID := GetJobRunID jobRun;
     refHumanURL := GetHumanURL jobRun;
     refGCSArtifactURL := GetGCSArtifactURL jobRun |}.

Definition addTestResultToDetails (currDetails : TestCaseDetails)
           (jobRun : JobRunInfo) (status : testStatus) : TestCaseDetails :=
  match status with
  | testPassed =>
      {| detName := detName currDetails;
         detTestSuiteName := detTestSuiteName currDetails;
         detSummary := detSummary currDetails;
         Passes := (Passes currDetails ++ [refOf jobRun])%list;
         Failures := Failures currDetails;
         Skips := Skips currDetails |}
  | testFailed =>
      {| detName := detName currDetails;
         detTestSuiteName := detTestSuiteName currDetails;
         detSummary := detSummary currDetails;
         Passes := Passes currDetails;
         Failures := (Failures currDetails ++ [refOf jobRun])%list;
         Skips := Skips currDetails |}
  | testSkipped =>
      {| detName := detName currDetails;
         detTestSuiteName := detTestSuiteName currDetails;
         detSummary := detSummary currDetails;
         Passes := Passes currDetails;
         Failures := Failures currDetails;
         Skips := (Skips currDetails ++ [refOf jobRun])%list |}
  end.

(** The inner loop over one run's top-level suites: [status] is
    overwritten by every suite looked at, and the loop breaks at the first
    passed or failed one. *)
Fixpoint scanSuites (tid : testIdentifier) (suites : list TestSuite)
         (status : testStatus) (successCount : Z) : testStatus * Z :=
  match suites with
  | [] => (status, successCount)
  | testSuite :: rest =>
      match getTestStatus tid testSuite with
      | testPassed => (testPassed, GoInt.wrap_int64 (successCount + 1))
      | testFailed => (testFailed, successCount)
      | testSkipped => scanSuites tid rest testSkipped successCount
      end
  end.

(** The outer loop over the map's entries, in the order the runtime
    happens to iterate them. *)
Fixpoint scanJobRuns (r : minimumRequiredPassesTestCaseChecker)
         (jobRunJunits : list (JobRunInfo * TestSuites))
         (currDetails : TestCaseDetails) (successCount : Z)
  : TestCaseDetails * Z :=
  match jobRunJunits with
  | [] => (currDetails, successCount)
  | (jobRun, suites) :: rest =>
      let '(status, successCount') :=
        scanSuites (id r) (Suites suites) testSkipped successCount in
      scanJobRuns r rest (addTestResultToDetails currDetails jobRun status)
                  successCount'
  end.

Fixpoint stringsJoin (elems : list string) (sep : string) : string :=
  match elems with
  | [] => ""
  | [e] => e
  | e :: rest => e ++ sep ++ stringsJoin rest sep
  end.

Definition lenZ {A : Type} (l : list A) : Z := Z.of_nat (List.length l).

Section Checker.

(** [jobrunaggregatorlib.TestSuitesSeparator] and [yaml.Marshal] are
    declared outside the analyzer; they are taken as given. *)
Variable TestSuitesSeparator : string.
Variable yamlMarshal : TestCaseDetails -> string + error.

Definition failureMessage (required successCount : Z) : string :=
  "required minimum successful count " ++ strconv.formatInt required
    ++ ", got " ++ strconv.formatInt successCount.

Definition summaryOf (total : Z) (d : TestCaseDetails) : string :=
  "Total job runs: " ++ strconv.formatInt total
    ++ ", passes: " ++ strconv.formatInt (lenZ (Passes d))
    ++ ", failures: " ++ strconv.formatInt (lenZ (Failures d))
    ++ ", skips " ++ strconv.formatInt (lenZ (Skips d)).

Definition syntheticTestName (r : minimumRequiredPassesTestCaseChecker) : string :=
  let testName :=
    "test '" ++ testName (id r)
      ++ "' has required number of successful passes across payload jobs" in
  if (0 <? String.length (testNameSuffix r))%nat
  then testName ++ " for " ++ testNameSuffix r
  else testName.

(** [currDetails] as first allocated, and after [Summary] is set. *)
Definition initialDetails (r : minimumRequiredPassesTestCaseChecker)
  : TestCaseDetails :=
  {| detName := testName (id r);
     detTestSuiteName := stringsJoin (testSuites (id r)) TestSuitesSeparator;
     detSummary := "";
     Passes := []; Failures := []; Skips := [] |}.

Definition withSummary (total : Z) (currDetails : TestCaseDetails)
  : TestCaseDetails :=
  {| detName := detName currDetails;
     detTestSuiteName := detTestSuiteName currDetails;
     detSummary := summaryOf total currDetails;
     Passes := Passes currDetails;
     Failures := Failures currDetails;
     Skips := Skips currDetails |}.

(** [CheckTestCase]; [None] is the nil suite returned when the details
    cannot be marshalled. *)
Definition CheckTestCase (r : minimumRequiredPassesTestCaseChecker)
           (jobRunJunits : list (JobRunInfo * TestSuites)) : option TestSuite :=
  let topSuite := mkTestSuite "minimum-required-passes-checker" 0 0 [] [] in
  let '(topSuite, bottomSuite) :=
    addToTestSuiteFromSuiteNames topSuite [] (testSuites (id r)) in
  let testCase := {| tcName := syntheticTestName r;
                     SystemOut := "";
                     tcFailureOutput := None |} in
  (* testCase is the pointer (bottomSuite, slot) from here on *)
  let slot := numTestCasesAt topSuite bottomSuite in
  let topSuite := storeAt bottomSuite (appendTestCase testCase) topSuite in
  let currDetails := initialDetails r in
  let '(currDetails, successCount) := scanJobRuns r jobRunJunits currDetails 0 in
  let currDetails := withSummary (lenZ jobRunJunits) currDetails in
  match yamlMarshal currDetails with
  | inr _ => None
  | inl detailsYaml =>
      let topSuite :=
        storeAt bottomSuite
          (updateTestCase slot (fun tc =>
             {| tcName := tcName tc;
                SystemOut := detailsYaml;
                tcFailureOutput := tcFailureOutput tc |})) topSuite in
      let topSuite :=
        if successCount <? requiredNumberOfPasses r then
          storeAt bottomSuite
            (updateTestCase slot (fun tc =>
               {| tcName := tcName tc;
                  SystemOut := SystemOut tc;
                  tcFailureOutput :=
                    Some {| Message := failureMessage (requiredNumberOfPasses r)
                                                       successCount;
                            Output := "" |} |})) topSuite
        else topSuite in
      Some (updateTestCountsInSuite topSuite)
  end.

End Checker.

(* ===================================================================== *)
(** * Job Run Locator: findJobRunsWithRetry                                *)
(* ===================================================================== *)

(** How many more errors the retry loop tolerates once [errorsInARow] are
    counted: the measure on which the loop terminates. *)
Definition errorBudget (errorsInARow : Z) : nat := Z.to_nat (21 - errorsInARow).
Arguments errorBudget : simpl never.

Section Locator.

(** The outcome of the k-th call (k = 0, 1, ...) of
    [jobRunLocator.FindRelatedJobs]. *)
Variable FindRelatedJobs : nat -> list JobRunInfo + error.
(** Whether the [select] that follows the failed k-th call takes the
    [ctx.Done()] branch rather than the one-minute timer. *)
Variable ctxDoneDuringSleep : nat -> bool.
Variable ctxErr : error.

(** The loop, started with [errorsInARow] errors counted and [calls]
    calls already made; it returns what the function returns and the
    number of calls made in all. [errorsInARow] stays below 22, far from
    the range of [int]. *)
Equations? retryLoop (errorsInARow : Z) (calls : nat)
  : (list JobRunInfo + error) * nat
  by wf (errorBudget errorsInARow) lt :=
  retryLoop errorsInARow calls with FindRelatedJobs calls := {
    | inl jobRuns => (inl jobRuns, S calls);
    | inr err with Z_gt_le_dec errorsInARow 20 := {
        | left _ => (inr err, S calls);
        | right Hle with ctxDoneDuringSleep calls := {
            | true => (inr ctxErr, S calls);
            | false => retryLoop (errorsInARow + 1) (S calls) } } }.
Proof. unfold errorBudget. lia. Qed.

Definition findJobRunsWithRetry : (list JobRunInfo + error) * nat :=
  retryLoop 0 0.

End Locator.

(* ===================================================================== *)
(** * Fan-out Collector: GetRelatedJobRuns                                 *)
(* ===================================================================== *)

Record JobRow : Type := mkJobRow {
  JobName : string;
  Platform : string;
  Network : string
}.

Record jobGCSPrefix : Type := mkJobGCSPrefix {
  jobName : string;
  gcsPrefix : string
}.

Section Collector.

(** The two locator constructors of jobrunaggregatorlib and the
    behaviour of a locator are given from outside. *)
Variable Locator : Type.
Variable NewPayloadAnalysisJobLocatorForReleaseController :
  string -> string -> Locator.
Variable NewPayloadAnalysisJobLocatorForPR :
  string -> string -> string -> Locator.
Variable locatorFindRelatedJobs : Locator -> nat -> list JobRunInfo + error.
(** Per task (job index): the choices of its retry loop's [select]. *)
Variable taskCtxDoneDuringSleep : nat -> nat -> bool.
Variable ctxErr : error.

Record JobRunTestCaseAnalyzerOptions : Type := mkOptions {
  payloadTag : string;
  payloadInvocationID : string;
  jobGCSPrefixes : option (list jobGCSPrefix);       (* nil pointer = None *)
  jobGetter_GetJobs : list JobRow + error
}.

(** The locator built in the loop body for [jobs[i]]; the PR branch
    overrides the release-controller one and indexes [*o.jobGCSPrefixes]. *)
Definition locatorFor (o : JobRunTestCaseAnalyzerOptions) (i : nat) (job : JobRow)
  : outcome (option Locator) :=
  let jobRunLocator :=
    if (0 <? String.length (payloadTag o))%nat
    then Some (NewPayloadAnalysisJobLocatorForReleaseController
                 (JobName job) (payloadTag o))
    else None in
  if (0 <? String.length (payloadInvocationID o))%nat then
    match jobGCSPrefixes o with
    | None => Panics "nil pointer dereference"
    | Some prefixes =>
        match nth_error prefixes i with
        | None => Panics "index out of range"
        | Some p =>
            Returns (Some (NewPayloadAnalysisJobLocatorForPR
                             (JobName job) (payloadInvocationID o) (gcsPrefix p)))
        end
    end
  else Returns jobRunLocator.

(** What the goroutine launched for [jobs[i]] computes. *)
Definition task (i : nat) (jobRunLocator : option Locator)
  : outcome (list JobRunInfo + error) :=
  match jobRunLocator with
  | None => Panics "nil pointer dereference"
  | Some l =>
      Returns (fst (findJobRunsWithRetry (locatorFindRelatedJobs l)
                                         (taskCtxDoneDuringSleep i) ctxErr))
  end.

Fixpoint launch (o : JobRunTestCaseAnalyzerOptions) (i : nat) (jobs : list JobRow)
  : outcome (list (list JobRunInfo + error)) :=
  match jobs with
  | [] => Returns []
  | job :: rest =>
      match locatorFor o i job with
      | Panics w => Panics w
      | Returns l =>
          match task i l with
          | Panics w => Panics w
          | Returns res =>
              match launch o (S i) rest with
              | Panics w => Panics w
              | Returns more => Returns (res :: more)
              end
          end
      end
  end.

(** What task [i] sends on [resultCh]: its runs when [err == nil],
    nothing otherwise. *)
Definition sent (results : list (list JobRunInfo + error)) (i : nat)
  : list (list JobRunInfo) :=
  match nth_error results i with
  | Some (inl jobRuns) => [jobRuns]
  | _ => []
  end.

(** [resultCh] has room for every task, so no send blocks; after
    [waitGroup.Wait()] it holds the sends in the order the tasks reached
    them, which is the [schedule]. *)
Definition resultCh (results : list (list JobRunInfo + error)) (schedule : list nat)
  : list (list JobRunInfo) :=
  flat_map (sent results) schedule.

Definition drain (ch : list (list JobRunInfo)) : list JobRunInfo :=
  fold_left (fun jobRunsToReturn jobRuns => (jobRunsToReturn ++ jobRuns)%list) ch [].

(** [GetRelatedJobRuns]; the nil slice is the empty list. *)
Definition GetRelatedJobRuns (o : JobRunTestCaseAnalyzerOptions)
           (schedule : list nat) (ctxDoneAfterJoin : bool)
  : outcome (list JobRunInfo * option error) :=
  match jobGetter_GetJobs o with
  | inr err => Returns ([], Some ("failed to get related jobs: " ++ err))
  | inl jobs =>
      match launch o 0 jobs with
      | Panics w => Panics w
      | Returns results =>
          let jobRunsToReturn := drain (resultCh results schedule) in
          if ctxDoneAfterJoin then Returns ([], Some ctxErr)
          else Returns (jobRunsToReturn, None)
      end
  end.

(** The runs of the tasks that returned without error, in job order. *)
Definition successfulRuns (results : list (list JobRunInfo + error))
  : list JobRunInfo :=
  flat_map (fun res => match res with inl jobRuns => jobRuns | inr _ => [] end)
           results.

End Collector.

(* ===================================================================== *)
(** * Go's strings and path/filepath functions used by the GCS client      *)
(* ===================================================================== *)

Module strings.

Definition HasPrefix (s pre : string) : bool := String.prefix pre s.

Definition HasSuffix (s suffix : string) : bool :=
  (String.length suffix <=? String.length s)%nat
  && (String.substring (String.length s - String.length suffix)
                       (String.length suffix) s =? suffix)%string.

Fixpoint Contains (s substr : string) : bool :=
  String.prefix substr s
  || match s with
     | EmptyString => false
     | String _ rest => Contains rest substr
     end.

(** [strings.Split(s, sep)] for a one-character separator. *)
Fixpoint Split (s : string) (sep : ascii) : list string :=
  match s with
  | EmptyString => [EmptyString]
  | String c rest =>
      if Ascii.eqb c sep then EmptyString :: Split rest sep
      else
        match Split rest sep with
        | [] => [String c EmptyString]
        | part :: parts => String c part :: parts
        end
  end.

(** Byte-wise lexicographic order, as Go compares strings and as the
    object store orders names. *)
Fixpoint leb (a b : string) : bool :=
  match a, b with
  | EmptyString, _ => true
  | String _ _, EmptyString => false
  | String x a', String y b' =>
      if (nat_of_ascii x <? nat_of_ascii y)%nat then true
      else if (nat_of_ascii y <? nat_of_ascii x)%nat then false
      else leb a' b'
  end.

Definition ltb (a b : string) : bool := negb (leb b a).

End strings.

Module filepath.

(** The element loop of [Clean], on the stack of elements kept so far
    (last element first): empty and "." elements are dropped, ".." pops a
    real element, is kept in front of a relative path and dropped at the
    root. *)
Fixpoint cleanLoop (rooted : bool) (parts : list string) (stack : list string)
  : list string :=
  match parts with
  | [] => stack
  | p :: rest =>
      if (p =? "")%string || (p =? ".")%string then cleanLoop rooted rest stack
      else if (p =? "..")%string then
        match stack with
        | top :: below =>
            if (top =? "..")%string then cleanLoop rooted rest (".." :: stack)
            else cleanLoop rooted rest below
        | [] => if rooted then cleanLoop rooted rest []
                else cleanLoop rooted rest [".."]
        end
      else cleanLoop rooted rest (p :: stack)
  end.

Definition isRooted (path : string) : bool :=
  match path with
  | String c _ => Ascii.eqb c "/"
  | EmptyString => false
  end.

Definition joinSlash (elems : list string) : string := stringsJoin elems "/".

(** The cleaned path written out: the elements kept, joined by slashes,
    after the root if there is one; "." when nothing is left. *)
Definition cleanElems (rooted : bool) (parts : list string) : string :=
  let elems := rev (cleanLoop rooted parts []) in
  if rooted then String "/" (joinSlash elems)
  else match elems with
       | [] => "."
       | _ => joinSlash elems
       end.

Definition Clean (path : string) : string :=
  cleanElems (isRooted path) (strings.Split path "/").

(** [Dir]: everything up to the last slash, cleaned. *)
Definition Dir (path : string) : string :=
  match strings.Split path "/" with
  | [] | [_] => "."
  | parts => cleanElems (isRooted path) (removelast parts)
  end.

Fixpoint stripTrailingSlashes (revPath : list ascii) : list ascii :=
  match revPath with
  | c :: rest => if Ascii.eqb c "/" then stripTrailingSlashes rest else revPath
  | [] => []
  end.

(** [Base]: the last element, after trailing slashes are removed. *)
Definition Base (path : string) : string :=
  match path with
  | EmptyString => "."
  | _ =>
      let stripped :=
        string_of_list_ascii
          (rev (stripTrailingSlashes (rev (list_ascii_of_string path)))) in
      match stripped with
      | EmptyString => "/"
      | _ => last (strings.Split stripped "/") EmptyString
      end
  end.

End filepath.

(* ===================================================================== *)
(** * The object store as the GCS client sees it                           *)
(* ===================================================================== *)

Module storage.

(** The two attributes selected by the queries; [Created] in
    nanoseconds. *)
Record ObjectAttrs : Type := mkObjectAttrs {
  ObjName : string;
  Created : Z
}.

Record Query : Type := mkQuery {
  Prefix : string;
  StartOffset : string;
  EndOffset : string
}.

(** An [ObjectIterator]: the objects [Next] still has to return, and how
    the iteration ends, with [iterator.Done] ([None]) or an error. *)
Record ObjectIterator : Type := mkIterator {
  pending : list ObjectAttrs;
  ending : option error
}.

Definition selects (q : Query) (o : ObjectAttrs) : bool :=
  strings.HasPrefix (ObjName o) (Prefix q)
  && strings.leb (StartOffset q) (ObjName o)
  && ((String.length (EndOffset q) =? 0)%nat
      || strings.ltb (ObjName o) (EndOffset q)).

(** A bucket whose listing never fails: the objects, kept in the
    lexicographic order of their names, restricted to the query's prefix
    and to names in [StartOffset, EndOffset). *)
Definition bucketObjects (bucket : list ObjectAttrs) (q : Query) : ObjectIterator :=
  {| pending := filter (selects q) bucket; ending := None |}.

End storage.

(** [time.Duration] in nanoseconds; [Time.Sub] saturates at the ends of
    int64. *)
Definition Hour : Z := 3600 * 1000000000.

Definition timeSub (t u : Z) : Z :=
  Z.max GoInt.min_int64 (Z.min GoInt.max_int64 (t - u)).

(* ===================================================================== *)
(** * Run Resolver: ReadJobRunFromGCS                                      *)
(* ===================================================================== *)

(** The fields of [jobrunaggregatorapi]'s GCS job run that the client
    sets. *)
Record gcsJobRun : Type := mkGCSJobRun {
  jrRootLocation : string;
  jrJobName : string;
  jrJobRunID : string;
  GetGCSProwJobPath : string;
  GetGCSJunitPaths : list string
}.

Definition NewGCSJobRun (jobGCSRootLocation jobName jobRunID : string) : gcsJobRun :=
  {| jrRootLocation := jobGCSRootLocation; jrJobName := jobName;
     jrJobRunID := jobRunID; GetGCSProwJobPath := ""; GetGCSJunitPaths := [] |}.

Definition SetGCSProwJobPath (jr : gcsJobRun) (path : string) : gcsJobRun :=
  {| jrRootLocation := jrRootLocation jr; jrJobName := jrJobName jr;
     jrJobRunID := jrJobRunID jr; GetGCSProwJobPath := path;
     GetGCSJunitPaths := GetGCSJunitPaths jr |}.

Definition AddGCSJunitPaths (jr : gcsJobRun) (path : string) : gcsJobRun :=
  {| jrRootLocation := jrRootLocation jr; jrJobName := jrJobName jr;
     jrJobRunID := jrJobRunID jr; GetGCSProwJobPath := GetGCSProwJobPath jr;
     GetGCSJunitPaths := (GetGCSJunitPaths jr ++ [path])%list |}.

(** The classification loop over the objects the iterator returns. *)
Fixpoint classifyObjects (jobGCSRootLocation jobName : string)
         (objs : list storage.ObjectAttrs) (jobRun : option gcsJobRun)
  : option gcsJobRun :=
  match objs with
  | [] => jobRun
  | attrs :: rest =>
      let name := storage.ObjName attrs in
      if strings.HasSuffix name "prowjob.json" then
        let jobRunId := filepath.Base (filepath.Dir name) in
        let jr := match jobRun with
                  | None => NewGCSJobRun jobGCSRootLocation jobName jobRunId
                  | Some jr => jr
                  end in
        classifyObjects jobGCSRootLocation jobName rest
                        (Some (SetGCSProwJobPath jr name))
      else if strings.HasSuffix name ".xml" && strings.Contains name "/junit" then
        let nameParts := strings.Split name "/" in
        if (List.length nameParts <? 4)%nat then
          classifyObjects jobGCSRootLocation jobName rest jobRun
        else
          let jobRunId := nth 2 nameParts "" in
          let jr := match jobRun with
                    | None => NewGCSJobRun jobGCSRootLocation jobName jobRunId
                    | Some jr => jr
                    end in
          classifyObjects jobGCSRootLocation jobName rest
                          (Some (AddGCSJunitPaths jr name))
      else classifyObjects jobGCSRootLocation jobName rest jobRun
  end.

Section RunResolver.

(** The bucket's listing call and the job run's metadata fetch belong
    to the storage client and to jobrunaggregatorapi; [quoted] is fmt's
    rendering of a string under the verb q. *)
Variable Objects : storage.Query -> storage.ObjectIterator.
Variable ProwJob : Type.
Variable GetProwJob : gcsJobRun -> ProwJob + error.
Variable quoted : string -> string.

(** [ReadJobRunFromGCS]: the pair (job run, error), [None] for nil. *)
Definition ReadJobRunFromGCS (jobGCSRootLocation jobName jobRunID : string)
  : outcome (option gcsJobRun * option error) :=
  match NextJobRunID jobRunID with
  | Panics w => Panics w
  | Returns next =>
      let query :=
        {| storage.Prefix := jobGCSRootLocation;
           storage.StartOffset := jobGCSRootLocation ++ "/" ++ jobRunID;
           storage.EndOffset := jobGCSRootLocation ++ "/" ++ next |} in
      let it := Objects query in
      let jobRun :=
        classifyObjects jobGCSRootLocation jobName (storage.pending it) None in
      match storage.ending it with
      | Some err => Returns (None, Some err)
      | None =>
          match jobRun with
          | None => Returns (None, None)
          | Some jr =>
              if (String.length (GetGCSProwJobPath jr) =? 0)%nat
              then Returns (None, None)
              else
                match GetProwJob jr with
                | inr err =>
                    Returns (None,
                             Some ("failed to get prowjob for " ++ quoted jobName
                                     ++ "/" ++ quoted jobRunID ++ ": " ++ err))
                | inl _ => Returns (Some jr, None)
                end
          end
      end
  end.

End RunResolver.

(* ===================================================================== *)
(** * Cursor Walker: ListJobRunNamesOlderThanFourHours                     *)
(* ===================================================================== *)

(** The query the listing starts with. ([SetAttrSelection] is given
    attribute names the storage client knows, here and in the Run Resolver,
    so its error return is not taken.) *)
Definition initialQuery (jobName startingID : string) : storage.Query :=
  {| storage.Prefix := "logs/" ++ jobName;
     storage.StartOffset := "logs/" ++ jobName ++ "/" ++ "1475614363518767104";
     storage.EndOffset := "" |}.

(** The state of the listing goroutine: the iterator in use, the local
    [jobRunId], the iteration counter, and what has been sent so far on
    the two channels, in order. ([prow_count] is only printed; a full
    channel delays a send until the consumer has read, it does not change
    what is sent.) *)
Record walker : Type := mkWalker {
  it : storage.ObjectIterator;
  queryStartOffset : string;
  jobRunId : string;
  it_count : nat;
  jobRunProcessingCh : list string;
  errorCh : list error
}.

(** One turn of the [for] loop either goes on, or ends the goroutine
    (which closes [jobRunProcessingCh]), or panics. *)
Inductive walkStep : Type :=
| Goes (w : walker)
| Closed (w : walker)
| Crashed (w : walker) (why : string).

Definition walkerOf (s : walkStep) : walker :=
  match s with Goes w | Closed w | Crashed w _ => w end.

Section CursorWalker.

Variable Objects : storage.Query -> storage.ObjectIterator.
(** [time.Now()] taken once before the goroutine starts. *)
Variable now : Z.
(** Whether [ctx.Err() != nil] at the top of the k-th turn (k = 1, 2, ...). *)
Variable ctxErrAt : nat -> bool.
Variable jobName : string.

(** [query.StartOffset = ...NextJobRunID(jobRunId)] followed by a fresh
    [bkt.Objects(ctx, query)]. *)
Definition restartAfter (w : walker) (runId : string) : walkStep :=
  match NextJobRunID runId with
  | Panics why =>
      Crashed {| it := it w; queryStartOffset := queryStartOffset w;
                 jobRunId := runId; it_count := it_count w;
                 jobRunProcessingCh := jobRunProcessingCh w;
                 errorCh := errorCh w |} why
  | Returns next =>
      let offset := "logs/" ++ jobName ++ "/" ++ next in
      Goes {| it := Objects {| storage.Prefix := "logs/" ++ jobName;
                               storage.StartOffset := offset;
                               storage.EndOffset := "" |};
              queryStartOffset := offset;
              jobRunId := runId; it_count := it_count w;
              jobRunProcessingCh := jobRunProcessingCh w;
              errorCh := errorCh w |}
  end.

(** [jobRunId = strings.Split(attrs.Name, "/")[2]], then restart. *)
Definition restartAfterSplit (w : walker) (name : string) : walkStep :=
  match nth_error (strings.Split name "/") 2 with
  | None => Crashed w "index out of range"
  | Some runId => restartAfter w runId
  end.

Definition loopBody (w0 : walker) : walkStep :=
  let count := S (it_count w0) in
  let w1 := {| it := it w0; queryStartOffset := queryStartOffset w0;
               jobRunId := jobRunId w0; it_count := count;
               jobRunProcessingCh := jobRunProcessingCh w0;
               errorCh := errorCh w0 |} in
  if ctxErrAt count then Closed w1
  else
    match storage.pending (it w0) with
    | [] =>
        match storage.ending (it w0) with
        | None => Closed w1
        | Some err =>
            Closed {| it := it w0; queryStartOffset := queryStartOffset w0;
                      jobRunId := jobRunId w0; it_count := count;
                      jobRunProcessingCh := jobRunProcessingCh w0;
                      errorCh := (errorCh w0 ++ [err])%list |}
        end
    | attrs :: rest =>
        let w := {| it := {| storage.pending := rest;
                             storage.ending := storage.ending (it w0) |};
                    queryStartOffset := queryStartOffset w0;
                    jobRunId := jobRunId w0; it_count := count;
                    jobRunProcessingCh := jobRunProcessingCh w0;
                    errorCh := errorCh w0 |} in
        let name := storage.ObjName attrs in
        let age := timeSub now (storage.Created attrs) in
        if age >? 1 * 17 * Hour then
          if strings.HasSuffix name "latest-build.txt" then Goes w
          else if strings.HasSuffix name ".json" then restartAfterSplit w name
          else if strings.HasSuffix name "prowjob.json"
               then restartAfter w (filepath.Base (filepath.Dir name))
          else Goes w
        else if age <? 4 * Hour then
          if strings.HasSuffix name "latest-build.txt" then Goes w
          else if strings.HasSuffix name "build-log.txt" then restartAfterSplit w name
          else if strings.HasSuffix name ".json" then restartAfterSplit w name
          else if strings.HasSuffix name "prowjob.json"
               then restartAfter w (filepath.Base (filepath.Dir name))
          else Goes w
        else
          if strings.HasSuffix name "prowjob.json" then
            let runId := filepath.Base (filepath.Dir name) in
            restartAfter
              {| it := it w; queryStartOffset := queryStartOffset w;
                 jobRunId := runId; it_count := count;
                 jobRunProcessingCh := (jobRunProcessingCh w ++ [runId])%list;
                 errorCh := errorCh w |} runId
          else Goes w
    end.

(** The goroutine after at most [fuel] turns of its loop. *)
Fixpoint walk (fuel : nat) (w : walker) : walkStep :=
  match fuel with
  | O => Goes w
  | S fuel' =>
      match loopBody w with
      | Goes w' => walk fuel' w'
      | stop => stop
      end
  end.

Definition startWalker (startingID : string) : walker :=
  let query := initialQuery jobName startingID in
  {| it := Objects query; queryStartOffset := storage.StartOffset query;
     jobRunId := ""; it_count := O;
     jobRunProcessingCh := []; errorCh := [] |}.

(** What has been sent on the output channel after [fuel] turns. *)
Definition ListJobRunNamesOlderThanFourHours (startingID : string) (fuel : nat)
  : walkStep :=
  walk fuel (startWalker startingID).

End CursorWalker.

(** The candidate age band of the walker. *)
Definition inCandidateBand (now : Z) (o : storage.ObjectAttrs) : Prop :=
  4 * Hour <= timeSub now (storage.Created o) <= 17 * Hour.

(* ===================================================================== *)
(** * Job getter: GetJobs and its filters                                  *)
(* ===================================================================== *)

Module sets.

(** [sets.String]: the keys of the map, each once, in the order a [range]
    over the map happens to visit them. *)
Definition String : Type := list string.

Definition Has (s : String) (item : string) : bool :=
  existsb (fun key => (key =? item)%string) s.

Definition Insert (s : String) (item : string) : String :=
  if Has s item then s else (s ++ [item])%list.

End sets.

(** [testCaseAnalyzerJobGetter]; a nil [excludeJobNames] map and a nil
    [jobGCSPrefixes] pointer are [None]. [ListAllJobs] is what
    [ciDataClient.ListAllJobs] returns. *)
Record testCaseAnalyzerJobGetter : Type := mkJobGetter {
  platform : string;
  infrastructure : string;
  network : string;
  excludeJobNames : option sets.String;
  getter_jobGCSPrefixes : option (list jobGCSPrefix);
  ListAllJobs : list JobRow + error
}.

Definition getJobInfrastructure (name : string) : string :=
  if strings.Contains name "upi" then "upi" else "ipi".

(** The [range] over the exclusion keys, left at the first key found in
    the job name. *)
Fixpoint anyKeyIn (jobName : string) (keys : list string) : bool :=
  match keys with
  | [] => false
  | key :: rest =>
      if strings.Contains jobName key then true else anyKeyIn jobName rest
  end.

Definition isJobNameFiltered (s : testCaseAnalyzerJobGetter) (jobName : string)
  : bool :=
  match excludeJobNames s with
  | None => false
  | Some keys => anyKeyIn jobName keys
  end.

(** The loop of [filterJobsForPayload], with the slice [jobs] built so
    far. *)
Fixpoint filterJobsForPayloadFrom (s : testCaseAnalyzerJobGetter)
         (allJobs jobs : list JobRow) : list JobRow :=
  match allJobs with
  | [] => jobs
  | job :: rest =>
      if (negb (String.length (platform s) =? 0)%nat
          && negb (Platform job =? platform s)%string)
         || (negb (String.length (network s) =? 0)%nat
             && negb (Network job =? network s)%string)
         || (negb (String.length (infrastructure s) =? 0)%nat
             && negb (infrastructure s =? getJobInfrastructure (JobName job))%string)
      then filterJobsForPayloadFrom s rest jobs
      else if isJobNameFiltered s (JobName job)
           then filterJobsForPayloadFrom s rest jobs
           else filterJobsForPayloadFrom s rest (jobs ++ [job])%list
  end.

Definition filterJobsForPayload (s : testCaseAnalyzerJobGetter)
           (allJobs : list JobRow) : list JobRow :=
  filterJobsForPayloadFrom s allJobs [].

(** The loop of [filterJobsByNames] (the receiver is not used). *)
Fixpoint filterJobsByNamesFrom (jobNames : sets.String)
         (allJobs ret : list JobRow) : list JobRow :=
  match allJobs with
  | [] => ret
  | curr :: rest =>
      if sets.Has jobNames (JobName curr)
      then filterJobsByNamesFrom jobNames rest (ret ++ [curr])%list
      else filterJobsByNamesFrom jobNames rest ret
  end.

Definition filterJobsByNames (jobNames : sets.String) (allJobs : list JobRow)
  : list JobRow :=
  filterJobsByNamesFrom jobNames allJobs [].

Definition GetJobs (s : testCaseAnalyzerJobGetter) : list JobRow + error :=
  match ListAllJobs s with
  | inr err => inr ("failed to list all jobs: " ++ err)
  | inl jobs =>
      match getter_jobGCSPrefixes s with
      | None => inl (filterJobsForPayload s jobs)
      | Some prefixes =>
          if (0 <? List.length prefixes)%nat then
            let jobNames :=
              fold_left (fun names p => sets.Insert names (jobName p)) prefixes [] in
            inl (filterJobsByNames jobNames jobs)
          else inl (filterJobsForPayload s jobs)
      end
  end.

(* ===================================================================== *)
(** * Orchestrator: runTestCaseCheckers and Run                            *)
(* ===================================================================== *)

(** [filepath.Join]: the elements from the first non-empty one on, joined
    by slashes and cleaned; the empty string when all are empty. *)
Fixpoint filepath_Join (elem : list string) : string :=
  match elem with
  | [] => ""
  | e :: rest =>
      if (e =? "")%string then filepath_Join rest
      else filepath.Clean (stringsJoin elem "/")
  end.

Definition Minute : Z := 60 * 1000000000.

(** A [jobrunaggregatorapi.JobRunInfo] held in a slice or used as a map
    key is an interface value holding a pointer to the run object (the GCS
    client allocates the object with [NewGCSJobRun] and updates it in
    place). Go compares such keys by the pointer: two keys are the same
    exactly when they point to the same object, whatever the two objects
    report. A pointer is modelled by the address it holds; the slices are
    taken to hold no nil value. *)
Definition jobRunPtr : Type := nat.

(** [m[key] = value] on a map held as its entries, one per key. *)
Fixpoint mapStore (m : list (jobRunPtr * TestSuites)) (key : jobRunPtr)
         (value : TestSuites) : list (jobRunPtr * TestSuites) :=
  match m with
  | [] => [(key, value)]
  | (k, v) :: rest =>
      if (k =? key)%nat then (k, value) :: rest
      else (k, v) :: mapStore rest key value
  end.

(** The operations on the file system that [Run] has carried out. *)
Inductive fileOp : Type :=
| MadeDir (path : string)
| WroteFile (path data : string).

(** A [TestCaseChecker] is its [CheckTestCase] method, given the map's
    entries in the order its [range] visits them; [None] is a nil suite. *)
Definition TestCaseChecker : Type :=
  list (JobRunInfo * TestSuites) -> option TestSuite.

Section Orchestrator.

(** What the run object behind a pointer reports to a checker;
    [jobRun.GetCombinedJUnitTestSuites] as called in turn i of the first
    loop (i = 0, 1, ...) on the object behind a pointer; and the order in
    which the k-th checker's [range] visits the entries of the map. *)
Variable jobRunAt : jobRunPtr -> JobRunInfo.
Variable GetCombinedJUnitTestSuites : nat -> jobRunPtr -> TestSuites + error.
Variable rangeOrder :
  nat -> list (jobRunPtr * TestSuites) -> list (jobRunPtr * TestSuites).

(** The first loop of [runTestCaseCheckers], from turn [i] on: a run
    whose junit cannot be read is not stored. *)
Fixpoint collectJunits (i : nat) (allJobRuns : list jobRunPtr)
         (jobRunJunitMap : list (jobRunPtr * TestSuites))
  : list (jobRunPtr * TestSuites) :=
  match allJobRuns with
  | [] => jobRunJunitMap
  | jobRun :: rest =>
      match GetCombinedJUnitTestSuites i jobRun with
      | inr _ => collectJunits (S i) rest jobRunJunitMap
      | inl testSuites =>
          collectJunits (S i) rest (mapStore jobRunJunitMap jobRun testSuites)
      end
  end.

(** The entries of the map as a checker reads them: each key is asked for
    its job name, run id and URLs. *)
Definition mapEntries (jobRunJunitMap : list (jobRunPtr * TestSuites))
  : list (JobRunInfo * TestSuites) :=
  map (fun entry => (jobRunAt (fst entry), snd entry)) jobRunJunitMap.

(** The second loop: each checker's suite is appended to [topSuite] and
    its counters are added; reading the counters of a nil suite panics. *)
Fixpoint runCheckers (checkers : list TestCaseChecker) (k : nat)
         (jobRunJunitMap : list (jobRunPtr * TestSuites)) (topSuite : TestSuite)
  : outcome TestSuite :=
  match checkers with
  | [] => Returns topSuite
  | checker :: rest =>
      match checker (mapEntries (rangeOrder k jobRunJunitMap)) with
      | None => Panics "nil pointer dereference"
      | Some testSuite =>
          runCheckers rest (S k) jobRunJunitMap
            (mkTestSuite (Name topSuite)
               (GoInt.wrap_uint64 (NumTests topSuite + NumTests testSuite))
               (GoInt.wrap_uint64 (NumFailed topSuite + NumFailed testSuite))
               (TestCases topSuite)
               (Children topSuite ++ [testSuite])%list)
      end
  end.

Definition runTestCaseCheckers (testCaseCheckers : list TestCaseChecker)
           (finishedJobRuns unfinishedJobRuns : list jobRunPtr)
  : outcome TestSuite :=
  let topSuite := mkTestSuite "payload-cross-jobs" 0 0 [] [] in
  let allJobRuns := (finishedJobRuns ++ unfinishedJobRuns)%list in
  let jobRunJunitMap := collectJunits 0 allJobRuns [] in
  runCheckers testCaseCheckers 0 jobRunJunitMap topSuite.

(** What [Run] calls outside the analyzer: the file system, the two
    waits of jobrunaggregatorlib (the second one also gathers the runs),
    the XML encoder, [time.Time.Add], the sentinel error of the library and
    fmt's quoting of a string. *)
Variable Time : Type.
Variable timeAdd : Time -> Z -> Time.
Variable MkdirAll : string -> option error.
Variable WaitUntilTime : Time -> option error.
Variable WaitAndGetAllFinishedJobRuns :
  Time -> string -> (list jobRunPtr * list jobRunPtr) + error.
Variable xmlMarshal : TestSuite -> string + error.
Variable WriteFile : string -> string -> option error.
Variable ErrorTestCheckerFailed : error.
Variable quoted : string -> string.

(** The fields of [JobRunTestCaseAnalyzerOptions] that [Run] reads. *)
Record runOptions : Type := mkRunOptions {
  runPayloadTag : string;
  runPayloadInvocationID : string;
  workingDir : string;
  jobRunStartEstimate : Time;
  timeout : Z;
  testCaseCheckers : list TestCaseChecker
}.

(** [Run]: the file operations carried out, and what is returned. *)
Definition Run (o : runOptions) : list fileOp * outcome (option error) :=
  let matchID :=
    if (String.length (runPayloadTag o) =? 0)%nat then runPayloadInvocationID o
    else runPayloadTag o in
  let outputDir := filepath_Join [workingDir o; matchID] in
  match MkdirAll outputDir with
  | Some err =>
      ([], Returns (Some ("error creating output directory " ++ quoted outputDir
                            ++ ": " ++ err)))
  | None =>
      let readyAt := timeAdd (jobRunStartEstimate o) (1 * Hour) in
      let durationToWait := GoInt.wrap_int64 (timeout o - 20 * Minute) in
      let timeToStopWaiting := timeAdd (jobRunStartEstimate o) durationToWait in
      match WaitUntilTime readyAt with
      | Some err => ([MadeDir outputDir], Returns (Some err))
      | None =>
          match WaitAndGetAllFinishedJobRuns timeToStopWaiting outputDir with
          | inr err => ([MadeDir outputDir], Returns (Some err))
          | inl (finishedJobRuns, unfinishedJobRuns) =>
              match runTestCaseCheckers (testCaseCheckers o)
                                        finishedJobRuns unfinishedJobRuns with
              | Panics why => ([MadeDir outputDir], Panics why)
              | Returns testSuite =>
                  match xmlMarshal testSuite with
                  | inr err => ([MadeDir outputDir], Returns (Some err))
                  | inl junitXML =>
                      let path :=
                        filepath_Join [outputDir; "junit-test-case-analysis.xml"] in
                      match WriteFile path junitXML with
                      | Some err => ([MadeDir outputDir], Returns (Some err))
                      | None =>
                          ([MadeDir outputDir; WroteFile path junitXML],
                           Returns (if NumFailed testSuite >? 0
                                    then Some ErrorTestCheckerFailed
                                    else None))
                      end
                  end
              end
          end
      end
  end.

End Orchestrator.

(* ===================================================================== *)
(** * The command: its flags, Validate and ToOptions                       *)
(* ===================================================================== *)

Module jobGCSPrefixSlice.

(** The flag value methods, on the slice [*s.values]. *)
Definition String (values : list jobGCSPrefix) : string :=
  if (List.length values =? 0)%nat then ""
  else stringsJoin (map (fun value => jobName value ++ "=" ++ gcsPrefix value)
                        values) ",".

(** The loop of [Set] over the pairs: the slice as it is when the loop
    is left, and the error returned. *)
Fixpoint setPairs (jobPairs : list string) (values : list jobGCSPrefix)
  : list jobGCSPrefix * option error :=
  match jobPairs with
  | [] => (values, None)
  | jobPair :: rest =>
      match strings.Split jobPair "=" with
      | [name; prefix] =>
          setPairs rest (values ++ [{| jobName := name; gcsPrefix := prefix |}])%list
      | _ =>
          (values,
           Some "GCS prefix should consist of job name and GCS prefix separated by '='")
      end
  end.

(** [Set] (whose name is a keyword here). *)
Definition Set_ (values : list jobGCSPrefix) (value : string)
  : list jobGCSPrefix * option error :=
  if (String.length value =? 0)%nat then ([], None)
  else
    let jobPairs := strings.Split value "," in
    if (List.length jobPairs =? 0)%nat
    then (values,
          Some "need at least one GCS prefix configured with explicit-gcs-prefixes")
    else setPairs jobPairs values.

End jobGCSPrefixSlice.

Module cmd.

Definition installTestGroup : string := "install".
Definition defaultMinimumSuccessfulTestCount : Z := 1.
Definition maxTimeout : Z := 4 * Hour + 35 * Minute.

Definition knownPlatforms : sets.String :=
  ["aws"; "azure"; "gcp"; "libvirt"; "metal"; "ovirt"; "vsphere"].
Definition knownNetworks : sets.String := ["ovn"; "sdn"].
Definition knownInfrastructures : sets.String := ["upi"; "ipi"].
Definition knownTestGroups : sets.String := [installTestGroup].

(** [time.RFC3339]. *)
Definition kubeTimeSerializationLayout : string := "2006-01-02T15:04:05Z07:00".

Record BigQueryDataCoordinates : Type := mkDataCoordinates {
  ProjectID : string;
  DataSetID : string
}.

Definition DataCoordinates_Validate (f : BigQueryDataCoordinates) : option error :=
  if (String.length (ProjectID f) =? 0)%nat
  then Some "one of --google-service-account-credential-file or --google-oauth-credential-file must be specified"
  else if (String.length (DataSetID f) =? 0)%nat
  then Some "one of --google-service-account-credential-file or --google-oauth-credential-file must be specified"
  else None.

(** The flags; [Authentication_Validate] is what
    [f.Authentication.Validate()] returns, [TestGroups] the values of the
    string slice. *)
Record JobRunsTestCaseAnalyzerFlags : Type := mkFlags {
  DataCoordinates : BigQueryDataCoordinates;
  Authentication_Validate : option error;
  TestGroups : list string;
  WorkingDir : string;
  PayloadTag : string;
  Timeout : Z;
  EstimatedJobStartTimeString : string;
  Platform : string;
  Infrastructure : string;
  Network : string;
  MinimumSuccessfulTestCount : Z;
  PayloadInvocationID : string;
  JobGCSPrefixes : list jobGCSPrefix;
  ExcludeJobNames : list string
}.

(** The first test group that is not a known one. *)
Fixpoint unknownTestGroup (groups : list string) : option string :=
  match groups with
  | [] => None
  | group :: rest =>
      if sets.Has knownTestGroups group then unknownTestGroup rest else Some group
  end.

Section Flags.

(** [time.Parse], and fmt's renderings used in the messages: the verb +q
    on the sorted list of a set and on a set itself, the verb s on a
    duration. *)
Variable Time : Type.
Variable timeParse : string -> string -> Time + error.
Variable quotedList : sets.String -> string.
Variable quotedSet : sets.String -> string.
Variable durationString : Z -> string.

Definition Validate (f : JobRunsTestCaseAnalyzerFlags) : option error :=
  if (String.length (WorkingDir f) =? 0)%nat
  then Some "missing --working-dir: like test-analyzer-working-dir"
  else
    match timeParse kubeTimeSerializationLayout (EstimatedJobStartTimeString f) with
    | inr err => Some err
    | inl _ =>
    match DataCoordinates_Validate (DataCoordinates f) with
    | Some err => Some err
    | None =>
    match Authentication_Validate f with
    | Some err => Some err
    | None =>
    if (List.length (TestGroups f) =? 0)%nat
    then Some "at least one test group has to be specified"
    else
    match unknownTestGroup (TestGroups f) with
    | Some group =>
        Some ("unknown test group " ++ group ++ ", valid values are: "
                ++ quotedList knownTestGroups)
    | None =>
    if (0 <? String.length (PayloadTag f))%nat
       && (0 <? String.length (PayloadInvocationID f))%nat
    then Some "cannot specify both --payload-tag and --payload-invocation-id"
    else
    if (String.length (PayloadTag f) =? 0)%nat
       && (String.length (PayloadInvocationID f) =? 0)%nat
    then Some "exactly one of --payload-tag or --payload-invocation-id must be specified"
    else
    if (0 <? String.length (PayloadInvocationID f))%nat
       && (List.length (JobGCSPrefixes f) =? 0)%nat
    then Some "if --payload-invocation-id is specified, you must specify --explicit-gcs-prefixes"
    else
    if (0 <? String.length (PayloadInvocationID f))%nat
       && ((0 <? String.length (Platform f))%nat
           || (0 <? String.length (Network f))%nat
           || (0 <? String.length (Infrastructure f))%nat)
    then Some "if --payload-invocation-id is specified, --platform, --network or --infrastructure cannot be specified"
    else
    if (0 <? String.length (Platform f))%nat
       && negb (sets.Has knownPlatforms (Platform f))
    then Some ("unknown platform " ++ Platform f ++ ", valid values are: "
                 ++ quotedSet knownPlatforms)
    else
    if (0 <? String.length (Network f))%nat
       && negb (sets.Has knownNetworks (Network f))
    then Some ("unknown network " ++ Network f ++ ", valid values are: "
                 ++ quotedSet knownNetworks)
    else
    if (0 <? String.length (Infrastructure f))%nat
       && negb (sets.Has knownInfrastructures (Infrastructure f))
    then Some ("unknown infrastructure " ++ Infrastructure f
                 ++ ", valid values are: " ++ quotedList knownInfrastructures)
    else
    if Timeout f >? maxTimeout
    then Some ("timeout value of " ++ durationString (Timeout f)
                 ++ " is out of range, valid value should be less than "
                 ++ durationString maxTimeout)
    else None
    end end end end.

(** What the three client constructors called by [ToOptions] return as
    error, and what the data client built there answers to
    [ListAllJobs]. *)
Variable NewBigQueryClient : option error.
Variable NewGCSClient : option error.
Variable NewCIGCSClient : option error.
Variable ciDataClient_ListAllJobs : list JobRow + error.

(** The job getter built by [ToOptions]. *)
Definition jobGetterOf (f : JobRunsTestCaseAnalyzerFlags)
  : testCaseAnalyzerJobGetter :=
  {| platform := Platform f;
     infrastructure := Infrastructure f;
     network := Network f;
     excludeJobNames :=
       if (0 <? List.length (ExcludeJobNames f))%nat
       then Some (fold_left sets.Insert (ExcludeJobNames f) [])
       else None;
     getter_jobGCSPrefixes := Some (JobGCSPrefixes f);
     ListAllJobs := ciDataClient_ListAllJobs |}.

(** [ToOptions], for the fields of the options that GetRelatedJobRuns
    reads. *)
Definition ToOptions (f : JobRunsTestCaseAnalyzerFlags)
  : JobRunTestCaseAnalyzerOptions + error :=
  match timeParse kubeTimeSerializationLayout (EstimatedJobStartTimeString f) with
  | inr err => inr err
  | inl estimatedStartTime =>
      match NewBigQueryClient with
      | Some err => inr err
      | None =>
          match NewGCSClient with
          | Some err => inr err
          | None =>
              match NewCIGCSClient with
              | Some err => inr err
              | None =>
                  inl {| payloadTag := PayloadTag f;
                         payloadInvocationID := PayloadInvocationID f;
                         jobGCSPrefixes := Some (JobGCSPrefixes f);
                         jobGetter_GetJobs := GetJobs (jobGetterOf f) |}
              end
          end
      end
  end.

End Flags.

End cmd.

(* ===================================================================== *)
(** * Specification-side notions                                           *)
(* ===================================================================== *)

(** The first verdict of a sequence that is passed or failed; skipped when
    there is none. *)
Fixpoint firstDecisive (verdicts : list testStatus) : testStatus :=
  match verdicts with
  | [] => testSkipped
  | testSkipped :: rest => firstDecisive rest
  | decided :: _ => decided
  end.

(** The verdict of a direct test case: failed when failure information is
    present, passed otherwise. *)
Definition caseVerdict (tc : TestCase) : testStatus :=
  match tcFailureOutput tc with
  | Some _ => testFailed
  | None => testPassed
  end.

(** The verdict of one run: the first decisive verdict over its top-level
    suites. *)
Definition runVerdict (tid : testIdentifier) (suites : TestSuites) : testStatus :=
  firstDecisive (map (getTestStatus tid) (Suites suites)).

Definition isPassed (s : testStatus) : bool :=
  match s with testPassed => true | _ => false end.

(** The number of runs whose verdict is passed. *)
Definition passedRuns (tid : testIdentifier)
           (jobRunJunits : list (JobRunInfo * TestSuites)) : Z :=
  lenZ (filter (fun entry => isPassed (runVerdict tid (snd entry))) jobRunJunits).

(** The suite chain that [CheckTestCase] builds: the top suite, one
    wrapping suite per name, and the test cases in the last one. *)
Fixpoint chain (top : string) (names : list string) (cases : list TestCase)
  : TestSuite :=
  match names with
  | [] => mkTestSuite top 0 0 cases []
  | n :: rest => mkTestSuite top 0 0 [] [chain n rest cases]
  end.

(** The synthesized test case: failure output exactly when the success
    count is below the required minimum. *)
Definition verdictCase (r : minimumRequiredPassesTestCaseChecker)
           (detailsYaml : string) (successCount : Z) : TestCase :=
  {| tcName := syntheticTestName r;
     SystemOut := detailsYaml;
     tcFailureOutput :=
       if successCount <? requiredNumberOfPasses r
       then Some {| Message := failureMessage (requiredNumberOfPasses r) successCount;
                    Output := "" |}
       else None |}.

(** The metadata descriptor of a run: an object named ...prowjob.json. *)
Definition isProwJob (o : storage.ObjectAttrs) : bool :=
  strings.HasSuffix (storage.ObjName o) "prowjob.json".

(** A run id that the walker may send: the directory name of a listed
    prowjob.json object whose age is in the candidate band. *)
Definition candidateMarkerId (bucket : list storage.ObjectAttrs) (now : Z)
           (runId : string) : Prop :=
  exists o, In o bucket
            /\ isProwJob o = true
            /\ inCandidateBand now o
            /\ runId = filepath.Base (filepath.Dir (storage.ObjName o)).

Fixpoint noSlash (s : string) : bool :=
  match s with
  | EmptyString => true
  | String c rest => negb (Ascii.eqb c "/") && noSlash rest
  end.

(** The names on which the walker moves its cursor or sends a run id. *)
Definition triggers (name : string) : bool :=
  strings.HasSuffix name ".json"
  || strings.HasSuffix name "build-log.txt"
  || strings.HasSuffix name "prowjob.json".

(** A run id written with [width] decimal digits whose successor is
    written with as many digits and fits int64. *)
Definition fixedWidthRunId (width : nat) (runId : string) : Prop :=
  strconv.allDigits runId = true
  /\ String.length runId = width
  /\ 10 ^ (Z.of_nat width - 1) <= strconv.decimalValue runId 0 + 1
  /\ strconv.decimalValue runId 0 + 1 < 10 ^ Z.of_nat width
  /\ strconv.decimalValue runId 0 + 1 < 2 ^ 63.

(** An object laid out as logs/<job>/<run id>/<file>, with prowjob.json
    directly in the run's directory; objects the walker only steps over are
    not constrained. *)
Definition runLayout (jobName : string) (width : nat) (o : storage.ObjectAttrs)
  : Prop :=
  triggers (storage.ObjName o) = false
  \/ exists runId file,
      storage.ObjName o = "logs/" ++ jobName ++ "/" ++ runId ++ "/" ++ file
      /\ fixedWidthRunId width runId
      /\ (isProwJob o = true -> noSlash file = true).

(** Run ids in strictly ascending numeric order. *)
Definition ascendingIds (runIds : list string) : Prop :=
  StronglySorted (fun a b => strconv.decimalValue a 0 < strconv.decimalValue b 0)
                 runIds.

(** Two small listings, read at the hundredth hour: a run whose
    finished.json is three hours old while its prowjob.json is five hours
    old, and two runs with ids of different lengths. *)
Definition objectAged (name : string) (hoursOld : Z) : storage.ObjectAttrs :=
  {| storage.ObjName := name; storage.Created := (100 - hoursOld) * Hour |}.

Definition youngFinishedBucket : list storage.ObjectAttrs :=
  [objectAged "logs/e2e-aws/1475614363518767105/prowjob.json" 6;
   objectAged "logs/e2e-aws/1475614363518767107/finished.json" 3;
   objectAged "logs/e2e-aws/1475614363518767107/prowjob.json" 5].

Definition shortIdBucket : list storage.ObjectAttrs :=
  [objectAged "logs/e2e-aws/10/prowjob.json" 6;
   objectAged "logs/e2e-aws/9/prowjob.json" 6].

(** The pointer to the bottom of a chain: first child, as many times as
    there are wrapping suites. *)
Definition zeros (names : list string) : suitePtr := repeat O (List.length names).

(** The walker's listing stays within the bucket and it has sent only
    candidate markers. *)
Definition soundWalker (bucket : list storage.ObjectAttrs) (now : Z) (w : walker)
  : Prop :=
  (forall o, In o (storage.pending (it w)) -> In o bucket)
  /\ Forall (candidateMarkerId bucket now) (jobRunProcessingCh w).

Definition runIdValue (runId : string) : Z := strconv.decimalValue runId 0.

(** The objects of a bucket that a listing under the job's prefix can
    return. *)
Definition listedObjects (jobName : string) (bucket : list storage.ObjectAttrs)
  : list storage.ObjectAttrs :=
  filter (fun o => strings.HasPrefix (storage.ObjName o) ("logs/" ++ jobName)) bucket.

(** Everything still to be listed lies at or above a bound that all the
    ids sent so far are below, and these are in ascending order. *)
Definition ascWalker (bucket : list storage.ObjectAttrs) (jobName : string)
           (width : nat) (w : walker) : Prop :=
  exists bound,
    (forall o, In o (storage.pending (it w)) ->
               In o (listedObjects jobName bucket)
               /\ forall runId file,
                   storage.ObjName o
                   = "logs/" ++ jobName ++ "/" ++ runId ++ "/" ++ file ->
                   fixedWidthRunId width runId -> bound <= runIdValue runId)
    /\ Forall (fun r => runIdValue r < bound) (jobRunProcessingCh w)
    /\ ascendingIds (jobRunProcessingCh w).

(** The object store lists names in strictly increasing byte order. *)
Definition sortedByName (bucket : list storage.ObjectAttrs) : Prop :=
  StronglySorted
    (fun a b => strings.ltb (storage.ObjName a) (storage.ObjName b) = true) bucket.

(** An object outside the candidate band on which the walker moves the
    cursor to the next run id: too old and named ....json, or too young and
    named ...build-log.txt or ....json (latest-build.txt never). *)
Definition skipsRun (now : Z) (o : storage.ObjectAttrs) : bool :=
  let name := storage.ObjName o in
  let age := timeSub now (storage.Created o) in
  if age >? 1 * 17 * Hour then
    negb (strings.HasSuffix name "latest-build.txt")
    && (strings.HasSuffix name ".json" || strings.HasSuffix name "prowjob.json")
  else if age <? 4 * Hour then
    negb (strings.HasSuffix name "latest-build.txt")
    && (strings.HasSuffix name "build-log.txt"
        || strings.HasSuffix name ".json"
        || strings.HasSuffix name "prowjob.json")
  else false.

(** The marker [m] of a run is reached: no object of the same run
    directory that is listed before it moves the cursor past the run. *)
Definition reachedMarker (bucket : list storage.ObjectAttrs) (now : Z)
           (jobName : string) (m : storage.ObjectAttrs) : Prop :=
  forall o,
    In o bucket ->
    strings.HasPrefix
      (storage.ObjName o)
      ("logs/" ++ jobName ++ "/"
         ++ filepath.Base (filepath.Dir (storage.ObjName m)) ++ "/") = true ->
    strings.ltb (storage.ObjName o) (storage.ObjName m) = true ->
    skipsRun now o = false.

(** The listing in use is the part of the bucket kept by a predicate that
    is closed upwards in the name order, and the marker [m] is still in
    it. *)
Definition aheadWalker (bucket : list storage.ObjectAttrs) (jobName : string)
           (m : storage.ObjectAttrs) (w : walker) : Prop :=
  exists keep : storage.ObjectAttrs -> bool,
    storage.pending (it w) = filter keep bucket
    /\ (forall x, keep x = true ->
                  strings.HasPrefix (storage.ObjName x) ("logs/" ++ jobName) = true)
    /\ (forall a b,
           keep a = true -> In b bucket ->
           strings.HasPrefix (storage.ObjName b) ("logs/" ++ jobName) = true ->
           strings.leb (storage.ObjName a) (storage.ObjName b) = true ->
           keep b = true)
    /\ keep m = true.

(** The details handed to [yaml.Marshal], and the checker's final
    [successCount]. *)
Definition collectedDetails (sep : string) (r : minimumRequiredPassesTestCaseChecker)
           (jobRunJunits : list (JobRunInfo * TestSuites)) : TestCaseDetails :=
  withSummary (lenZ jobRunJunits)
              (fst (scanJobRuns r jobRunJunits (initialDetails sep r) 0)).

Definition successCountOf (sep : string) (r : minimumRequiredPassesTestCaseChecker)
           (jobRunJunits : list (JobRunInfo * TestSuites)) : Z :=
  snd (scanJobRuns r jobRunJunits (initialDetails sep r) 0).

(** The test case at the bottom of a chain of only children. *)
Fixpoint synthesizedTestCase (s : TestSuite) : option TestCase :=
  match s with
  | mkTestSuite _ _ _ cases children =>
      match children with
      | [] => hd_error cases
      | child :: _ => synthesizedTestCase child
      end
  end.

(** Every suite node of a tree, the root first. *)
Fixpoint allSuites (s : TestSuite) : list TestSuite :=
  match s with
  | mkTestSuite _ _ _ _ children => s :: flat_map allSuites children
  end.

Definition sumZ (l : list Z) : Z := fold_right Z.add 0 l.

Definition failedCases (cases : list TestCase) : Z :=
  lenZ (filter (fun tc => match tcFailureOutput tc with
                          | Some _ => true
                          | None => false
                          end) cases).

(** The count invariant of one node. *)
Definition countsOk (s : TestSuite) : Prop :=
  NumTests s = lenZ (TestCases s) + sumZ (map NumTests (Children s))
  /\ NumFailed s = failedCases (TestCases s) + sumZ (map NumFailed (Children s)).

(** All test cases below a node, and those carrying failure output. *)
Fixpoint totalCases (s : TestSuite) : Z :=
  match s with
  | mkTestSuite _ _ _ cases children =>
      lenZ cases + sumZ (map totalCases children)
  end.

Fixpoint totalFailed (s : TestSuite) : Z :=
  match s with
  | mkTestSuite _ _ _ cases children =>
      failedCases cases + sumZ (map totalFailed children)
  end.

Definition isFailed (s : testStatus) : bool :=
  match s with testFailed => true | _ => false end.

Definition isSkipped (s : testStatus) : bool :=
  match s with testSkipped => true | _ => false end.

(** The references of the runs whose verdict is of one kind, in the order
    the runs are iterated. *)
Definition runsWithVerdict (kind : testStatus -> bool) (tid : testIdentifier)
           (jobRunJunits : list (JobRunInfo * TestSuites)) : list TestCaseRef :=
  map (fun entry => refOf (fst entry))
      (filter (fun entry => kind (runVerdict tid (snd entry))) jobRunJunits).

(** A suite tree with every counter set to zero: the part of a tree that
    [updateTestCountsInSuite] does not write. *)
Fixpoint resetCounts (s : TestSuite) : TestSuite :=
  match s with
  | mkTestSuite name _ _ cases children =>
      mkTestSuite name 0 0 cases (map resetCounts children)
  end.

(** [t] is reached from [s] along suites named as [names] says, [s]
    itself bearing the first name and [t] the last. *)
Fixpoint onPath (names : list string) (s t : TestSuite) : Prop :=
  match names with
  | [] => False
  | n :: rest =>
      n = Name s
      /\ match rest with
         | [] => t = s
         | _ :: _ => exists c, In c (Children s) /\ onPath rest c t
         end
  end.

(** A junit result file as the Run Resolver takes it: not a prowjob.json,
    named ....xml with /junit in its name, and at least four name parts
    long. *)
Definition isJunitFile (o : storage.ObjectAttrs) : bool :=
  negb (isProwJob o)
  && (strings.HasSuffix (storage.ObjName o) ".xml"
      && strings.Contains (storage.ObjName o) "/junit")
  && (4 <=? List.length (strings.Split (storage.ObjName o) "/"))%nat.

(** The run id read off the name of an object that makes the Run Resolver
    allocate the job run. *)
Definition runIdOfObject (o : storage.ObjectAttrs) : string :=
  if isProwJob o then filepath.Base (filepath.Dir (storage.ObjName o))
  else nth 2 (strings.Split (storage.ObjName o) "/") "".

(** The walker once [it.Next()] has handed out the first pending object
    and the turn is counted. *)
Definition stepped (w : walker) (rest : list storage.ObjectAttrs) : walker :=
  {| it := {| storage.pending := rest; storage.ending := storage.ending (it w) |};
     queryStartOffset := queryStartOffset w;
     jobRunId := jobRunId w;
     it_count := S (it_count w);
     jobRunProcessingCh := jobRunProcessingCh w;
     errorCh := errorCh w |}.

(** The age of an object lies outside the candidate band. *)
Definition outOfBand (now : Z) (o : storage.ObjectAttrs) : Prop :=
  timeSub now (storage.Created o) > 17 * Hour
  \/ timeSub now (storage.Created o) < 4 * Hour.

(** The listing in use ends without error and is the part of the bucket
    kept by a predicate that stays within the job's prefix and is closed
    upwards in the name order. *)
Definition orderedListing (bucket : list storage.ObjectAttrs) (jobName : string)
           (w : walker) : Prop :=
  exists keep : storage.ObjectAttrs -> bool,
    storage.pending (it w) = filter keep bucket
    /\ (forall x, keep x = true ->
                  strings.HasPrefix (storage.ObjName x) ("logs/" ++ jobName) = true)
    /\ (forall a b,
           keep a = true -> In b bucket ->
           strings.HasPrefix (storage.ObjName b) ("logs/" ++ jobName) = true ->
           strings.leb (storage.ObjName a) (storage.ObjName b) = true ->
           keep b = true)
    /\ storage.ending (it w) = None.

(** A listing with runs in all three age bands, read at the hundredth
    hour. *)
Definition mixedAgesBucket : list storage.ObjectAttrs :=
  [objectAged "logs/e2e-aws/1475614363518767105/build-log.txt" 6;
   objectAged "logs/e2e-aws/1475614363518767105/prowjob.json" 6;
   objectAged "logs/e2e-aws/1475614363518767106/prowjob.json" 20;
   objectAged "logs/e2e-aws/1475614363518767107/finished.json" 2;
   objectAged "logs/e2e-aws/1475614363518767107/prowjob.json" 5;
   objectAged "logs/e2e-aws/latest-build.txt" 1].

(** The selection criteria of a release-controller payload: each of
    platform, network and infrastructure is either not given or matched,
    and no exclusion key occurs in the job name. *)
Definition meetsCriteria (s : testCaseAnalyzerJobGetter) (job : JobRow) : Prop :=
  (platform s = "" \/ Platform job = platform s)
  /\ (network s = "" \/ Network job = network s)
  /\ (infrastructure s = ""
      \/ infrastructure s = getJobInfrastructure (JobName job))
  /\ forall keys key,
      excludeJobNames s = Some keys -> In key keys ->
      strings.Contains (JobName job) key = false.

(** fmt's verb q on a string of printable ASCII characters other than
    the double quote and the backslash: the string between double
    quotes. *)
Definition quotedPlain (s : string) : string :=
  String (ascii_of_nat 34) (s ++ String (ascii_of_nat 34) "").

(** The last read of the junit of the run object behind [p] that
    succeeded, among the reads made for the slice [allJobRuns], is the one
    of turn [i], and it returned [suites]. *)
Definition lastReadOf (GetCombinedJUnitTestSuites : nat -> jobRunPtr -> TestSuites + error)
           (allJobRuns : list jobRunPtr) (p : jobRunPtr) (i : nat)
           (suites : TestSuites) : Prop :=
  nth_error allJobRuns i = Some p
  /\ GetCombinedJUnitTestSuites i p = inl suites
  /\ forall j other,
      (i < j)%nat -> nth_error allJobRuns j = Some p ->
      GetCombinedJUnitTestSuites j p <> inl other.

(** Three runs of a payload: one that installed, one whose install
    failed, and one whose junit cannot be read. *)
Definition installedRun : JobRunInfo :=
  {| GetJobName := "e2e-aws"; GetJobRunID := "1520000000000000001";
     GetHumanURL := ""; GetGCSArtifactURL := "" |}.

Definition brokenRun : JobRunInfo :=
  {| GetJobName := "e2e-gcp"; GetJobRunID := "1520000000000000002";
     GetHumanURL := ""; GetGCSArtifactURL := "" |}.

Definition unreadableRun : JobRunInfo :=
  {| GetJobName := "e2e-azure"; GetJobRunID := "1520000000000000003";
     GetHumanURL := ""; GetGCSArtifactURL := "" |}.

Definition installSuites (failure : option FailureOutput) : TestSuites :=
  {| Suites := [mkTestSuite "cluster install" 1 0
                  [{| tcName := "install should succeed: overall";
                      SystemOut := ""; tcFailureOutput := failure |}] []] |}.

(** Four run objects: the three runs, and a second object that reports
    the same as the run that installed. Their junit reads as the run went,
    in whichever turn it is read. *)
Definition sampleRunAt (p : jobRunPtr) : JobRunInfo :=
  match p with
  | 1%nat => brokenRun
  | 2%nat => unreadableRun
  | _ => installedRun
  end.

Definition sampleJunits (i : nat) (p : jobRunPtr) : TestSuites + error :=
  match p with
  | 1%nat => inl (installSuites (Some {| Message := "bootstrap failed";
                                         Output := "" |}))
  | 2%nat => inr "junit not found"
  | _ => inl (installSuites None)
  end.

Definition installChecker (required : Z) : minimumRequiredPassesTestCaseChecker :=
  {| id := {| testSuites := ["cluster install"];
              testName := "install should succeed: overall" |};
     testNameSuffix := ""; requiredNumberOfPasses := required |}.

(** A string without the character [sep]. *)
Fixpoint lacks (sep : ascii) (s : string) : bool :=
  match s with
  | EmptyString => true
  | String c rest => negb (Ascii.eqb c sep) && lacks sep rest
  end.

(** A job name or GCS prefix that can be written in the flag's value:
    with no comma and no equals sign. *)
Definition plainField (s : string) : bool := lacks "," s && lacks "=" s.

(* ===================================================================== *)
(** * Suite Matcher: properties                                            *)
(* ===================================================================== *)

Lemma getTestStatus_unfold id n nt nf cases children :
  getTestStatus id (mkTestSuite n nt nf cases children) =
  match testSuites id with
  | [] => testSkipped
  | s0 :: tail =>
      if negb (s0 =? n)%string then testSkipped
      else match tail with
           | [] => scanTestCases (testName id) cases
           | n0 :: _ =>
               firstDecisive
                 (map (getTestStatus {| testSuites := tail; testName := testName id |})
                      (filter (fun c => (n0 =? Name c)%string) children))
           end
  end.
Proof.
  cbn [getTestStatus].
  destruct (testSuites id) as [|s0 tail]; [reflexivity|].
  destruct (negb (s0 =? n)%string); [reflexivity|].
  destruct tail as [|n0 tail']; [reflexivity|].
  cbn [testSuites].
  induction children as [|c cs IH]; [reflexivity|].
  cbn [filter map].
  destruct (n0 =? Name c)%string.
  - cbn [map firstDecisive].
    destruct (getTestStatus _ c); try reflexivity. exact IH.
  - exact IH.
Qed.

Lemma scanTestCases_find name cases :
  scanTestCases name cases =
  match find (fun tc => (tcName tc =? name)%string) cases with
  | Some tc => caseVerdict tc
  | None => testSkipped
  end.
Proof.
  induction cases as [|tc rest IH]; [reflexivity|].
  cbn [scanTestCases find].
  destruct (tcName tc =? name)%string; [reflexivity | exact IH].
Qed.

(** C1. The Suite Matcher: a tree whose name differs from the first path
    element is skipped; with a one-element path the first test case of
    exactly the leaf name decides (failed with failure information, passed
    without), and no such case is skipped; with a longer path the children
    named like the second element are searched in order with the path
    advanced by one, the first passed or failed result is returned, and
    skipped if there is none. The path install/network/dns-check gives
    failed, passed, and skipped on the three trees of the example. *)
Theorem getTestStatus_spec :
  (forall id ts p0 rest,
      testSuites id = p0 :: rest -> p0 <> Name ts ->
      getTestStatus id ts = testSkipped)
  /\ (forall id ts p0,
         testSuites id = [p0] -> p0 = Name ts ->
         getTestStatus id ts =
         match find (fun tc => (tcName tc =? testName id)%string) (TestCases ts) with
         | Some tc => caseVerdict tc
         | None => testSkipped
         end)
  /\ (forall id ts p0 p1 rest,
         testSuites id = p0 :: p1 :: rest -> p0 = Name ts ->
         getTestStatus id ts =
         firstDecisive
           (map (getTestStatus {| testSuites := p1 :: rest; testName := testName id |})
                (filter (fun c => (p1 =? Name c)%string) (Children ts))))
  /\ (forall a b c d out failure,
         getTestStatus
           {| testSuites := ["install"; "network"]; testName := "dns-check" |}
           (mkTestSuite "install" a b []
              [mkTestSuite "network" c d
                 [{| tcName := "dns-check"; SystemOut := out;
                     tcFailureOutput := Some failure |}] []])
         = testFailed)
  /\ (forall a b c d out,
         getTestStatus
           {| testSuites := ["install"; "network"]; testName := "dns-check" |}
           (mkTestSuite "install" a b []
              [mkTestSuite "network" c d
                 [{| tcName := "dns-check"; SystemOut := out;
                     tcFailureOutput := None |}] []])
         = testPassed)
  /\ (forall a b cases children,
         getTestStatus
           {| testSuites := ["install"; "network"]; testName := "dns-check" |}
           (mkTestSuite "other" a b cases children)
         = testSkipped).
Proof.
  split; [|split; [|split; [|split; [|split]]]].
  - intros id [n nt nf cases children] p0 rest Hpath Hne.
    rewrite getTestStatus_unfold, Hpath. cbn [Name] in Hne.
    apply String.eqb_neq in Hne. rewrite Hne. reflexivity.
  - intros id [n nt nf cases children] p0 Hpath Heq.
    rewrite getTestStatus_unfold, Hpath. cbn [Name TestCases] in *. subst p0.
    rewrite String.eqb_refl. cbn [negb]. apply scanTestCases_find.
  - intros id [n nt nf cases children] p0 p1 rest Hpath Heq.
    rewrite getTestStatus_unfold, Hpath. cbn [Name Children] in *. subst p0.
    rewrite String.eqb_refl. reflexivity.
  - intros. reflexivity.
  - intros. reflexivity.
  - intros. reflexivity.
Qed.

Lemma getTestStatus_spec_witness :
  getTestStatus {| testSuites := ["install"]; testName := "dns-check" |}
                (mkTestSuite "other" 0 0 [] []) = testSkipped
  /\ getTestStatus {| testSuites := ["network"]; testName := "dns-check" |}
                   (mkTestSuite "network" 0 0
                      [{| tcName := "dns-check"; SystemOut := "";
                          tcFailureOutput := None |}] []) = testPassed
  /\ getTestStatus {| testSuites := ["install"; "network"]; testName := "dns-check" |}
                   (mkTestSuite "install" 0 0 []
                      [mkTestSuite "storage" 0 0 [] [];
                       mkTestSuite "network" 0 0
                         [{| tcName := "dns-check"; SystemOut := "";
                             tcFailureOutput := Some {| Message := "timeout";
                                                        Output := "" |} |}] []])
     = testFailed.
Proof.
  destruct getTestStatus_spec as (Hname & Hleaf & Hdeep & _).
  split; [|split].
  - apply (Hname _ _ "install" []); [reflexivity | discriminate].
  - rewrite (Hleaf _ _ "network"); reflexivity.
  - rewrite (Hdeep _ _ "install" "network" []); reflexivity.
Defined.

(** C10. With an empty sequence of ancestor suite names the Suite Matcher
    answers skipped for every tree, before looking at any test case: a test
    addressed by an empty suite path is never found, even when a test case
    of exactly that name is in the tree. *)
Theorem getTestStatus_empty_path :
  (forall name ts,
      getTestStatus {| testSuites := []; testName := name |} ts = testSkipped)
  /\ (forall suite a b out failure,
         getTestStatus {| testSuites := []; testName := "dns-check" |}
                       (mkTestSuite suite a b
                          [{| tcName := "dns-check"; SystemOut := out;
                              tcFailureOutput := failure |}] [])
         = testSkipped).
Proof.
  split.
  - intros name [n nt nf cases children]. reflexivity.
  - intros. reflexivity.
Qed.

(* ===================================================================== *)
(** * Threshold Checker: the synthetic tree and its counts                 *)
(* ===================================================================== *)

Lemma wrap_uint64_small z : 0 <= z < 2 ^ 64 -> GoInt.wrap_uint64 z = z.
Proof. intros H. unfold GoInt.wrap_uint64. apply Z.mod_small. exact H. Qed.

Lemma wrap_int64_small z : - 2 ^ 63 <= z < 2 ^ 63 -> GoInt.wrap_int64 z = z.
Proof.
  intros H. unfold GoInt.wrap_int64.
  rewrite Z.mod_small by lia. lia.
Qed.

Section ChainPointers.

Lemma zeros_snoc names n : (zeros names ++ [O])%list = zeros (names ++ [n]).
Proof.
  unfold zeros. rewrite length_app. cbn [List.length].
  rewrite Nat.add_1_r. cbn [repeat].
  induction (List.length names) as [|k IH]; [reflexivity|].
  cbn [repeat app]. now rewrite IH.
Qed.

Lemma deref_chain names : forall top cases,
    exists n, deref (chain top names cases) (zeros names)
              = Some (mkTestSuite n 0 0 cases []).
Proof.
  induction names as [|m ms IH]; intros top cases.
  - exists top. reflexivity.
  - destruct (IH m cases) as [n Hn]. exists n. exact Hn.
Qed.

Lemma numChildrenAt_chain names top cases :
  numChildrenAt (chain top names cases) (zeros names) = O.
Proof.
  unfold numChildrenAt.
  destruct (deref_chain names top cases) as [n ->]. reflexivity.
Qed.

Lemma numTestCasesAt_chain names top cases :
  numTestCasesAt (chain top names cases) (zeros names) = List.length cases.
Proof.
  unfold numTestCasesAt.
  destruct (deref_chain names top cases) as [n ->]. reflexivity.
Qed.

Lemma storeAt_appendChild_chain names : forall top m,
    storeAt (zeros names) (appendChild (mkTestSuite m 0 0 [] []))
            (chain top names [])
    = chain top (names ++ [m]) [].
Proof.
  induction names as [|k ks IH]; intros top m.
  - reflexivity.
  - cbn. f_equal. f_equal. apply IH.
Qed.

Lemma storeAt_appendTestCase_chain names : forall top cases tc,
    storeAt (zeros names) (appendTestCase tc) (chain top names cases)
    = chain top names (cases ++ [tc]).
Proof.
  induction names as [|k ks IH]; intros top cases tc.
  - reflexivity.
  - cbn. f_equal. f_equal. apply IH.
Qed.

Lemma storeAt_updateTestCase_chain names : forall top cases i f,
    storeAt (zeros names) (updateTestCase i f) (chain top names cases)
    = chain top names (updateNth i f cases).
Proof.
  induction names as [|k ks IH]; intros top cases i f.
  - reflexivity.
  - cbn. f_equal. f_equal. apply IH.
Qed.

Lemma addToTestSuiteFromSuiteNames_chain names : forall top pre,
    addToTestSuiteFromSuiteNames (chain top pre []) (zeros pre) names
    = (chain top (pre ++ names) [], zeros (pre ++ names)).
Proof.
  induction names as [|m ms IH]; intros top pre.
  - cbn. now rewrite app_nil_r.
  - cbn [addToTestSuiteFromSuiteNames].
    rewrite numChildrenAt_chain, storeAt_appendChild_chain, (zeros_snoc pre m).
    rewrite IH, <- app_assoc. reflexivity.
Qed.

End ChainPointers.

Lemma synthesizedTestCase_chain names : forall top tc,
    synthesizedTestCase (chain top names [tc]) = Some tc.
Proof.
  induction names as [|m ms IH]; intros top tc; [reflexivity|].
  cbn. apply IH.
Qed.

Lemma totalCases_chain names : forall top cases,
    totalCases (chain top names cases) = lenZ cases.
Proof.
  induction names as [|m ms IH]; intros top cases; cbn.
  - lia.
  - rewrite IH. unfold lenZ. cbn. lia.
Qed.

Lemma lenZ_cons {A : Type} (x : A) (l : list A) : lenZ (x :: l) = 1 + lenZ l.
Proof. unfold lenZ. cbn [List.length]. lia. Qed.

Lemma lenZ_nonneg {A : Type} (l : list A) : 0 <= lenZ l.
Proof. unfold lenZ. lia. Qed.

Lemma failedCases_bounds cases : 0 <= failedCases cases <= lenZ cases.
Proof.
  unfold failedCases, lenZ. split; [lia|].
  apply Nat2Z.inj_le, filter_length_le.
Qed.

Lemma failedCases_cons tc cases :
  failedCases (tc :: cases)
  = (match tcFailureOutput tc with Some _ => 1 | None => 0 end) + failedCases cases.
Proof.
  unfold failedCases. cbn [filter].
  destruct (tcFailureOutput tc); [apply lenZ_cons | lia].
Qed.

Lemma countTestCases_exact cases : forall numTests numFailed,
    0 <= numFailed <= numTests ->
    numTests + lenZ cases < 2 ^ 64 ->
    countTestCases cases numTests numFailed
    = (numTests + lenZ cases, numFailed + failedCases cases).
Proof.
  induction cases as [|tc rest IH]; intros numTests numFailed Hle Hbound.
  - cbn. unfold lenZ, failedCases. cbn. f_equal; lia.
  - rewrite lenZ_cons in Hbound. pose proof (lenZ_nonneg rest) as Hrest.
    cbn [countTestCases]. rewrite failedCases_cons, lenZ_cons.
    rewrite (wrap_uint64_small (numTests + 1)) by lia.
    destruct (tcFailureOutput tc).
    + rewrite (wrap_uint64_small (numFailed + 1)) by lia.
      rewrite IH by lia. f_equal; lia.
    + rewrite IH by lia. f_equal; lia.
Qed.

Lemma sumZ_cons x l : sumZ (x :: l) = x + sumZ l.
Proof. reflexivity. Qed.

Lemma sumZ_nonneg l : Forall (fun x => 0 <= x) l -> 0 <= sumZ l.
Proof.
  induction 1 as [|x l Hx _ IH]; [cbn; lia|]. rewrite sumZ_cons. lia.
Qed.

Lemma fold_addChildCounts_exact children : forall numTests numFailed,
    0 <= numFailed <= numTests ->
    Forall (fun c => 0 <= NumFailed c <= NumTests c) children ->
    numTests + sumZ (map NumTests children) < 2 ^ 64 ->
    fold_left addChildCounts children (numTests, numFailed)
    = (numTests + sumZ (map NumTests children),
       numFailed + sumZ (map NumFailed children)).
Proof.
  induction children as [|c cs IH]; intros numTests numFailed Hle Hall Hbound.
  - cbn. f_equal; lia.
  - inversion Hall as [|? ? Hc Hcs]; subst.
    cbn [map] in *. rewrite !sumZ_cons in *.
    assert (0 <= sumZ (map NumTests cs)) as Hnn.
    { apply sumZ_nonneg, Forall_map. eapply Forall_impl; [|exact Hcs].
      cbn. intros; lia. }
    cbn [fold_left]. unfold addChildCounts at 2. cbn [fst snd].
    rewrite (wrap_uint64_small (numTests + NumTests c)) by lia.
    rewrite (wrap_uint64_small (numFailed + NumFailed c)) by lia.
    rewrite IH by (try assumption; lia). f_equal; lia.
Qed.

Lemma totalFailed_bounds s : 0 <= totalFailed s <= totalCases s.
Proof.
  induction s as [n nt nf cases children IH] using TestSuite_ind'.
  cbn [totalFailed totalCases].
  pose proof (failedCases_bounds cases) as Hc.
  enough (0 <= sumZ (map totalFailed children)
          <= sumZ (map totalCases children)) by lia.
  induction IH as [|c cs Hc' _ IHcs]; cbn [map]; rewrite ?sumZ_cons;
    [cbn; lia | lia].
Qed.

Lemma totalCases_nonneg s : 0 <= totalCases s.
Proof. pose proof (totalFailed_bounds s). lia. Qed.

(** Without overflow of the uint counters, [updateTestCountsInSuite] leaves
    in every node the number of test cases below it. *)
Lemma updateTestCountsInSuite_exact s :
  totalCases s < 2 ^ 64 ->
  NumTests (updateTestCountsInSuite s) = totalCases s
  /\ NumFailed (updateTestCountsInSuite s) = totalFailed s
  /\ Forall countsOk (allSuites (updateTestCountsInSuite s)).
Proof.
  induction s as [n nt nf cases children IH] using TestSuite_ind'.
  intros Hbound. cbn [totalCases] in Hbound.
  assert (Forall (fun c => 0 <= totalCases c) children) as Hnn.
  { apply Forall_forall. intros c _. apply totalCases_nonneg. }
  assert (Forall (fun c => totalCases c < 2 ^ 64) children) as Hsmall.
  { pose proof (lenZ_nonneg cases) as Hl. clear IH.
    induction children as [|c cs IHcs]; [constructor|].
    inversion Hnn as [|? ? Hc Hcs]; subst.
    cbn [map] in Hbound. rewrite sumZ_cons in Hbound.
    assert (0 <= sumZ (map totalCases cs)) by
        (apply sumZ_nonneg, Forall_map; exact Hcs).
    constructor; [lia | apply IHcs; [lia | exact Hcs]]. }
  assert (map NumTests (map updateTestCountsInSuite children)
          = map totalCases children) as HT.
  { rewrite map_map. apply map_ext_Forall.
    rewrite Forall_forall in *. intros c Hin. now apply IH; [|apply Hsmall]. }
  assert (map NumFailed (map updateTestCountsInSuite children)
          = map totalFailed children) as HF.
  { rewrite map_map. apply map_ext_Forall.
    rewrite Forall_forall in *. intros c Hin. now apply IH; [|apply Hsmall]. }
  assert (0 <= sumZ (map totalCases children)) as Hsum
    by (apply sumZ_nonneg, Forall_map; exact Hnn).
  pose proof (lenZ_nonneg cases) as Hlen.
  cbn [updateTestCountsInSuite].
  rewrite (countTestCases_exact cases 0 0); [| lia | lia].
  rewrite fold_addChildCounts_exact.
  - rewrite HT, HF. cbn [NumTests NumFailed fst snd totalCases totalFailed allSuites].
    split; [lia | split; [lia|]].
    constructor.
    + unfold countsOk. cbn [NumTests NumFailed TestCases Children].
      rewrite HT, HF. lia.
    + apply Forall_flat_map, Forall_map.
      rewrite Forall_forall in *. intros c Hin. now apply IH; [|apply Hsmall].
  - pose proof (failedCases_bounds cases). lia.
  - apply Forall_map. rewrite Forall_forall in *. intros c Hin.
    destruct (IH c Hin (Hsmall c Hin)) as (-> & -> & _).
    apply totalFailed_bounds.
  - rewrite HT. lia.
Qed.

Lemma scanSuites_verdict tid suites : forall successCount,
    scanSuites tid suites testSkipped successCount
    = (firstDecisive (map (getTestStatus tid) suites),
       if isPassed (firstDecisive (map (getTestStatus tid) suites))
       then GoInt.wrap_int64 (successCount + 1)
       else successCount).
Proof.
  induction suites as [|s rest IH]; intros successCount; [reflexivity|].
  cbn [scanSuites map firstDecisive].
  destruct (getTestStatus tid s); [apply IH | reflexivity | reflexivity].
Qed.

Lemma passedRuns_cons tid entry rest :
  passedRuns tid (entry :: rest)
  = (if isPassed (runVerdict tid (snd entry)) then 1 else 0) + passedRuns tid rest.
Proof.
  unfold passedRuns. cbn [filter].
  destruct (isPassed _); [apply lenZ_cons | lia].
Qed.

Lemma passedRuns_bounds tid runs : 0 <= passedRuns tid runs <= lenZ runs.
Proof.
  unfold passedRuns, lenZ. split; [lia|].
  apply Nat2Z.inj_le, filter_length_le.
Qed.

(** As long as the int counter cannot overflow, the outer loop counts the
    runs whose verdict is passed. *)
Lemma scanJobRuns_successCount r runs : forall details successCount,
    0 <= successCount ->
    successCount + lenZ runs < 2 ^ 63 ->
    snd (scanJobRuns r runs details successCount)
    = successCount + passedRuns (id r) runs.
Proof.
  induction runs as [|[jobRun suites] rest IH]; intros details successCount H0 Hb.
  - cbn. unfold passedRuns, lenZ. cbn. lia.
  - rewrite lenZ_cons in Hb. pose proof (lenZ_nonneg rest) as Hrest.
    cbn [scanJobRuns]. rewrite scanSuites_verdict, passedRuns_cons.
    cbn [snd]. fold (runVerdict (id r) suites).
    destruct (isPassed (runVerdict (id r) suites)).
    + rewrite wrap_int64_small by lia. rewrite IH by lia. lia.
    + rewrite IH by lia. lia.
Qed.

(** [CheckTestCase] in closed form: the chain of wrapping suites with the
    one synthesized test case at the bottom, counts updated. *)
Lemma CheckTestCase_chain sep marshal r runs :
  CheckTestCase sep marshal r runs =
  match marshal (withSummary (lenZ runs)
                   (fst (scanJobRuns r runs (initialDetails sep r) 0))) with
  | inr _ => None
  | inl detailsYaml =>
      Some (updateTestCountsInSuite
              (chain "minimum-required-passes-checker" (testSuites (id r))
                     [verdictCase r detailsYaml
                        (snd (scanJobRuns r runs (initialDetails sep r) 0))]))
  end.
Proof.
  unfold CheckTestCase.
  pose proof (addToTestSuiteFromSuiteNames_chain (testSuites (id r))
                "minimum-required-passes-checker" []) as Hadd.
  change (zeros []) with (@nil nat) in Hadd. cbn [chain app] in Hadd.
  rewrite Hadd.
  rewrite numTestCasesAt_chain, storeAt_appendTestCase_chain.
  cbn [List.length app].
  destruct (scanJobRuns r runs (initialDetails sep r) 0) as [details successCount].
  cbn [fst snd].
  destruct (marshal _) as [detailsYaml|err]; [|reflexivity].
  rewrite storeAt_updateTestCase_chain. cbn [updateNth].
  unfold verdictCase.
  destruct (successCount <? requiredNumberOfPasses r).
  - rewrite storeAt_updateTestCase_chain. reflexivity.
  - reflexivity.
Qed.

Lemma synthesizedTestCase_update s :
  synthesizedTestCase (updateTestCountsInSuite s) = synthesizedTestCase s.
Proof.
  induction s as [n nt nf cases children IH] using TestSuite_ind'.
  cbn [updateTestCountsInSuite synthesizedTestCase].
  destruct children as [|c cs]; [reflexivity|].
  cbn [map]. inversion IH; subst. assumption.
Qed.

Lemma allSuites_update_chain names : forall top cases,
    map Name (allSuites (updateTestCountsInSuite (chain top names cases)))
    = top :: names.
Proof.
  induction names as [|m ms IH]; intros top cases; [reflexivity|].
  cbn [chain updateTestCountsInSuite map allSuites flat_map Name].
  rewrite app_nil_r, IH. reflexivity.
Qed.

(** C2. The Threshold Checker takes, for each run, the first passed or
    failed verdict of the Suite Matcher over the run's top-level suites,
    counts in successCount the runs whose verdict is passed, and gives the
    synthesized test case a FailureOutput, with the message "required
    minimum successful count <minimum>, got <successCount>", exactly when
    successCount is below the required minimum. With minimum 3 and two
    passed runs the message is "required minimum successful count 3, got
    2". *)
Theorem CheckTestCase_threshold sep marshal r jobRunJunits detailsYaml :
  marshal (collectedDetails sep r jobRunJunits) = inl detailsYaml ->
  lenZ jobRunJunits < 2 ^ 63 ->
  exists top tc,
    CheckTestCase sep marshal r jobRunJunits = Some top
    /\ synthesizedTestCase top = Some tc
    /\ tcName tc = syntheticTestName r
    /\ (forall suites successCount,
           fst (scanSuites (id r) (Suites suites) testSkipped successCount)
           = runVerdict (id r) suites)
    /\ successCountOf sep r jobRunJunits = passedRuns (id r) jobRunJunits
    /\ (passedRuns (id r) jobRunJunits < requiredNumberOfPasses r ->
        tcFailureOutput tc
        = Some {| Message :=
                    "required minimum successful count "
                      ++ strconv.formatInt (requiredNumberOfPasses r)
                      ++ ", got "
                      ++ strconv.formatInt (passedRuns (id r) jobRunJunits);
                  Output := "" |})
    /\ (requiredNumberOfPasses r <= passedRuns (id r) jobRunJunits ->
        tcFailureOutput tc = None)
    /\ (requiredNumberOfPasses r = 3 -> passedRuns (id r) jobRunJunits = 2 ->
        option_map Message (tcFailureOutput tc)
        = Some "required minimum successful count 3, got 2")
    /\ (requiredNumberOfPasses r = 3 -> passedRuns (id r) jobRunJunits = 3 ->
        tcFailureOutput tc = None).
Proof.
  intros Hyaml Hlen.
  assert (successCountOf sep r jobRunJunits = passedRuns (id r) jobRunJunits)
    as Hcount.
  { unfold successCountOf. rewrite scanJobRuns_successCount; lia. }
  eexists. eexists.
  split.
  { rewrite CheckTestCase_chain. fold (collectedDetails sep r jobRunJunits).
    rewrite Hyaml. reflexivity. }
  split.
  { rewrite synthesizedTestCase_update. apply synthesizedTestCase_chain. }
  fold (successCountOf sep r jobRunJunits). rewrite Hcount.
  cbn [verdictCase tcName tcFailureOutput].
  split; [reflexivity|].
  split.
  { intros suites successCount. rewrite scanSuites_verdict. reflexivity. }
  split; [reflexivity|].
  split.
  { intros Hlt. apply Z.ltb_lt in Hlt. rewrite Hlt. reflexivity. }
  split.
  { intros Hge. apply Z.ltb_ge in Hge. rewrite Hge. reflexivity. }
  split.
  { intros -> ->. reflexivity. }
  { intros -> ->. reflexivity. }
Qed.

Lemma CheckTestCase_threshold_witness :
  exists top tc,
    CheckTestCase "|||" (fun d => inl (detSummary d))
      {| id := {| testSuites := ["install"]; testName := "dns-check" |};
         testNameSuffix := "aws"; requiredNumberOfPasses := 3 |}
      [({| GetJobName := "e2e-aws"; GetJobRunID := "101";
           GetHumanURL := "h1"; GetGCSArtifactURL := "g1" |},
        {| Suites := [mkTestSuite "install" 1 0
                        [{| tcName := "dns-check"; SystemOut := "";
                            tcFailureOutput := None |}] []] |});
       ({| GetJobName := "e2e-aws"; GetJobRunID := "102";
           GetHumanURL := "h2"; GetGCSArtifactURL := "g2" |},
        {| Suites := [mkTestSuite "other" 0 0 [] [];
                      mkTestSuite "install" 1 0
                        [{| tcName := "dns-check"; SystemOut := "";
                            tcFailureOutput := None |}] []] |});
       ({| GetJobName := "e2e-aws"; GetJobRunID := "103";
           GetHumanURL := "h3"; GetGCSArtifactURL := "g3" |},
        {| Suites := [mkTestSuite "install" 1 1
                        [{| tcName := "dns-check"; SystemOut := "";
                            tcFailureOutput := Some {| Message := "boom";
                                                       Output := "" |} |}] []] |})]
    = Some top
    /\ synthesizedTestCase top = Some tc
    /\ option_map Message (tcFailureOutput tc)
       = Some "required minimum successful count 3, got 2".
Proof.
  edestruct (CheckTestCase_threshold "|||" (fun d => inl (detSummary d)))
    as (top & tc & Hrun & Hcase & _ & _ & _ & _ & _ & Hmsg & _).
  - reflexivity.
  - shelve.
  - exists top, tc. split; [exact Hrun|]. split; [exact Hcase|].
    apply Hmsg; reflexivity.
  Unshelve. reflexivity.
Defined.

(** C9. In the suite tree that CheckTestCase returns, every suite node -
    the top suite and each wrapping suite of the identifier's suite-name
    chain - has a test count equal to the number of its own test cases
    plus the sum of its children's test counts, and a failed count equal
    to the number of its own test cases with failure output plus the sum
    of its children's failed counts. *)
Theorem CheckTestCase_counts sep marshal r jobRunJunits detailsYaml :
  marshal (collectedDetails sep r jobRunJunits) = inl detailsYaml ->
  exists top,
    CheckTestCase sep marshal r jobRunJunits = Some top
    /\ Forall countsOk (allSuites top)
    /\ map Name (allSuites top)
       = "minimum-required-passes-checker" :: testSuites (id r).
Proof.
  intros Hyaml. eexists. split.
  { rewrite CheckTestCase_chain. fold (collectedDetails sep r jobRunJunits).
    rewrite Hyaml. reflexivity. }
  split.
  - apply updateTestCountsInSuite_exact.
    rewrite totalCases_chain. unfold lenZ. cbn. lia.
  - apply allSuites_update_chain.
Qed.

Lemma CheckTestCase_counts_witness :
  exists top,
    CheckTestCase "|||" (fun d => inl (detSummary d))
      {| id := {| testSuites := ["cluster install"; "network"];
                  testName := "install should succeed: overall" |};
         testNameSuffix := ""; requiredNumberOfPasses := 1 |} []
    = Some top
    /\ Forall countsOk (allSuites top)
    /\ map Name (allSuites top)
       = ["minimum-required-passes-checker"; "cluster install"; "network"]
    /\ map NumTests (allSuites top) = [1; 1; 1]
    /\ map NumFailed (allSuites top) = [1; 1; 1].
Proof.
  edestruct (CheckTestCase_counts "|||" (fun d => inl (detSummary d)))
    as (top & Hrun & Hok & Hnames).
  - reflexivity.
  - exists top. split; [exact Hrun|]. split; [exact Hok|].
    split; [exact Hnames|].
    vm_compute in Hrun. injection Hrun as <-. split; reflexivity.
Defined.

(* ===================================================================== *)
(** * Job Run Locator: the retry bound                                     *)
(* ===================================================================== *)

(** What the loop does when the call fails with [err]. *)
Lemma retryLoop_fails FindRelatedJobs ctxDone ctxErr errorsInARow calls err :
  FindRelatedJobs calls = inr err ->
  retryLoop FindRelatedJobs ctxDone ctxErr errorsInARow calls
  = if errorsInARow >? 20 then (inr err, S calls)
    else if ctxDone calls then (inr ctxErr, S calls)
         else retryLoop FindRelatedJobs ctxDone ctxErr (errorsInARow + 1) (S calls).
Proof.
  intros Herr. rewrite retryLoop_equation_1.
  unfold retryLoop_unfold_clause_1. rewrite Herr. cbn.
  destruct (Z_gt_le_dec errorsInARow 20) as [Hgt|Hle]; cbn.
  - apply Z.gtb_gt in Hgt. rewrite Hgt. reflexivity.
  - assert ((errorsInARow >? 20) = false) as -> by lia.
    destruct (ctxDone calls); reflexivity.
Qed.

Lemma retryLoop_succeeds FindRelatedJobs ctxDone ctxErr errorsInARow calls jobRuns :
  FindRelatedJobs calls = inl jobRuns ->
  retryLoop FindRelatedJobs ctxDone ctxErr errorsInARow calls
  = (inl jobRuns, S calls).
Proof.
  intros Hok. rewrite retryLoop_equation_1.
  unfold retryLoop_unfold_clause_1. rewrite Hok. reflexivity.
Qed.

(** C3 (as the code behaves). With a locator that fails on every call and
    no cancellation, the loop makes twenty-two calls and returns the error
    of the twenty-second: after the twenty-first failure [errorsInARow] is
    still 20 when it is compared. A locator that fails four times and then
    succeeds returns its runs after the fifth call. *)
Theorem findJobRunsWithRetry_attempts :
  (forall (errs : nat -> error) ctxErr,
      findJobRunsWithRetry (fun k => inr (errs k)) (fun _ => false) ctxErr
      = (inr (errs 21%nat), 22%nat))
  /\ (forall (errs : nat -> error) jobRuns later ctxErr,
         findJobRunsWithRetry
           (fun k => if (k <? 4)%nat then inr (errs k)
                     else if (k =? 4)%nat then inl jobRuns else later k)
           (fun _ => false) ctxErr
         = (inl jobRuns, 5%nat)).
Proof.
  split; intros; unfold findJobRunsWithRetry.
  - do 22 (erewrite retryLoop_fails by reflexivity; cbn).
    reflexivity.
  - do 4 (erewrite retryLoop_fails by reflexivity; cbn).
    erewrite retryLoop_succeeds by reflexivity. reflexivity.
Qed.

(* ===================================================================== *)
(** * Fan-out Collector: partial failure                                   *)
(* ===================================================================== *)

Lemma drain_concat ch : drain ch = List.concat ch.
Proof.
  unfold drain.
  enough (forall acc, fold_left (fun a b : list JobRunInfo => (a ++ b)%list) ch acc
                      = (acc ++ List.concat ch)%list) as H by apply (H []).
  induction ch as [|x xs IH]; intros acc; cbn.
  - now rewrite app_nil_r.
  - rewrite IH. now rewrite app_assoc.
Qed.

Lemma sent_in_job_order results : forall pre,
    flat_map (sent (pre ++ results)) (seq (List.length pre) (List.length results))
    = flat_map (fun res => match res with
                           | inl jobRuns => [jobRuns]
                           | inr _ => []
                           end) results.
Proof.
  induction results as [|res rest IH]; intros pre; [reflexivity|].
  cbn [List.length seq flat_map].
  f_equal.
  - unfold sent. rewrite nth_error_app2 by lia. rewrite Nat.sub_diag.
    cbn. destruct res; reflexivity.
  - specialize (IH (pre ++ [res])%list).
    rewrite <- app_assoc, length_app in IH. cbn in IH.
    rewrite Nat.add_1_r in IH. exact IH.
Qed.

Lemma concat_successes results :
  List.concat (flat_map (fun res : list JobRunInfo + error =>
                      match res with
                      | inl jobRuns => [jobRuns]
                      | inr _ => []
                      end) results)
  = successfulRuns results.
Proof.
  unfold successfulRuns.
  induction results as [|[jobRuns|err] rest IH]; cbn; [reflexivity| |exact IH].
  now rewrite IH.
Qed.

Lemma Permutation_concat {A : Type} (l l' : list (list A)) :
  Permutation l l' -> Permutation (List.concat l) (List.concat l').
Proof.
  induction 1 as [|x l l' _ IH|x y l|l l' l'' _ IH1 _ IH2]; cbn.
  - constructor.
  - now apply Permutation_app_head.
  - rewrite !app_assoc. apply Permutation_app_tail, Permutation_app_comm.
  - now transitivity (List.concat l').
Qed.

Lemma in_successfulRuns results run :
  In run (successfulRuns results)
  <-> exists i jobRuns, nth_error results i = Some (inl jobRuns) /\ In run jobRuns.
Proof.
  unfold successfulRuns. rewrite in_flat_map. split.
  - intros (res & Hin & Hrun). destruct res as [jobRuns|err]; [|contradiction].
    apply In_nth_error in Hin. destruct Hin as [i Hi]. now exists i, jobRuns.
  - intros (i & jobRuns & Hi & Hrun). exists (inl jobRuns).
    split; [eapply nth_error_In; exact Hi | exact Hrun].
Qed.

Section CollectorFacts.

Variable Locator : Type.
Variable newRC : string -> string -> Locator.
Variable newPR : string -> string -> string -> Locator.
Variable find : Locator -> nat -> list JobRunInfo + error.
Variable sleeps : nat -> nat -> bool.
Variable ctxErr : error.

(** When no task panics, there is one result per job, and it is what
    [findJobRunsWithRetry] returns for the job's locator. *)
Lemma launch_results o jobs : forall i results,
    launch Locator newRC newPR find sleeps ctxErr o i jobs = Returns results ->
    List.length results = List.length jobs
    /\ forall k job,
        nth_error jobs k = Some job ->
        exists l,
          locatorFor Locator newRC newPR o (i + k) job = Returns (Some l)
          /\ nth_error results k
             = Some (fst (findJobRunsWithRetry (find l) (sleeps (i + k)) ctxErr)).
Proof.
  induction jobs as [|job rest IH]; intros i results Hlaunch.
  - cbn in Hlaunch. injection Hlaunch as <-. split; [reflexivity|].
    intros [|k] job' Hk; discriminate.
  - cbn [launch] in Hlaunch.
    destruct (locatorFor _ _ _ o i job) as [l|why] eqn:Hloc; [|discriminate].
    destruct (task _ _ _ _ i l) as [res|why] eqn:Htask; [|discriminate].
    destruct (launch _ _ _ _ _ _ o (S i) rest) as [more|why] eqn:Hrest;
      [|discriminate].
    injection Hlaunch as <-.
    destruct (IH _ _ Hrest) as [Hlen Hnth].
    split; [cbn; now rewrite Hlen|].
    intros [|k] job' Hk.
    + cbn in Hk. injection Hk as <-. rewrite Nat.add_0_r.
      unfold task in Htask. destruct l as [l|]; [|discriminate].
      injection Htask as <-. exists l. split; [exact Hloc | reflexivity].
    + cbn in Hk. destruct (Hnth k job' Hk) as (l' & Hl' & Hres).
      exists l'. rewrite Nat.add_succ_r. split; [exact Hl' | exact Hres].
Qed.

End CollectorFacts.

(** C4. For every list of candidate jobs that the job getter returns (each
    job getting a locator, so that no task panics), and every order in
    which the per-job tasks reach their send, the Collector returns, when
    the context is not cancelled at the check after the join,
    a nil error and the runs of exactly the tasks whose locator call
    succeeded (each task's runs kept together, tasks in arrival order); a
    task that ends with an error contributes nothing and its error does not
    appear. When the context is cancelled at that check the Collector
    returns the context's error. With three jobs of which the second fails,
    the result holds the runs of the first and the third, and no error. *)
Theorem GetRelatedJobRuns_partial_failure
        (Locator : Type) (newRC : string -> string -> Locator)
        (newPR : string -> string -> string -> Locator)
        (find : Locator -> nat -> list JobRunInfo + error)
        (sleeps : nat -> nat -> bool) (ctxErr : error)
        (o : JobRunTestCaseAnalyzerOptions) (jobs : list JobRow)
        (results : list (list JobRunInfo + error)) (schedule : list nat) :
  jobGetter_GetJobs o = inl jobs ->
  launch Locator newRC newPR find sleeps ctxErr o 0 jobs = Returns results ->
  Permutation schedule (seq 0 (List.length jobs)) ->
  exists jobRuns,
    GetRelatedJobRuns Locator newRC newPR find sleeps ctxErr o schedule false
    = Returns (jobRuns, None)
    /\ jobRuns = List.concat (flat_map (sent results) schedule)
    /\ Permutation jobRuns (successfulRuns results)
    /\ (forall run,
           In run jobRuns
           <-> exists i runsOfJob,
               nth_error results i = Some (inl runsOfJob) /\ In run runsOfJob)
    /\ (forall i job,
           nth_error jobs i = Some job ->
           exists l,
             locatorFor Locator newRC newPR o i job = Returns (Some l)
             /\ nth_error results i
                = Some (fst (findJobRunsWithRetry (find l) (sleeps i) ctxErr)))
    /\ GetRelatedJobRuns Locator newRC newPR find sleeps ctxErr o schedule true
       = Returns ([], Some ctxErr)
    /\ (forall runsA errB runsC,
           results = [inl runsA; inr errB; inl runsC] ->
           Permutation jobRuns (runsA ++ runsC)).
Proof.
  intros Hjobs Hlaunch Hsched.
  destruct (launch_results _ _ _ _ _ _ _ _ _ _ Hlaunch) as [Hlen Hnth].
  assert (Permutation (List.concat (flat_map (sent results) schedule))
                      (successfulRuns results)) as Hperm.
  { rewrite <- concat_successes, <- (sent_in_job_order results []).
    apply Permutation_concat, Permutation_flat_map.
    cbn [List.length app]. rewrite Hlen. exact Hsched. }
  exists (List.concat (flat_map (sent results) schedule)).
  unfold GetRelatedJobRuns. rewrite Hjobs, Hlaunch.
  fold (resultCh results schedule). rewrite drain_concat. unfold resultCh.
  split; [reflexivity|]. split; [reflexivity|]. split; [exact Hperm|].
  split.
  { intros run. rewrite <- in_successfulRuns.
    split; intros Hin.
    - eapply Permutation_in; [exact Hperm | exact Hin].
    - eapply Permutation_in; [apply Permutation_sym; exact Hperm | exact Hin]. }
  split; [exact Hnth|]. split; [reflexivity|].
  intros runsA errB runsC ->. cbn in Hperm. rewrite app_nil_r in Hperm.
  exact Hperm.
Qed.

Lemma GetRelatedJobRuns_partial_failure_witness :
  let run (job n : string) :=
    {| GetJobName := job; GetJobRunID := n; GetHumanURL := ""; GetGCSArtifactURL := "" |} in
  exists jobRuns,
    GetRelatedJobRuns string (fun job tag => job) (fun job inv pre => job)
      (fun job k => if (job =? "B")%string then inr "listing failed"
                    else inl [run job "1"; run job "2"])
      (fun _ _ => false) "context deadline exceeded"
      {| payloadTag := "4.9.0-nightly"; payloadInvocationID := "";
         jobGCSPrefixes := None;
         jobGetter_GetJobs :=
           inl [{| JobName := "A"; Platform := "aws"; Network := "sdn" |};
                {| JobName := "B"; Platform := "aws"; Network := "sdn" |};
                {| JobName := "C"; Platform := "aws"; Network := "sdn" |}] |}
      [2; 0; 1]%nat false
    = Returns (jobRuns, None)
    /\ jobRuns = [run "C" "1"; run "C" "2"; run "A" "1"; run "A" "2"].
Proof.
  intros run.
  destruct (GetRelatedJobRuns_partial_failure
              string (fun job tag => job) (fun job inv pre => job)
              (fun job k => if (job =? "B")%string then inr "listing failed"
                            else inl [run job "1"; run job "2"])
              (fun _ _ => false) "context deadline exceeded"
              {| payloadTag := "4.9.0-nightly"; payloadInvocationID := "";
                 jobGCSPrefixes := None;
                 jobGetter_GetJobs :=
                   inl [{| JobName := "A"; Platform := "aws"; Network := "sdn" |};
                        {| JobName := "B"; Platform := "aws"; Network := "sdn" |};
                        {| JobName := "C"; Platform := "aws"; Network := "sdn" |}] |}
              [{| JobName := "A"; Platform := "aws"; Network := "sdn" |};
               {| JobName := "B"; Platform := "aws"; Network := "sdn" |};
               {| JobName := "C"; Platform := "aws"; Network := "sdn" |}]
              [inl [run "A" "1"; run "A" "2"]; inr "listing failed";
               inl [run "C" "1"; run "C" "2"]]
              [2; 0; 1]%nat)
    as (jobRuns & Hret & Hruns & _).
  - reflexivity.
  - vm_compute. reflexivity.
  - apply perm_trans with [0; 2; 1]%nat; [apply perm_swap|].
    apply perm_skip, perm_swap.
  - exists jobRuns. split; [exact Hret|]. rewrite Hruns. reflexivity.
Defined.

(* ===================================================================== *)
(** * NextJobRunID                                                         *)
(* ===================================================================== *)

Lemma is_digit_val c : strconv.is_digit c = true -> 0 <= strconv.digit_val c <= 9.
Proof.
  unfold strconv.is_digit, strconv.digit_val. intros H.
  apply andb_prop in H. destruct H as [H1 H2].
  apply Z.leb_le in H1, H2. lia.
Qed.

Lemma digit_char_cases d :
  0 <= d <= 9 ->
  strconv.is_digit (strconv.digit_char d) = true
  /\ strconv.digit_val (strconv.digit_char d) = d
  /\ (1 <= d -> strconv.digit_char d <> "0"%char).
Proof.
  intros H.
  assert (d = 0 \/ d = 1 \/ d = 2 \/ d = 3 \/ d = 4 \/ d = 5 \/ d = 6 \/ d = 7
          \/ d = 8 \/ d = 9) as Hd by lia.
  repeat (destruct Hd as [-> | Hd]); try subst d;
    (split; [reflexivity | split; [reflexivity | intros ?; try lia; discriminate]]).
Qed.

Lemma decimalValue_affine s : forall n,
    strconv.decimalValue s n
    = n * 10 ^ Z.of_nat (String.length s) + strconv.decimalValue s 0.
Proof.
  induction s as [|c rest IH]; intros n.
  - cbn. lia.
  - cbn [strconv.decimalValue String.length].
    rewrite IH, (IH (0 * 10 + strconv.digit_val c)).
    rewrite Nat2Z.inj_succ, Z.pow_succ_r by lia. lia.
Qed.

Lemma decimalValue_ge s : forall n,
    strconv.allDigits s = true -> 0 <= n -> n <= strconv.decimalValue s n.
Proof.
  induction s as [|c rest IH]; intros n Hd Hn; [cbn; lia|].
  cbn in Hd. apply andb_prop in Hd. destruct Hd as [Hc Hrest].
  apply is_digit_val in Hc. cbn [strconv.decimalValue].
  specialize (IH (n * 10 + strconv.digit_val c) Hrest). lia.
Qed.

(** On digits that stay within uint64 the scan of [ParseUint] computes the
    decimal value. *)
Lemma parseUintLoop_digits s : forall n,
    strconv.allDigits s = true -> 0 <= n ->
    strconv.decimalValue s n < 2 ^ 64 ->
    strconv.parseUintLoop s n = inl (strconv.decimalValue s n).
Proof.
  induction s as [|c rest IH]; intros n Hd Hn Hb; [reflexivity|].
  cbn in Hd. apply andb_prop in Hd. destruct Hd as [Hc Hrest].
  pose proof (is_digit_val c Hc) as Hv.
  cbn [strconv.parseUintLoop strconv.decimalValue] in *.
  rewrite Hc. cbn [negb].
  pose proof (decimalValue_ge rest (n * 10 + strconv.digit_val c) Hrest) as Hge.
  change ((2 ^ 64 - 1) / 10 + 1) with 1844674407370955162.
  change (2 ^ 64 - 1) with 18446744073709551615.
  change (2 ^ 64) with 18446744073709551616 in Hb.
  destruct (n >=? 1844674407370955162) eqn:Hcut; [lia|].
  destruct (n * 10 + strconv.digit_val c >? 18446744073709551615) eqn:Hmax; [lia|].
  apply IH; [exact Hrest | lia | exact Hb].
Qed.

(** A string with a non-digit is refused by the scan, with one error or
    the other. *)
Lemma parseUintLoop_nondigit s : forall n,
    strconv.allDigits s = false ->
    exists e, strconv.parseUintLoop s n = inr e.
Proof.
  induction s as [|c rest IH]; intros n Hd; [discriminate|].
  cbn in Hd. cbn [strconv.parseUintLoop].
  destruct (strconv.is_digit c); cbn [negb]; [|now eexists].
  destruct (n >=? _); [now eexists|].
  destruct (_ >? _); [now eexists|].
  apply IH. exact Hd.
Qed.

Lemma first_digit_no_sign c :
  strconv.is_digit c = true -> Ascii.eqb c "+" = false /\ Ascii.eqb c "-" = false.
Proof.
  intros H. split; apply Ascii.eqb_neq; intros ->; discriminate.
Qed.

Lemma parseUintLoop_overflow s : forall n,
    strconv.allDigits s = true -> 0 <= n < 2 ^ 64 ->
    2 ^ 64 <= strconv.decimalValue s n ->
    strconv.parseUintLoop s n = inr strconv.ErrRange.
Proof.
  induction s as [|c rest IH]; intros n Hd Hn Hbig; [cbn in Hbig; lia|].
  cbn in Hd. apply andb_prop in Hd. destruct Hd as [Hc Hrest].
  pose proof (is_digit_val c Hc) as Hv.
  cbn [strconv.parseUintLoop strconv.decimalValue] in *.
  rewrite Hc. cbn [negb].
  change ((2 ^ 64 - 1) / 10 + 1) with 1844674407370955162.
  change (2 ^ 64 - 1) with 18446744073709551615.
  change (2 ^ 64) with 18446744073709551616 in *.
  destruct (n >=? 1844674407370955162) eqn:Hcut; [reflexivity|].
  destruct (n * 10 + strconv.digit_val c >? 18446744073709551615) eqn:Hmax;
    [reflexivity|].
  apply IH; [exact Hrest | lia | exact Hbig].
Qed.

(** [ParseInt] on a non-empty digit string: the value when it fits int64,
    a range error otherwise. *)
Lemma ParseInt_digits s :
  s <> "" -> strconv.allDigits s = true ->
  strconv.ParseInt s
  = if strconv.decimalValue s 0 <? 2 ^ 63 then inl (strconv.decimalValue s 0)
    else inr strconv.ErrRange.
Proof.
  intros Hne Hd. destruct s as [|c rest]; [contradiction|].
  pose proof Hd as Hd'. cbn in Hd'. apply andb_prop in Hd'. destruct Hd' as [Hc _].
  destruct (first_digit_no_sign c Hc) as [Hplus Hminus].
  unfold strconv.ParseInt. rewrite Hplus, Hminus.
  unfold strconv.ParseUint.
  set (v := strconv.decimalValue (String c rest) 0).
  change (2 ^ 63) with 9223372036854775808.
  destruct (Z_lt_ge_dec v 18446744073709551616) as [Hlt|Hge].
  - rewrite parseUintLoop_digits; [|exact Hd|lia|exact Hlt].
    fold v. cbn [negb andb].
    destruct (v <? 9223372036854775808) eqn:Hsmall.
    + assert ((v >=? 9223372036854775808) = false) as -> by lia. reflexivity.
    + assert ((v >=? 9223372036854775808) = true) as -> by lia. reflexivity.
  - rewrite parseUintLoop_overflow;
      [|exact Hd|change (2 ^ 64) with 18446744073709551616; lia
       |change (2 ^ 64) with 18446744073709551616; fold v; lia].
    assert ((v <? 9223372036854775808) = false) as -> by lia. reflexivity.
Qed.

Lemma ParseInt_nonnumeric s :
  s <> "" -> strconv.numericSyntax s = false ->
  exists e, strconv.ParseInt s = inr e.
Proof.
  intros Hne Hsyn. destruct s as [|c rest]; [contradiction|].
  unfold strconv.numericSyntax in Hsyn. unfold strconv.ParseInt.
  assert (forall body, (body = EmptyString \/ strconv.allDigits body = false) ->
                       exists e, strconv.ParseUint body = inr e) as Hbody.
  { intros body [-> | Hnd]; [now eexists|].
    destruct body as [|b bs]; [discriminate|].
    apply (parseUintLoop_nondigit (String b bs) 0 Hnd). }
  destruct (Ascii.eqb c "+") eqn:Hplus; [|destruct (Ascii.eqb c "-") eqn:Hminus];
    cbn [orb] in Hsyn.
  - destruct (Hbody rest) as [e ->].
    { destruct rest; [now left | now right]. }
    destruct e; now eexists.
  - destruct (Hbody rest) as [e ->].
    { destruct rest; [now left | now right]. }
    destruct e; now eexists.
  - destruct (Hbody (String c rest)) as [e ->]; [now right|].
    destruct e; now eexists.
Qed.

(** Formatting: the digits printed for [u] read back as [u]. *)
Lemma formatDigits_value fuel : forall u acc,
    0 <= u < 10 ^ Z.of_nat fuel ->
    strconv.decimalValue (strconv.formatDigits fuel u acc) 0
    = u * 10 ^ Z.of_nat (String.length acc) + strconv.decimalValue acc 0.
Proof.
  induction fuel as [|fuel IH]; intros u acc Hu.
  - cbn in Hu. assert (u = 0) as -> by lia. cbn. lia.
  - rewrite Nat2Z.inj_succ, Z.pow_succ_r in Hu by lia.
    cbn [strconv.formatDigits].
    assert (0 <= u mod 10 <= 9) as Hm by (pose proof (Z.mod_pos_bound u 10); lia).
    destruct (digit_char_cases (u mod 10) Hm) as (_ & Hval & _).
    destruct (u <? 10) eqn:Hsmall.
    + cbn [strconv.decimalValue]. rewrite Hval.
      rewrite Z.mod_small by lia. rewrite decimalValue_affine. lia.
    + rewrite IH.
      2:{ split; [apply Z.div_pos; lia | apply Z.div_lt_upper_bound; lia]. }
      cbn [strconv.decimalValue String.length]. rewrite Hval.
      rewrite (decimalValue_affine acc (0 * 10 + u mod 10)).
      rewrite Nat2Z.inj_succ, Z.pow_succ_r by lia.
      pose proof (Z.div_mod u 10 ltac:(lia)) as Hdm. nia.
Qed.

Lemma formatDigits_allDigits fuel : forall u acc,
    0 <= u -> strconv.allDigits acc = true ->
    strconv.allDigits (strconv.formatDigits fuel u acc) = true.
Proof.
  induction fuel as [|fuel IH]; intros u acc Hu Hacc; [exact Hacc|].
  cbn [strconv.formatDigits].
  assert (0 <= u mod 10 <= 9) as Hm by (pose proof (Z.mod_pos_bound u 10); lia).
  destruct (digit_char_cases (u mod 10) Hm) as (Hdig & _ & _).
  assert (strconv.allDigits (String (strconv.digit_char (u mod 10)) acc) = true)
    as Hacc' by (cbn; now rewrite Hdig, Hacc).
  destruct (u <? 10); [exact Hacc'|].
  apply IH; [apply Z.div_pos; lia | exact Hacc'].
Qed.

Lemma formatDigits_first fuel : forall u acc,
    1 <= u < 10 ^ Z.of_nat fuel ->
    exists c rest, strconv.formatDigits fuel u acc = String c rest
                   /\ c <> "0"%char.
Proof.
  induction fuel as [|fuel IH]; intros u acc Hu.
  - cbn in Hu. lia.
  - rewrite Nat2Z.inj_succ, Z.pow_succ_r in Hu by lia.
    cbn [strconv.formatDigits].
    destruct (u <? 10) eqn:Hsmall.
    + assert (0 <= u mod 10 <= 9) as Hm by (pose proof (Z.mod_pos_bound u 10); lia).
      destruct (digit_char_cases (u mod 10) Hm) as (_ & _ & Hnz).
      eexists. eexists. split; [reflexivity|].
      apply Hnz. rewrite Z.mod_small by lia. lia.
    + apply IH. split.
      * apply Z.div_le_lower_bound; lia.
      * apply Z.div_lt_upper_bound; lia.
Qed.

(** On a non-empty digit string whose successor fits int64, the next id
    is the decimal rendering of the value plus one. *)
Lemma NextJobRunID_digits s :
  s <> "" -> strconv.allDigits s = true ->
  strconv.decimalValue s 0 + 1 < 2 ^ 63 ->
  exists r,
    NextJobRunID s = Returns r
    /\ r = strconv.formatInt (strconv.decimalValue s 0 + 1)
    /\ strconv.allDigits r = true
    /\ strconv.decimalValue r 0 = strconv.decimalValue s 0 + 1
    /\ strconv.noLeadingZero r = true
    /\ exists c rest, r = String c rest /\ c <> "0"%char.
Proof.
  intros Hne Hd Hfit.
  pose proof (decimalValue_ge s 0 Hd ltac:(lia)) as Hpos.
  set (v := strconv.decimalValue s 0) in *.
  exists (strconv.formatInt (v + 1)).
  assert (strconv.formatInt (v + 1) = strconv.formatUint (v + 1)) as Hfmt.
  { unfold strconv.formatInt. assert ((v + 1 <? 0) = false) as -> by lia.
    reflexivity. }
  assert (v + 1 < 10 ^ Z.of_nat 20) as Hfuel.
  { change (10 ^ Z.of_nat 20) with 100000000000000000000.
    change (2 ^ 63) with 9223372036854775808 in Hfit. lia. }
  split.
  { unfold NextJobRunID. destruct s as [|c rest]; [contradiction|].
    cbn [String.length Nat.eqb]. rewrite ParseInt_digits by assumption.
    fold v. assert ((v <? 2 ^ 63) = true) as -> by lia.
    rewrite wrap_int64_small by lia. reflexivity. }
  split; [reflexivity|]. rewrite Hfmt. unfold strconv.formatUint.
  split; [apply formatDigits_allDigits; [lia | reflexivity]|].
  split.
  { rewrite formatDigits_value by lia. cbn. lia. }
  destruct (formatDigits_first 20 (v + 1) "" ltac:(lia)) as (c & rest & -> & Hc).
  split.
  - cbn. destruct rest; [reflexivity|].
    apply Ascii.eqb_neq in Hc. now rewrite Hc.
  - now exists c, rest.
Qed.

(** C5 (amended). For every non-empty string of decimal digits whose value
    plus one fits int64, NextJobRunID returns the decimal rendering,
    without leading zeros, of that value plus one; NextJobRunID of the
    empty string is "0"; an identifier that is not numeric, or a digit
    string whose value does not fit int64, makes the call panic instead of
    returning. *)
Theorem NextJobRunID_increment :
  (forall s,
      s <> "" -> strconv.allDigits s = true ->
      strconv.decimalValue s 0 + 1 < 2 ^ 63 ->
      exists r,
        NextJobRunID s = Returns r
        /\ r = strconv.formatInt (strconv.decimalValue s 0 + 1)
        /\ strconv.allDigits r = true
        /\ strconv.decimalValue r 0 = strconv.decimalValue s 0 + 1
        /\ strconv.noLeadingZero r = true)
  /\ NextJobRunID "" = Returns "0"
  /\ (forall s,
         s <> "" -> strconv.numericSyntax s = false ->
         exists why, NextJobRunID s = Panics why)
  /\ (forall s,
         s <> "" -> strconv.allDigits s = true ->
         2 ^ 63 <= strconv.decimalValue s 0 ->
         exists why, NextJobRunID s = Panics why).
Proof.
  split; [|split; [reflexivity|split]].
  - intros s Hne Hd Hfit.
    destruct (NextJobRunID_digits s Hne Hd Hfit) as (r & H1 & H2 & H3 & H4 & H5 & _).
    now exists r.
  - intros s Hne Hsyn. unfold NextJobRunID.
    destruct s as [|c rest]; [contradiction|]. cbn [String.length Nat.eqb].
    destruct (ParseInt_nonnumeric (String c rest) Hne Hsyn) as [e ->].
    destruct e; now eexists.
  - intros s Hne Hd Hbig. unfold NextJobRunID.
    destruct s as [|c rest]; [contradiction|]. cbn [String.length Nat.eqb].
    rewrite ParseInt_digits by assumption.
    assert ((strconv.decimalValue (String c rest) 0 <? 2 ^ 63) = false) as -> by lia.
    now eexists.
Qed.

Lemma NextJobRunID_increment_witness :
  NextJobRunID "1475614363518767104" = Returns "1475614363518767105"
  /\ (exists why, NextJobRunID "latest" = Panics why)
  /\ (exists why, NextJobRunID "9223372036854775808" = Panics why).
Proof.
  destruct NextJobRunID_increment as (Hinc & _ & Hsyn & Hrange).
  split; [|split].
  - destruct (Hinc "1475614363518767104") as (r & -> & -> & _);
      [discriminate | reflexivity | reflexivity | reflexivity].
  - apply Hsyn; [discriminate | reflexivity].
  - apply Hrange; [discriminate | reflexivity | discriminate].
Defined.

(** The claim as first stated, for every non-empty digit string, fails at
    the largest int64: the increment wraps and a negative number is
    printed. *)
Lemma NextJobRunID_int64_limit :
  ~ (forall s,
        s <> "" -> strconv.allDigits s = true ->
        exists r,
          NextJobRunID s = Returns r
          /\ strconv.allDigits r = true
          /\ strconv.decimalValue r 0 = strconv.decimalValue s 0 + 1
          /\ strconv.noLeadingZero r = true).
Proof.
  intros Hclaim.
  destruct (Hclaim "9223372036854775807") as (r & Hr & Hd & _);
    [discriminate | reflexivity |].
  vm_compute in Hr. injection Hr as <-. discriminate Hd.
Qed.

(* ===================================================================== *)
(** * Run Resolver: not found versus hard failure                          *)
(* ===================================================================== *)

Lemma HasSuffix_nonempty name suffix :
  suffix <> "" -> strings.HasSuffix name suffix = true -> String.length name <> O.
Proof.
  intros Hs H. unfold strings.HasSuffix in H.
  apply andb_prop in H. destruct H as [Hlen _]. apply Nat.leb_le in Hlen.
  destruct suffix; [contradiction|]. cbn in Hlen. lia.
Qed.

(** Without a prowjob.json among the objects, the job run stays nil or
    stays without a prowjob path. *)
Lemma classifyObjects_no_prowjob root jobName objs : forall jobRun,
    Forall (fun o => isProwJob o = false) objs ->
    match jobRun with
    | None => True
    | Some jr => GetGCSProwJobPath jr = ""
    end ->
    match classifyObjects root jobName objs jobRun with
    | None => True
    | Some jr => GetGCSProwJobPath jr = ""
    end.
Proof.
  induction objs as [|attrs rest IH]; intros jobRun Hall Hjr; [exact Hjr|].
  inversion Hall as [|? ? Hhead Htail]; subst.
  cbn [classifyObjects]. unfold isProwJob in Hhead. rewrite Hhead.
  destruct (_ && _); [|now apply IH].
  destruct (_ <? _)%nat; [now apply IH|].
  apply IH; [exact Htail|].
  destruct jobRun as [jr|]; [exact Hjr | reflexivity].
Qed.

(** Once the prowjob path is set it stays set. *)
Lemma classifyObjects_keeps_prowjob root jobName objs : forall jr,
    String.length (GetGCSProwJobPath jr) <> O ->
    exists jr', classifyObjects root jobName objs (Some jr) = Some jr'
                /\ String.length (GetGCSProwJobPath jr') <> O.
Proof.
  induction objs as [|attrs rest IH]; intros jr Hjr; [now exists jr|].
  cbn [classifyObjects].
  destruct (strings.HasSuffix _ "prowjob.json") eqn:Hprow.
  - apply IH. cbn. eapply HasSuffix_nonempty; [|exact Hprow]. discriminate.
  - destruct (_ && _); [|now apply IH].
    destruct (_ <? _)%nat; [now apply IH|].
    apply IH. exact Hjr.
Qed.

Lemma classifyObjects_prowjob root jobName objs : forall jobRun,
    Exists (fun o => isProwJob o = true) objs ->
    exists jr, classifyObjects root jobName objs jobRun = Some jr
               /\ String.length (GetGCSProwJobPath jr) <> O.
Proof.
  induction objs as [|attrs rest IH]; intros jobRun Hex;
    [inversion Hex|].
  cbn [classifyObjects].
  destruct (strings.HasSuffix _ "prowjob.json") eqn:Hprow.
  - apply classifyObjects_keeps_prowjob. cbn.
    eapply HasSuffix_nonempty; [|exact Hprow]. discriminate.
  - inversion Hex as [? ? Hhead|? ? Htail]; subst.
    + unfold isProwJob in Hhead. congruence.
    + destruct (_ && _); [|now apply IH].
      destruct (_ <? _)%nat; now apply IH.
Qed.

(** C6. For every storage root, job name and run id whose bounded listing
    is produced and runs to its end: when the listing has no prowjob.json
    object - junit files or not - ReadJobRunFromGCS returns (nil, nil);
    when it has one, the prowjob is fetched at once, and a failing fetch is
    returned as an error, not as (nil, nil). *)
Theorem ReadJobRunFromGCS_not_found
        (Objects : storage.Query -> storage.ObjectIterator) (ProwJob : Type)
        (GetProwJob : gcsJobRun -> ProwJob + error) (quoted : string -> string)
        (jobGCSRootLocation jobName jobRunID next : string) :
  let listing :=
    Objects {| storage.Prefix := jobGCSRootLocation;
               storage.StartOffset := jobGCSRootLocation ++ "/" ++ jobRunID;
               storage.EndOffset := jobGCSRootLocation ++ "/" ++ next |} in
  NextJobRunID jobRunID = Returns next ->
  storage.ending listing = None ->
  (Forall (fun o => isProwJob o = false) (storage.pending listing) ->
   ReadJobRunFromGCS Objects ProwJob GetProwJob quoted
                     jobGCSRootLocation jobName jobRunID
   = Returns (None, None))
  /\ (Exists (fun o => isProwJob o = true) (storage.pending listing) ->
      exists jr,
        classifyObjects jobGCSRootLocation jobName (storage.pending listing) None
        = Some jr
        /\ (forall err,
               GetProwJob jr = inr err ->
               exists wrapped,
                 ReadJobRunFromGCS Objects ProwJob GetProwJob quoted
                                   jobGCSRootLocation jobName jobRunID
                 = Returns (None, Some wrapped))
        /\ (forall prowJob,
               GetProwJob jr = inl prowJob ->
               ReadJobRunFromGCS Objects ProwJob GetProwJob quoted
                                 jobGCSRootLocation jobName jobRunID
               = Returns (Some jr, None))).
Proof.
  intros listing Hnext Hend. unfold ReadJobRunFromGCS. rewrite Hnext.
  fold listing. rewrite Hend. split.
  - intros Hnone.
    pose proof (classifyObjects_no_prowjob jobGCSRootLocation jobName
                  (storage.pending listing) None Hnone I) as Hjr.
    destruct (classifyObjects _ _ _ None) as [jr|]; [|reflexivity].
    rewrite Hjr. reflexivity.
  - intros Hsome.
    destruct (classifyObjects_prowjob jobGCSRootLocation jobName
                (storage.pending listing) None Hsome) as (jr & Hjr & Hpath).
    exists jr. rewrite Hjr. split; [reflexivity|].
    apply Nat.eqb_neq in Hpath. rewrite Hpath.
    split.
    + intros err ->. eexists. reflexivity.
    + intros prowJob ->. reflexivity.
Qed.

Lemma ReadJobRunFromGCS_not_found_witness :
  ReadJobRunFromGCS
    (storage.bucketObjects
       [{| storage.ObjName := "logs/e2e-aws/41/artifacts/junit/junit_e2e.xml";
           storage.Created := 0 |};
        {| storage.ObjName := "logs/e2e-aws/42/artifacts/junit/junit_e2e.xml";
           storage.Created := 0 |};
        {| storage.ObjName := "logs/e2e-aws/42/build-log.txt";
           storage.Created := 0 |};
        {| storage.ObjName := "logs/e2e-aws/43/prowjob.json";
           storage.Created := 0 |}])
    unit (fun _ => inl tt) quotedPlain "logs/e2e-aws" "e2e-aws" "42"
  = Returns (None, None)
  /\ exists wrapped,
      ReadJobRunFromGCS
        (storage.bucketObjects
           [{| storage.ObjName := "logs/e2e-aws/42/artifacts/junit/junit_e2e.xml";
               storage.Created := 0 |};
            {| storage.ObjName := "logs/e2e-aws/42/prowjob.json";
               storage.Created := 0 |}])
        unit (fun _ => inr "object does not exist") quotedPlain
        "logs/e2e-aws" "e2e-aws" "42"
      = Returns (None, Some wrapped).
Proof.
  split.
  - refine (proj1 (ReadJobRunFromGCS_not_found
                     (storage.bucketObjects
                        [{| storage.ObjName :=
                              "logs/e2e-aws/41/artifacts/junit/junit_e2e.xml";
                            storage.Created := 0 |};
                         {| storage.ObjName :=
                              "logs/e2e-aws/42/artifacts/junit/junit_e2e.xml";
                            storage.Created := 0 |};
                         {| storage.ObjName := "logs/e2e-aws/42/build-log.txt";
                            storage.Created := 0 |};
                         {| storage.ObjName := "logs/e2e-aws/43/prowjob.json";
                            storage.Created := 0 |}])
                     unit (fun _ => inl tt) quotedPlain
                     "logs/e2e-aws" "e2e-aws" "42" "43" eq_refl eq_refl) _).
    vm_compute. repeat constructor.
  - destruct (proj2 (ReadJobRunFromGCS_not_found
                       (storage.bucketObjects
                          [{| storage.ObjName :=
                                "logs/e2e-aws/42/artifacts/junit/junit_e2e.xml";
                              storage.Created := 0 |};
                           {| storage.ObjName := "logs/e2e-aws/42/prowjob.json";
                              storage.Created := 0 |}])
                       unit (fun _ => inr "object does not exist") quotedPlain
                       "logs/e2e-aws" "e2e-aws" "42" "43" eq_refl eq_refl))
      as (jr & _ & Hfail & _).
    + vm_compute. right. left. reflexivity.
    + exact (Hfail "object does not exist" eq_refl).
Defined.

(* ===================================================================== *)
(** * Cursor Walker: where the listing starts                              *)
(* ===================================================================== *)

(** C8 (as the code behaves). The first query starts at the fixed key
    logs/<job>/1475614363518767104 whatever starting id the caller gives:
    the queries, and with them the whole walk, are the same for any two
    starting ids, and for the starting id "5" the listing does not start at
    logs/<job>/5. *)
Theorem initialQuery_ignores_startingID :
  (forall jobName startingID,
      storage.StartOffset (initialQuery jobName startingID)
      = "logs/" ++ jobName ++ "/1475614363518767104")
  /\ (forall jobName startingID startingID',
         initialQuery jobName startingID = initialQuery jobName startingID')
  /\ (forall Objects now ctxErrAt jobName startingID startingID' fuel,
         ListJobRunNamesOlderThanFourHours Objects now ctxErrAt jobName
                                           startingID fuel
         = ListJobRunNamesOlderThanFourHours Objects now ctxErrAt jobName
                                             startingID' fuel)
  /\ storage.StartOffset (initialQuery "e2e-aws" "5") <> "logs/e2e-aws/5".
Proof.
  split; [|split; [|split]].
  - intros. reflexivity.
  - intros. reflexivity.
  - intros. reflexivity.
  - discriminate.
Qed.

(* ===================================================================== *)
(** * Cursor Walker: what is sent on the output channel                    *)
(* ===================================================================== *)

Section WalkerSound.

Variable bucket : list storage.ObjectAttrs.
Variable now : Z.
Variable ctxErrAt : nat -> bool.
Variable jobName : string.

Lemma restartAfter_sound w runId :
  soundWalker bucket now w ->
  soundWalker bucket now (walkerOf (restartAfter (storage.bucketObjects bucket) jobName w runId)).
Proof.
  intros [Hit Hch]. unfold restartAfter.
  destruct (NextJobRunID runId) as [next|why]; cbn; (split; [|exact Hch]); cbn.
  - intros o Hin. apply filter_In in Hin. tauto.
  - exact Hit.
Qed.

Lemma restartAfterSplit_sound w name :
  soundWalker bucket now w ->
  soundWalker bucket now (walkerOf (restartAfterSplit (storage.bucketObjects bucket)
                                           jobName w name)).
Proof.
  intros Hw. unfold restartAfterSplit.
  destruct (nth_error _ 2); [now apply restartAfter_sound | exact Hw].
Qed.

Lemma loopBody_sound w :
  soundWalker bucket now w ->
  soundWalker bucket now (walkerOf (loopBody (storage.bucketObjects bucket) now ctxErrAt
                                  jobName w)).
Proof.
  intros [Hit Hch]. unfold loopBody.
  destruct (ctxErrAt _); [now split|].
  destruct (storage.pending (it w)) as [|attrs rest] eqn:Hpending.
  { destruct (storage.ending (it w)); cbn; split; cbn; trivial;
      rewrite Hpending; intros o []. }
  assert (In attrs bucket) as Hattrs by (apply Hit; now left).
  assert (forall o, In o rest -> In o bucket) as Hrest
      by (intros o Ho; apply Hit; now right).
  match goal with
  | |- context [if ?old then _ else if ?young then _ else _] =>
      destruct old eqn:Hold; [|destruct young eqn:Hyoung]
  end.
  - repeat match goal with
           | |- context [if ?b then _ else _] => destruct b
           end;
      try apply restartAfter_sound; try apply restartAfterSplit_sound;
      now split.
  - repeat match goal with
           | |- context [if ?b then _ else _] => destruct b
           end;
      try apply restartAfter_sound; try apply restartAfterSplit_sound;
      now split.
  - destruct (strings.HasSuffix (storage.ObjName attrs) "prowjob.json") eqn:Hprow;
      [|now split].
    apply restartAfter_sound. split; [exact Hrest|]. cbn.
    apply Forall_app. split; [exact Hch|]. constructor; [|constructor].
    exists attrs. repeat split; trivial; unfold inCandidateBand; lia.
Qed.

Lemma walk_sound fuel : forall w,
    soundWalker bucket now w ->
    soundWalker bucket now (walkerOf (walk (storage.bucketObjects bucket) now ctxErrAt
                                jobName fuel w)).
Proof.
  induction fuel as [|fuel IH]; intros w Hw; [exact Hw|].
  cbn [walk]. pose proof (loopBody_sound w Hw) as Hstep.
  destruct (loopBody _ _ _ _ w) as [w'|w'|w' why]; cbn in Hstep.
  - now apply IH.
  - exact Hstep.
  - exact Hstep.
Qed.

(** Whatever the bucket holds, only directory names of prowjob.json objects
    in the candidate band are ever sent. *)
Lemma walker_sends_candidates startingID fuel :
  Forall (candidateMarkerId bucket now)
         (jobRunProcessingCh
            (walkerOf (ListJobRunNamesOlderThanFourHours
                         (storage.bucketObjects bucket) now ctxErrAt jobName
                         startingID fuel))).
Proof.
  unfold ListJobRunNamesOlderThanFourHours.
  apply walk_sound. split.
  - cbn. intros o Hin. apply filter_In in Hin. tauto.
  - constructor.
Qed.

End WalkerSound.

(** ** Names, run ids and the lexicographic order *)

Lemma leb_common_prefix p a b :
  strings.leb (p ++ a) (p ++ b) = strings.leb a b.
Proof.
  induction p as [|c p IH]; [reflexivity|].
  cbn [append strings.leb]. rewrite Nat.ltb_irrefl. exact IH.
Qed.

Lemma decimalValue_bounds s :
  strconv.allDigits s = true ->
  0 <= strconv.decimalValue s 0 < 10 ^ Z.of_nat (String.length s).
Proof.
  induction s as [|c rest IH]; intros Hd; [cbn; lia|].
  cbn in Hd. apply andb_prop in Hd. destruct Hd as [Hc Hrest].
  apply is_digit_val in Hc. specialize (IH Hrest).
  cbn [strconv.decimalValue String.length].
  rewrite decimalValue_affine, Nat2Z.inj_succ, Z.pow_succ_r by lia. nia.
Qed.

Lemma decimalValue_cons c rest :
  strconv.decimalValue (String c rest) 0
  = strconv.digit_val c * 10 ^ Z.of_nat (String.length rest)
    + strconv.decimalValue rest 0.
Proof.
  cbn [strconv.decimalValue]. rewrite decimalValue_affine. lia.
Qed.

(** On digit strings of one length the byte order is the numeric order,
    also when the right-hand name goes on after the digits. *)
Lemma leb_digits_value a : forall b tail,
    String.length a = String.length b ->
    strconv.allDigits a = true -> strconv.allDigits b = true ->
    strings.leb a (b ++ tail) = true ->
    strconv.decimalValue a 0 <= strconv.decimalValue b 0.
Proof.
  induction a as [|c a IH]; intros [|d b] tail Hlen Ha Hb Hle;
    cbn [String.length] in Hlen; try discriminate Hlen.
  { cbn. lia. }
  injection Hlen as Hlen.
  cbn in Ha, Hb. apply andb_prop in Ha, Hb.
  destruct Ha as [Hc Ha], Hb as [Hd Hb].
  pose proof (is_digit_val c Hc) as Hcv. pose proof (is_digit_val d Hd) as Hdv.
  pose proof (decimalValue_bounds a Ha) as Hba.
  pose proof (decimalValue_bounds b Hb) as Hbb.
  rewrite !decimalValue_cons, <- Hlen.
  assert (0 < 10 ^ Z.of_nat (String.length a)) as Hpow by (apply Z.pow_pos_nonneg; lia).
  cbn [append strings.leb] in Hle.
  unfold strconv.digit_val in *.
  destruct (nat_of_ascii c <? nat_of_ascii d)%nat eqn:Hlt.
  - apply Nat.ltb_lt in Hlt. nia.
  - destruct (nat_of_ascii d <? nat_of_ascii c)%nat eqn:Hgt; [discriminate|].
    apply Nat.ltb_ge in Hlt, Hgt.
    assert (nat_of_ascii c = nat_of_ascii d) as Heq by lia.
    specialize (IH b tail Hlen Ha Hb Hle). rewrite Heq. lia.
Qed.

Lemma allDigits_noSlash s : strconv.allDigits s = true -> noSlash s = true.
Proof.
  induction s as [|c rest IH]; intros Hd; [reflexivity|].
  cbn in Hd. apply andb_prop in Hd. destruct Hd as [Hc Hrest].
  cbn. rewrite (IH Hrest), andb_true_r.
  apply negb_true_iff, Ascii.eqb_neq. intros ->. discriminate.
Qed.

Lemma Split_nonempty s sep : strings.Split s sep <> [].
Proof.
  destruct s as [|c rest]; [discriminate|]. cbn.
  destruct (Ascii.eqb c sep); [discriminate|].
  destruct (strings.Split rest sep); discriminate.
Qed.

Lemma Split_noSlash s : noSlash s = true -> strings.Split s "/" = [s].
Proof.
  induction s as [|c rest IH]; intros Hs; [reflexivity|].
  cbn in Hs. apply andb_prop in Hs. destruct Hs as [Hc Hrest].
  apply negb_true_iff in Hc. cbn. rewrite Hc, (IH Hrest). reflexivity.
Qed.

Lemma Split_append a b :
  strings.Split (a ++ String "/" b) "/"
  = (strings.Split a "/" ++ strings.Split b "/")%list.
Proof.
  induction a as [|c a IH]; [reflexivity|].
  cbn [append strings.Split]. rewrite IH.
  destruct (Ascii.eqb c "/"); [reflexivity|].
  pose proof (Split_nonempty a "/") as Hne.
  destruct (strings.Split a "/"); [contradiction | reflexivity].
Qed.

Lemma append_assoc_string (a b c : string) : (a ++ b) ++ c = a ++ (b ++ c).
Proof. induction a as [|x a IH]; [reflexivity|]. cbn. now rewrite IH. Qed.

(** The third path element of logs/<job>/<run id>/<file> is the run id. *)
Lemma Split_run_name jobName runId file :
  noSlash jobName = true -> noSlash runId = true ->
  strings.Split ("logs/" ++ jobName ++ "/" ++ runId ++ "/" ++ file) "/"
  = ("logs" :: jobName :: runId :: strings.Split file "/").
Proof.
  intros Hj Hr.
  change ("logs/" ++ jobName ++ "/" ++ runId ++ "/" ++ file)
    with ("logs" ++ String "/" (jobName ++ String "/" (runId ++ String "/" file))).
  rewrite !Split_append, (Split_noSlash jobName Hj), (Split_noSlash runId Hr).
  reflexivity.
Qed.

Lemma list_ascii_of_string_append a b :
  list_ascii_of_string (a ++ b)
  = (list_ascii_of_string a ++ list_ascii_of_string b)%list.
Proof. induction a as [|c a IH]; [reflexivity|]. cbn. now rewrite IH. Qed.

Lemma noSlash_chars s :
  noSlash s = true -> Forall (fun c => c <> "/"%char) (list_ascii_of_string s).
Proof.
  induction s as [|c rest IH]; intros Hs; [constructor|].
  cbn in Hs. apply andb_prop in Hs. destruct Hs as [Hc Hrest].
  apply negb_true_iff, Ascii.eqb_neq in Hc. constructor; auto.
Qed.

(** A path whose last element is [r] keeps all its bytes when trailing
    slashes are stripped. *)
Lemma stripTrailingSlashes_element p r :
  r <> "" -> noSlash r = true ->
  string_of_list_ascii
    (rev (filepath.stripTrailingSlashes (rev (list_ascii_of_string (p ++ r)))))
  = p ++ r.
Proof.
  intros Hne Hr.
  assert (filepath.stripTrailingSlashes (rev (list_ascii_of_string (p ++ r)))
          = rev (list_ascii_of_string (p ++ r))) as ->.
  { rewrite list_ascii_of_string_append, rev_app_distr.
    pose proof (noSlash_chars r Hr) as Hall.
    destruct (rev (list_ascii_of_string r)) as [|c l] eqn:Hrev.
    - apply (f_equal (@rev ascii)) in Hrev. rewrite rev_involutive in Hrev.
      destruct r; [contradiction | discriminate].
    - assert (In c (list_ascii_of_string r)) as Hin
          by (apply in_rev; rewrite Hrev; now left).
      rewrite Forall_forall in Hall. apply Hall in Hin.
      apply Ascii.eqb_neq in Hin. cbn. now rewrite Hin. }
  rewrite rev_involutive. apply string_of_list_ascii_of_string.
Qed.

Lemma Base_nonempty path :
  path <> "" ->
  filepath.Base path
  = (fun stripped =>
       match stripped with
       | EmptyString => "/"
       | String _ _ => last (strings.Split stripped "/") EmptyString
       end)
      (string_of_list_ascii
         (rev (filepath.stripTrailingSlashes (rev (list_ascii_of_string path))))).
Proof. intros Hne. destruct path; [contradiction | reflexivity]. Qed.

Lemma Base_element r :
  r <> "" -> noSlash r = true -> filepath.Base r = r.
Proof.
  intros Hne Hr. rewrite Base_nonempty by exact Hne.
  pose proof (stripTrailingSlashes_element "" r Hne Hr) as Hs.
  cbn [append] in Hs. rewrite Hs. cbv beta.
  destruct r as [|c rest]; [contradiction|].
  rewrite (Split_noSlash _ Hr). reflexivity.
Qed.

Lemma Base_last_element x r :
  r <> "" -> noSlash r = true -> filepath.Base (x ++ String "/" r) = r.
Proof.
  intros Hne Hr.
  assert (x ++ String "/" r <> "") as Hpath by (destruct x; discriminate).
  rewrite Base_nonempty by exact Hpath.
  pose proof (stripTrailingSlashes_element (x ++ "/") r Hne Hr) as Hs.
  rewrite append_assoc_string in Hs. cbn [append] in Hs. rewrite Hs. cbv beta.
  destruct (x ++ String "/" r) as [|c rest] eqn:E; [contradiction|].
  rewrite <- E, Split_append, (Split_noSlash r Hr). apply last_last.
Qed.

Lemma digits_not_dots r :
  r <> "" -> strconv.allDigits r = true ->
  (r =? "")%string = false /\ (r =? ".")%string = false
  /\ (r =? "..")%string = false.
Proof.
  intros Hne Hd. destruct r as [|c rest]; [contradiction|].
  cbn in Hd. apply andb_prop in Hd. destruct Hd as [Hc _].
  repeat split; apply String.eqb_neq; intros Heq; injection Heq as -> _;
    discriminate.
Qed.

(** The directory name of logs/<job>/<run id>/<file> is the run id. *)
Lemma Base_Dir_run_name jobName runId file :
  noSlash jobName = true -> noSlash file = true ->
  runId <> "" -> strconv.allDigits runId = true ->
  filepath.Base
    (filepath.Dir ("logs/" ++ jobName ++ "/" ++ runId ++ "/" ++ file))
  = runId.
Proof.
  intros Hj Hf Hne Hd.
  pose proof (allDigits_noSlash runId Hd) as Hr.
  destruct (digits_not_dots runId Hne Hd) as (He & Hdot & Hdots).
  unfold filepath.Dir.
  rewrite (Split_run_name jobName runId file Hj Hr), (Split_noSlash file Hf).
  unfold filepath.cleanElems.
  cbn [removelast filepath.isRooted append Ascii.eqb Bool.eqb].
  cbn [filepath.cleanLoop String.eqb Ascii.eqb Bool.eqb orb].
  destruct ((jobName =? "")%string || (jobName =? ".")%string) eqn:Hskip.
  - rewrite He, Hdot, Hdots. cbn [orb rev app filepath.joinSlash stringsJoin].
    now apply (Base_last_element "logs").
  - destruct (jobName =? "..")%string eqn:Hup.
    + rewrite He, Hdot, Hdots. cbn [orb rev app filepath.joinSlash stringsJoin].
      now apply Base_element.
    + rewrite He, Hdot, Hdots. cbn [orb rev app filepath.joinSlash stringsJoin].
      replace ("logs" ++ "/" ++ jobName ++ "/" ++ runId)
        with (("logs" ++ "/" ++ jobName) ++ String "/" runId)
        by (rewrite !append_assoc_string; reflexivity).
      now apply Base_last_element.
Qed.

Lemma first_digit_value c rest :
  strconv.allDigits (String c rest) = true -> c <> "0"%char ->
  10 ^ Z.of_nat (String.length rest) <= strconv.decimalValue (String c rest) 0.
Proof.
  intros Hd Hc. pose proof Hd as Hd'. cbn in Hd'. apply andb_prop in Hd'.
  destruct Hd' as [Hdig Hrest].
  pose proof (decimalValue_bounds rest Hrest) as Hb.
  pose proof (is_digit_val c Hdig) as Hv.
  rewrite decimalValue_cons.
  assert (strconv.digit_val c <> 0) as Hnz.
  { unfold strconv.digit_val. intros H0. apply Hc.
    rewrite <- (ascii_nat_embedding c).
    replace (nat_of_ascii c) with 48%nat by lia. reflexivity. }
  assert (0 < 10 ^ Z.of_nat (String.length rest)) by (apply Z.pow_pos_nonneg; lia).
  nia.
Qed.

(** The successor of a fixed-width run id is written with the same number
    of digits. *)
Lemma NextJobRunID_fixedWidth width runId :
  fixedWidthRunId width runId ->
  exists next,
    NextJobRunID runId = Returns next
    /\ strconv.allDigits next = true
    /\ String.length next = width
    /\ strconv.decimalValue next 0 = strconv.decimalValue runId 0 + 1.
Proof.
  intros (Hd & Hlen & Hlow & Hhigh & Hfit).
  pose proof (decimalValue_bounds runId Hd) as Hv.
  assert (runId <> "") as Hne.
  { intros ->. cbn in Hlen. subst width. cbn in Hhigh. lia. }
  destruct (NextJobRunID_digits runId Hne Hd Hfit)
    as (next & Hnext & _ & Hnd & Hval & _ & c & rest & -> & Hc).
  exists (String c rest). repeat split; try assumption.
  pose proof (first_digit_value c rest Hnd Hc) as Hfirst.
  pose proof (decimalValue_bounds (String c rest) Hnd) as Hb.
  rewrite Hval in *. cbn [String.length] in *.
  destruct (Nat.lt_trichotomy (S (String.length rest)) width) as [Hlt|[Heq|Hgt]];
    [exfalso | exact Heq | exfalso].
  - assert (10 ^ Z.of_nat (S (String.length rest)) <= 10 ^ (Z.of_nat width - 1))
      by (apply Z.pow_le_mono_r; lia).
    lia.
  - assert (10 ^ Z.of_nat width <= 10 ^ Z.of_nat (String.length rest))
      by (apply Z.pow_le_mono_r; lia).
    lia.
Qed.

Lemma StronglySorted_snoc {A : Type} (R : A -> A -> Prop) l x :
  StronglySorted R l -> Forall (fun a => R a x) l -> StronglySorted R (l ++ [x]).
Proof.
  induction 1 as [|a l Hl IH Ha]; intros Hall; cbn.
  - repeat constructor.
  - inversion Hall as [|? ? Hax Hlx]; subst. constructor; [now apply IH|].
    apply Forall_app. split; [exact Ha | now constructor].
Qed.

Lemma ascendingIds_NoDup runIds : ascendingIds runIds -> NoDup runIds.
Proof.
  induction 1 as [|a l Hl IH Ha]; constructor; [|exact IH].
  intros Hin. rewrite Forall_forall in Ha. specialize (Ha a Hin). lia.
Qed.

Lemma fixedWidth_nonempty width runId :
  fixedWidthRunId width runId -> runId <> "".
Proof.
  intros (Hd & Hlen & Hlow & Hhigh & Hfit) ->. cbn in Hlen. subst width.
  cbn in Hhigh. lia.
Qed.

Section WalkerAscending.

Variable bucket : list storage.ObjectAttrs.
Variable now : Z.
Variable ctxErrAt : nat -> bool.
Variable jobName : string.
Variable width : nat.
Hypothesis jobName_noSlash : noSlash jobName = true.
Hypothesis bucket_layout :
  Forall (runLayout jobName width) (listedObjects jobName bucket).

Lemma restartAfter_asc w runId :
  fixedWidthRunId width runId ->
  Forall (fun r => runIdValue r < runIdValue runId + 1) (jobRunProcessingCh w) ->
  ascendingIds (jobRunProcessingCh w) ->
  ascWalker bucket jobName width (walkerOf (restartAfter (storage.bucketObjects bucket) jobName w runId)).
Proof.
  intros Hfixed Hbelow Hasc.
  destruct (NextJobRunID_fixedWidth width runId Hfixed)
    as (next & Hnext & Hnd & Hnlen & Hnval).
  unfold restartAfter. rewrite Hnext. cbn [walkerOf].
  exists (runIdValue runId + 1). cbn [it jobRunProcessingCh].
  split; [|split; assumption].
  intros o Hin. cbn in Hin. apply filter_In in Hin. destruct Hin as [Hin Hsel].
  unfold storage.selects in Hsel.
  cbn [storage.StartOffset storage.Prefix] in Hsel.
  apply andb_prop in Hsel. destruct Hsel as [Hsel _].
  apply andb_prop in Hsel. destruct Hsel as [Hpre Hle].
  split; [apply filter_In; now split|].
  intros runId' file Hname (Hd' & Hlen' & _).
  rewrite Hname in Hle.
  change (strings.leb ("logs/" ++ (jobName ++ ("/" ++ next)))
                      ("logs/" ++ (jobName ++ ("/" ++ (runId' ++ "/" ++ file))))
          = true) in Hle.
  rewrite (leb_common_prefix "logs/"), (leb_common_prefix jobName),
    (leb_common_prefix "/") in Hle.
  apply leb_digits_value in Hle; try assumption; [|congruence].
  unfold runIdValue. lia.
Qed.

(** A name that makes the walker act is laid out as a run's object. *)
Lemma trigger_layout o :
  In o (listedObjects jobName bucket) -> triggers (storage.ObjName o) = true ->
  exists runId file,
    storage.ObjName o = "logs/" ++ jobName ++ "/" ++ runId ++ "/" ++ file
    /\ fixedWidthRunId width runId
    /\ (isProwJob o = true -> noSlash file = true).
Proof.
  intros Hin Htrig. rewrite Forall_forall in bucket_layout.
  destruct (bucket_layout o Hin) as [Hno|Hlay]; [congruence | exact Hlay].
Qed.

Section OneObject.

Variable w : walker.
Variable attrs : storage.ObjectAttrs.
Variable bound : Z.
Hypothesis attrs_listed : In attrs (listedObjects jobName bucket).
Hypothesis attrs_above :
  forall runId file,
    storage.ObjName attrs = "logs/" ++ jobName ++ "/" ++ runId ++ "/" ++ file ->
    fixedWidthRunId width runId -> bound <= runIdValue runId.
Hypothesis sent_below : Forall (fun r => runIdValue r < bound) (jobRunProcessingCh w).
Hypothesis sent_ascending : ascendingIds (jobRunProcessingCh w).

Lemma restartAfterSplit_asc :
  triggers (storage.ObjName attrs) = true ->
  ascWalker bucket jobName width (walkerOf (restartAfterSplit (storage.bucketObjects bucket) jobName
                                         w (storage.ObjName attrs))).
Proof.
  intros Htrig.
  destruct (trigger_layout attrs attrs_listed Htrig)
    as (runId & file & Hname & Hfixed & _).
  pose proof (attrs_above runId file Hname Hfixed) as Hge.
  unfold restartAfterSplit. rewrite Hname.
  rewrite Split_run_name;
    [|exact jobName_noSlash|apply allDigits_noSlash, Hfixed].
  cbn [nth_error]. apply restartAfter_asc; [exact Hfixed| |exact sent_ascending].
  eapply Forall_impl; [|exact sent_below]. cbn. intros r Hr. lia.
Qed.

Lemma prowjob_runId :
  isProwJob attrs = true ->
  exists runId,
    filepath.Base (filepath.Dir (storage.ObjName attrs)) = runId
    /\ fixedWidthRunId width runId /\ bound <= runIdValue runId.
Proof.
  intros Hprow.
  assert (triggers (storage.ObjName attrs) = true) as Htrig.
  { unfold triggers. unfold isProwJob in Hprow. rewrite Hprow.
    now rewrite orb_true_r. }
  destruct (trigger_layout attrs attrs_listed Htrig)
    as (runId & file & Hname & Hfixed & Hfile).
  exists runId. split; [|split; [exact Hfixed | now apply (attrs_above runId file)]].
  rewrite Hname. apply Base_Dir_run_name;
    [exact jobName_noSlash | now apply Hfile
     | now apply (fixedWidth_nonempty width) | apply Hfixed].
Qed.

Lemma restartAfterDir_asc :
  isProwJob attrs = true ->
  ascWalker bucket jobName width (walkerOf (restartAfter (storage.bucketObjects bucket) jobName w
                         (filepath.Base (filepath.Dir (storage.ObjName attrs))))).
Proof.
  intros Hprow. destruct (prowjob_runId Hprow) as (runId & -> & Hfixed & Hge).
  apply restartAfter_asc; [exact Hfixed| |exact sent_ascending].
  eapply Forall_impl; [|exact sent_below]. cbn. intros r Hr. lia.
Qed.

Lemma send_asc :
  isProwJob attrs = true ->
  let runId := filepath.Base (filepath.Dir (storage.ObjName attrs)) in
  Forall (fun r => runIdValue r < runIdValue runId + 1) (jobRunProcessingCh w ++ [runId])
  /\ ascendingIds (jobRunProcessingCh w ++ [runId])
  /\ fixedWidthRunId width runId.
Proof.
  intros Hprow. destruct (prowjob_runId Hprow) as (runId & -> & Hfixed & Hge).
  cbv zeta. split; [|split; [|exact Hfixed]].
  - apply Forall_app. split.
    + eapply Forall_impl; [|exact sent_below]. cbn. intros r Hr. lia.
    + constructor; [lia | constructor].
  - apply StronglySorted_snoc; [exact sent_ascending|].
    eapply Forall_impl; [|exact sent_below]. cbn. intros r Hr. unfold runIdValue in *. lia.
Qed.

End OneObject.

Lemma loopBody_asc w :
  ascWalker bucket jobName width w ->
  ascWalker bucket jobName width (walkerOf (loopBody (storage.bucketObjects bucket) now ctxErrAt
                                jobName w)).
Proof.
  intros (bound & Hit & Hbelow & Hasc). unfold loopBody.
  destruct (ctxErrAt _); [now exists bound|].
  destruct (storage.pending (it w)) as [|attrs rest] eqn:Hpending.
  { destruct (storage.ending (it w)); cbn [walkerOf]; exists bound;
      cbn [it jobRunProcessingCh]; rewrite Hpending; now split. }
  destruct (Hit attrs (or_introl eq_refl)) as [Hlisted Habove].
  assert (forall o, In o rest ->
                    In o (listedObjects jobName bucket)
                    /\ forall runId file,
                        storage.ObjName o
                        = "logs/" ++ jobName ++ "/" ++ runId ++ "/" ++ file ->
                        fixedWidthRunId width runId -> bound <= runIdValue runId)
    as Hrest by (intros o Ho; apply Hit; now right).
  set (consumed := {| it := {| storage.pending := rest;
                               storage.ending := storage.ending (it w) |};
                      queryStartOffset := queryStartOffset w;
                      jobRunId := jobRunId w; it_count := S (it_count w);
                      jobRunProcessingCh := jobRunProcessingCh w;
                      errorCh := errorCh w |}).
  assert (ascWalker bucket jobName width consumed) as Hgoes by (exists bound; now split).
  pose proof (restartAfterSplit_asc consumed attrs bound Hlisted Habove
                                    Hbelow Hasc) as Hsplit.
  pose proof (restartAfterDir_asc consumed attrs bound Hlisted Habove
                                  Hbelow Hasc) as Hdir.
  unfold triggers in Hsplit. unfold isProwJob in Hdir.
  match goal with
  | |- context [if ?old then _ else if ?young then _ else _] =>
      destruct old; [|destruct young]
  end.
  - destruct (strings.HasSuffix _ "latest-build.txt"); [exact Hgoes|].
    destruct (strings.HasSuffix _ ".json") eqn:Hjson; [now apply Hsplit|].
    destruct (strings.HasSuffix _ "prowjob.json") eqn:Hprow;
      [now apply Hdir | exact Hgoes].
  - destruct (strings.HasSuffix _ "latest-build.txt"); [exact Hgoes|].
    destruct (strings.HasSuffix _ "build-log.txt") eqn:Hlog.
    { apply Hsplit. now rewrite orb_true_r. }
    destruct (strings.HasSuffix _ ".json") eqn:Hjson; [now apply Hsplit|].
    destruct (strings.HasSuffix _ "prowjob.json") eqn:Hprow;
      [now apply Hdir | exact Hgoes].
  - destruct (strings.HasSuffix _ "prowjob.json") eqn:Hprow; [|exact Hgoes].
    destruct (send_asc consumed attrs bound Hlisted Habove Hbelow Hasc Hprow)
      as (Hbelow' & Hasc' & Hfixed).
    apply restartAfter_asc; assumption.
Qed.

Lemma walk_asc fuel : forall w,
    ascWalker bucket jobName width w ->
    ascWalker bucket jobName width (walkerOf (walk (storage.bucketObjects bucket) now ctxErrAt
                              jobName fuel w)).
Proof.
  induction fuel as [|fuel IH]; intros w Hw; [exact Hw|].
  cbn [walk]. pose proof (loopBody_asc w Hw) as Hstep.
  destruct (loopBody _ _ _ _ w) as [w'|w'|w' why]; cbn [walkerOf] in Hstep.
  - now apply IH.
  - exact Hstep.
  - exact Hstep.
Qed.

(** With every object laid out under fixed-width run ids, the ids are sent
    in strictly ascending order. *)
Lemma walker_sends_ascending startingID fuel :
  ascendingIds
    (jobRunProcessingCh
       (walkerOf (ListJobRunNamesOlderThanFourHours
                    (storage.bucketObjects bucket) now ctxErrAt jobName
                    startingID fuel))).
Proof.
  unfold ListJobRunNamesOlderThanFourHours.
  destruct (walk_asc fuel (startWalker (storage.bucketObjects bucket) jobName
                                       startingID)) as (bound & _ & _ & Hasc);
    [|exact Hasc].
  exists 0. split; [|split; constructor].
  intros o Hin. cbn in Hin. apply filter_In in Hin. destruct Hin as [Hin Hsel].
  unfold storage.selects in Hsel. cbn [storage.Prefix] in Hsel.
  apply andb_prop in Hsel. destruct Hsel as [Hsel _].
  apply andb_prop in Hsel. destruct Hsel as [Hpre _].
  split; [apply filter_In; now split|].
  intros runId file _ (Hd & _). apply decimalValue_bounds. exact Hd.
Qed.

End WalkerAscending.

(** ** The byte order on names *)

Lemma leb_refl a : strings.leb a a = true.
Proof.
  induction a as [|c a IH]; [reflexivity|].
  cbn [strings.leb]. rewrite Nat.ltb_irrefl. exact IH.
Qed.

Lemma leb_trans a : forall b c,
    strings.leb a b = true -> strings.leb b c = true -> strings.leb a c = true.
Proof.
  induction a as [|x a IH]; intros [|y b] [|z c] Hab Hbc;
    try reflexivity; try discriminate.
  cbn [strings.leb] in *.
  destruct (nat_of_ascii x <? nat_of_ascii y)%nat eqn:Hxy.
  - apply Nat.ltb_lt in Hxy.
    destruct (nat_of_ascii y <? nat_of_ascii z)%nat eqn:Hyz.
    + apply Nat.ltb_lt in Hyz.
      assert ((nat_of_ascii x <? nat_of_ascii z)%nat = true) as ->
          by (apply Nat.ltb_lt; lia).
      reflexivity.
    + destruct (nat_of_ascii z <? nat_of_ascii y)%nat eqn:Hzy; [discriminate|].
      apply Nat.ltb_ge in Hyz, Hzy.
      assert ((nat_of_ascii x <? nat_of_ascii z)%nat = true) as ->
          by (apply Nat.ltb_lt; lia).
      reflexivity.
  - destruct (nat_of_ascii y <? nat_of_ascii x)%nat eqn:Hyx; [discriminate|].
    apply Nat.ltb_ge in Hxy, Hyx.
    assert (nat_of_ascii x = nat_of_ascii y) as Heq by lia. rewrite Heq.
    destruct (nat_of_ascii y <? nat_of_ascii z)%nat; [reflexivity|].
    destruct (nat_of_ascii z <? nat_of_ascii y)%nat; [discriminate|].
    now apply (IH b c).
Qed.

Lemma leb_total a : forall b, strings.leb a b = true \/ strings.leb b a = true.
Proof.
  induction a as [|x a IH]; intros [|y b]; cbn [strings.leb]; auto.
  destruct (nat_of_ascii x <? nat_of_ascii y)%nat eqn:Hxy; [now left|].
  destruct (nat_of_ascii y <? nat_of_ascii x)%nat eqn:Hyx; [now right|].
  apply IH.
Qed.

Lemma ltb_leb a b : strings.ltb a b = true -> strings.leb a b = true.
Proof.
  unfold strings.ltb. intros H. apply negb_true_iff in H.
  destruct (leb_total a b) as [Hab|Hba]; [exact Hab | congruence].
Qed.

Lemma ltb_leb_trans a b c :
  strings.ltb a b = true -> strings.leb b c = true -> strings.ltb a c = true.
Proof.
  unfold strings.ltb. intros Hab Hbc. apply negb_true_iff in Hab.
  apply negb_true_iff. destruct (strings.leb c a) eqn:Hca; [|reflexivity].
  rewrite (leb_trans b c a Hbc Hca) in Hab. discriminate.
Qed.

Lemma ltb_irrefl a : strings.ltb a a = false.
Proof. unfold strings.ltb. now rewrite leb_refl. Qed.

Lemma ltb_asym a b : strings.ltb a b = true -> strings.ltb b a = false.
Proof.
  intros Hab. unfold strings.ltb. now rewrite (ltb_leb a b Hab).
Qed.

(** ** Sorted buckets *)

Lemma sortedByName_unique bucket :
  sortedByName bucket ->
  forall a b, In a bucket -> In b bucket ->
              storage.ObjName a = storage.ObjName b -> a = b.
Proof.
  induction 1 as [|x l Hl IH Hx]; intros a b Ha Hb Hname; [contradiction|].
  rewrite Forall_forall in Hx.
  destruct Ha as [<-|Ha], Hb as [<-|Hb]; auto.
  - specialize (Hx b Hb). rewrite Hname, ltb_irrefl in Hx. discriminate.
  - specialize (Hx a Ha). rewrite Hname, ltb_irrefl in Hx. discriminate.
Qed.

(** What is left of a filtered sorted bucket after its first object:
    the objects kept that come after it. *)
Lemma filter_sorted_tail keep bucket :
  sortedByName bucket ->
  forall o rest,
    filter keep bucket = o :: rest ->
    rest = filter (fun x => keep x
                            && strings.ltb (storage.ObjName o) (storage.ObjName x))
                  bucket.
Proof.
  induction 1 as [|b l Hl IH Hb]; intros o rest Hfilter; [discriminate|].
  cbn [filter] in *. destruct (keep b) eqn:Hkeep.
  - injection Hfilter as <- <-. rewrite ltb_irrefl. cbn [andb].
    apply filter_ext_in. intros x Hx. rewrite Forall_forall in Hb.
    rewrite (Hb x Hx). now rewrite andb_true_r.
  - cbn [andb]. now apply IH.
Qed.

Lemma filter_length_le_impl {A : Type} (p q : A -> bool) l :
  (forall x, In x l -> p x = true -> q x = true) ->
  (List.length (filter p l) <= List.length (filter q l))%nat.
Proof.
  induction l as [|x l IH]; intros Himp; [cbn; lia|].
  assert (List.length (filter p l) <= List.length (filter q l))%nat as Hl
      by (apply IH; intros y Hy; apply Himp; now right).
  cbn [filter]. destruct (p x) eqn:Hp.
  - rewrite (Himp x (or_introl eq_refl) Hp). cbn. lia.
  - destruct (q x); cbn; lia.
Qed.

(** ** Fixed-width run ids and the byte order, both ways *)

Lemma leb_digits_value_tails a : forall b tailA tailB,
    String.length a = String.length b ->
    strconv.allDigits a = true -> strconv.allDigits b = true ->
    strings.leb (a ++ tailA) (b ++ tailB) = true ->
    strconv.decimalValue a 0 <= strconv.decimalValue b 0.
Proof.
  induction a as [|c a IH]; intros [|d b] tailA tailB Hlen Ha Hb Hle;
    cbn [String.length] in Hlen; try discriminate Hlen.
  { cbn. lia. }
  injection Hlen as Hlen.
  cbn in Ha, Hb. apply andb_prop in Ha, Hb.
  destruct Ha as [Hc Ha], Hb as [Hd Hb].
  pose proof (is_digit_val c Hc) as Hcv. pose proof (is_digit_val d Hd) as Hdv.
  pose proof (decimalValue_bounds a Ha) as Hba.
  pose proof (decimalValue_bounds b Hb) as Hbb.
  rewrite !decimalValue_cons, <- Hlen.
  assert (0 < 10 ^ Z.of_nat (String.length a)) as Hpow by (apply Z.pow_pos_nonneg; lia).
  cbn [append strings.leb] in Hle.
  unfold strconv.digit_val in *.
  destruct (nat_of_ascii c <? nat_of_ascii d)%nat eqn:Hlt.
  - apply Nat.ltb_lt in Hlt. nia.
  - destruct (nat_of_ascii d <? nat_of_ascii c)%nat eqn:Hgt; [discriminate|].
    apply Nat.ltb_ge in Hlt, Hgt.
    assert (nat_of_ascii c = nat_of_ascii d) as Heq by lia.
    specialize (IH b tailA tailB Hlen Ha Hb Hle). rewrite Heq. lia.
Qed.

Lemma value_le_leb a : forall b tail,
    String.length a = String.length b ->
    strconv.allDigits a = true -> strconv.allDigits b = true ->
    strconv.decimalValue a 0 <= strconv.decimalValue b 0 ->
    strings.leb a (b ++ tail) = true.
Proof.
  induction a as [|c a IH]; intros [|d b] tail Hlen Ha Hb Hle;
    cbn [String.length] in Hlen; try discriminate Hlen; [reflexivity|].
  injection Hlen as Hlen.
  cbn in Ha, Hb. apply andb_prop in Ha, Hb.
  destruct Ha as [Hc Ha], Hb as [Hd Hb].
  pose proof (is_digit_val c Hc) as Hcv. pose proof (is_digit_val d Hd) as Hdv.
  pose proof (decimalValue_bounds a Ha) as Hba.
  pose proof (decimalValue_bounds b Hb) as Hbb.
  rewrite !decimalValue_cons, <- Hlen in Hle. rewrite <- Hlen in Hbb.
  assert (0 < 10 ^ Z.of_nat (String.length a)) as Hpow by (apply Z.pow_pos_nonneg; lia).
  cbn [append strings.leb].
  unfold strconv.digit_val in *.
  destruct (nat_of_ascii c <? nat_of_ascii d)%nat eqn:Hlt; [reflexivity|].
  apply Nat.ltb_ge in Hlt.
  destruct (nat_of_ascii d <? nat_of_ascii c)%nat eqn:Hgt.
  - apply Nat.ltb_lt in Hgt. exfalso.
    assert ((Z.of_nat (nat_of_ascii d) - 48 + 1) * 10 ^ Z.of_nat (String.length a)
            <= (Z.of_nat (nat_of_ascii c) - 48) * 10 ^ Z.of_nat (String.length a))
      by (apply Z.mul_le_mono_nonneg_r; lia).
    lia.
  - apply Nat.ltb_ge in Hgt.
    assert (nat_of_ascii c = nat_of_ascii d) as Heq by lia.
    apply IH; try assumption. rewrite Heq in Hle. lia.
Qed.

Lemma digits_value_injective a : forall b,
    String.length a = String.length b ->
    strconv.allDigits a = true -> strconv.allDigits b = true ->
    strconv.decimalValue a 0 = strconv.decimalValue b 0 ->
    a = b.
Proof.
  induction a as [|c a IH]; intros [|d b] Hlen Ha Hb Hval;
    cbn [String.length] in Hlen; try discriminate Hlen; [reflexivity|].
  injection Hlen as Hlen.
  cbn in Ha, Hb. apply andb_prop in Ha, Hb.
  destruct Ha as [Hc Ha], Hb as [Hd Hb].
  pose proof (is_digit_val c Hc) as Hcv. pose proof (is_digit_val d Hd) as Hdv.
  pose proof (decimalValue_bounds a Ha) as Hba.
  pose proof (decimalValue_bounds b Hb) as Hbb.
  rewrite !decimalValue_cons, <- Hlen in Hval. rewrite <- Hlen in Hbb.
  assert (0 < 10 ^ Z.of_nat (String.length a)) as Hpow by (apply Z.pow_pos_nonneg; lia).
  assert (strconv.digit_val c = strconv.digit_val d) as Hdig.
  { destruct (Z.lt_trichotomy (strconv.digit_val c) (strconv.digit_val d))
      as [Hlt|[Heq|Hgt]]; [exfalso | exact Heq | exfalso].
    - assert ((strconv.digit_val c + 1) * 10 ^ Z.of_nat (String.length a)
              <= strconv.digit_val d * 10 ^ Z.of_nat (String.length a))
        by (apply Z.mul_le_mono_nonneg_r; lia).
      lia.
    - assert ((strconv.digit_val d + 1) * 10 ^ Z.of_nat (String.length a)
              <= strconv.digit_val c * 10 ^ Z.of_nat (String.length a))
        by (apply Z.mul_le_mono_nonneg_r; lia).
      lia. }
  assert (c = d) as ->.
  { unfold strconv.digit_val in Hdig.
    rewrite <- (ascii_nat_embedding c), <- (ascii_nat_embedding d).
    f_equal. lia. }
  f_equal. apply IH; try assumption. lia.
Qed.

Lemma prefix_append p s : String.prefix p (p ++ s) = true.
Proof.
  induction p as [|c p IH]; [now destruct s|].
  cbn. destruct (ascii_dec c c) as [_|Hne]; [exact IH | contradiction].
Qed.

(** ** What has been sent stays sent *)

Lemma restartAfter_keeps Objects jobName w runId r :
  In r (jobRunProcessingCh w) ->
  In r (jobRunProcessingCh (walkerOf (restartAfter Objects jobName w runId))).
Proof.
  intros Hin. unfold restartAfter. destruct (NextJobRunID runId); exact Hin.
Qed.

Lemma loopBody_keeps Objects now ctxErrAt jobName w r :
  In r (jobRunProcessingCh w) ->
  In r (jobRunProcessingCh (walkerOf (loopBody Objects now ctxErrAt jobName w))).
Proof.
  intros Hin. unfold loopBody, restartAfterSplit.
  repeat match goal with
         | |- context [if ?b then _ else _] => destruct b
         | |- context [match ?x with _ => _ end] => destruct x
         end;
    try exact Hin; try (apply restartAfter_keeps; exact Hin).
  apply restartAfter_keeps. cbn. apply in_or_app. now left.
Qed.

Lemma walk_keeps Objects now ctxErrAt jobName fuel : forall w r,
    In r (jobRunProcessingCh w) ->
    In r (jobRunProcessingCh
            (walkerOf (walk Objects now ctxErrAt jobName fuel w))).
Proof.
  induction fuel as [|fuel IH]; intros w r Hin; [exact Hin|].
  cbn [walk]. pose proof (loopBody_keeps Objects now ctxErrAt jobName w r Hin) as H.
  destruct (loopBody Objects now ctxErrAt jobName w) as [w'|w'|w' why];
    cbn [walkerOf] in H; [now apply IH | exact H | exact H].
Qed.

Section WalkerReaches.

Variable bucket : list storage.ObjectAttrs.
Variable now : Z.
Variable jobName : string.
Variable width : nat.
Variable m : storage.ObjectAttrs.
Hypothesis jobName_noSlash : noSlash jobName = true.
Hypothesis bucket_sorted : sortedByName bucket.
Hypothesis bucket_layout :
  Forall (runLayout jobName width) (listedObjects jobName bucket).
Hypothesis m_listed : In m (listedObjects jobName bucket).
Hypothesis m_marker : isProwJob m = true.
Hypothesis m_candidate : inCandidateBand now m.
Hypothesis m_reached : reachedMarker bucket now jobName m.

Lemma run_name_assoc runId file :
  "logs/" ++ jobName ++ "/" ++ runId ++ "/" ++ file
  = ("logs/" ++ jobName ++ "/" ++ runId ++ "/") ++ file.
Proof. now rewrite !append_assoc_string. Qed.

Lemma triggers_prowjob o : isProwJob o = true -> triggers (storage.ObjName o) = true.
Proof.
  unfold isProwJob, triggers. intros ->. now rewrite orb_true_r.
Qed.

(** The marker's own run id. *)
Lemma marker_run :
  exists file,
    storage.ObjName m
    = "logs/" ++ jobName ++ "/"
        ++ filepath.Base (filepath.Dir (storage.ObjName m)) ++ "/" ++ file
    /\ fixedWidthRunId width (filepath.Base (filepath.Dir (storage.ObjName m))).
Proof.
  destruct (trigger_layout bucket jobName width bucket_layout m m_listed
                           (triggers_prowjob m m_marker))
    as (runId & file & Hname & Hfixed & Hfile).
  assert (filepath.Base (filepath.Dir (storage.ObjName m)) = runId) as ->.
  { rewrite Hname. apply Base_Dir_run_name;
      [exact jobName_noSlash | now apply Hfile
       | now apply (fixedWidth_nonempty width) | apply Hfixed]. }
  now exists file.
Qed.

(** An object listed before the marker on which the walker acts belongs to
    an earlier run, or to the marker's own run. *)
Lemma earlier_object_run o :
  In o (listedObjects jobName bucket) ->
  triggers (storage.ObjName o) = true ->
  strings.ltb (storage.ObjName o) (storage.ObjName m) = true ->
  exists runId file,
    storage.ObjName o = "logs/" ++ jobName ++ "/" ++ runId ++ "/" ++ file
    /\ fixedWidthRunId width runId
    /\ nth_error (strings.Split (storage.ObjName o) "/") 2 = Some runId
    /\ (isProwJob o = true ->
        filepath.Base (filepath.Dir (storage.ObjName o)) = runId)
    /\ (runIdValue runId
        < runIdValue (filepath.Base (filepath.Dir (storage.ObjName m)))
        \/ (runId = filepath.Base (filepath.Dir (storage.ObjName m))
            /\ strings.HasPrefix
                 (storage.ObjName o)
                 ("logs/" ++ jobName ++ "/"
                    ++ filepath.Base (filepath.Dir (storage.ObjName m)) ++ "/")
               = true)).
Proof.
  intros Hlisted Htrig Hlt.
  destruct (trigger_layout bucket jobName width bucket_layout o Hlisted Htrig)
    as (runId & file & Hname & Hfixed & Hfile).
  destruct marker_run as (fileM & HnameM & HfixedM).
  set (r := filepath.Base (filepath.Dir (storage.ObjName m))) in *.
  exists runId, file. split; [exact Hname|]. split; [exact Hfixed|].
  pose proof Hfixed as (Hd & Hlen & _). pose proof HfixedM as (HdM & HlenM & _).
  split.
  { rewrite Hname, Split_run_name;
      [reflexivity | exact jobName_noSlash | now apply allDigits_noSlash]. }
  split.
  { intros Hprow. rewrite Hname. apply Base_Dir_run_name;
      [exact jobName_noSlash | now apply Hfile
       | now apply (fixedWidth_nonempty width) | exact Hd]. }
  apply ltb_leb in Hlt. rewrite Hname, HnameM in Hlt.
  change (strings.leb ("logs/" ++ (jobName ++ ("/" ++ (runId ++ ("/" ++ file)))))
                      ("logs/" ++ (jobName ++ ("/" ++ (r ++ ("/" ++ fileM)))))
          = true) in Hlt.
  rewrite (leb_common_prefix "logs/"), (leb_common_prefix jobName),
    (leb_common_prefix "/") in Hlt.
  apply leb_digits_value_tails in Hlt; try assumption; [|congruence].
  destruct (Z.eq_dec (strconv.decimalValue runId 0) (strconv.decimalValue r 0))
    as [Heq|Hne].
  - right. assert (runId = r) as Hsame
        by (apply digits_value_injective; try assumption; congruence).
    split; [exact Hsame|]. rewrite Hname, Hsame, run_name_assoc.
    apply prefix_append.
  - left. unfold runIdValue. lia.
Qed.

Section OneListing.

Variable keep : storage.ObjectAttrs -> bool.
Variable o : storage.ObjectAttrs.
Variable rest : list storage.ObjectAttrs.
Hypothesis listing : filter keep bucket = o :: rest.
Hypothesis keep_listed :
  forall x, keep x = true ->
            strings.HasPrefix (storage.ObjName x) ("logs/" ++ jobName) = true.
Hypothesis keep_upward :
  forall a b,
    keep a = true -> In b bucket ->
    strings.HasPrefix (storage.ObjName b) ("logs/" ++ jobName) = true ->
    strings.leb (storage.ObjName a) (storage.ObjName b) = true ->
    keep b = true.
Hypothesis keep_marker : keep m = true.

Lemma head_kept : In o bucket /\ keep o = true.
Proof.
  apply filter_In. rewrite listing. now left.
Qed.

Lemma head_listed : In o (listedObjects jobName bucket).
Proof.
  destruct head_kept as [Hin Hkeep]. apply filter_In. split; [exact Hin|].
  now apply keep_listed.
Qed.

Lemma rest_after :
  rest = filter (fun x => keep x
                          && strings.ltb (storage.ObjName o) (storage.ObjName x))
                bucket.
Proof. now apply filter_sorted_tail. Qed.

(** Stepping over the first object keeps the marker ahead, unless the
    first object is the marker. *)
Lemma consumed_ahead w :
  storage.pending (it w) = rest ->
  o <> m ->
  aheadWalker bucket jobName m w
  /\ strings.ltb (storage.ObjName o) (storage.ObjName m) = true.
Proof.
  intros Hpending Hne.
  assert (In m (o :: rest)) as Hm.
  { rewrite <- listing. apply filter_In. split; [|exact keep_marker].
    apply filter_In in m_listed. tauto. }
  destruct Hm as [Hm|Hm]; [contradiction|].
  rewrite rest_after in Hm. apply filter_In in Hm. destruct Hm as [_ Hm].
  apply andb_prop in Hm. destruct Hm as [_ Hlt]. split; [|exact Hlt].
  exists (fun x => keep x && strings.ltb (storage.ObjName o) (storage.ObjName x)).
  split; [rewrite Hpending; apply rest_after|]. split; [|split].
  - intros x Hx. apply andb_prop in Hx. now apply keep_listed.
  - intros a b Ha Hb Hpre Hle. apply andb_prop in Ha. destruct Ha as [Ha Hoa].
    apply andb_true_intro. split; [now apply (keep_upward a b)|].
    now apply (ltb_leb_trans _ (storage.ObjName a)).
  - now rewrite keep_marker, Hlt.
Qed.

(** Restarting after an earlier run keeps the marker ahead and shortens
    the listing. *)
Lemma restartAfter_ahead w runId file :
  storage.ObjName o = "logs/" ++ jobName ++ "/" ++ runId ++ "/" ++ file ->
  fixedWidthRunId width runId ->
  runIdValue runId < runIdValue (filepath.Base (filepath.Dir (storage.ObjName m))) ->
  exists w',
    restartAfter (storage.bucketObjects bucket) jobName w runId = Goes w'
    /\ jobRunProcessingCh w' = jobRunProcessingCh w
    /\ aheadWalker bucket jobName m w'
    /\ (List.length (storage.pending (it w')) <= List.length rest)%nat.
Proof.
  intros Hname Hfixed Hbelow.
  destruct (NextJobRunID_fixedWidth width runId Hfixed)
    as (next & Hnext & Hnd & Hnlen & Hnval).
  destruct marker_run as (fileM & HnameM & HfixedM).
  set (r := filepath.Base (filepath.Dir (storage.ObjName m))) in *.
  pose proof Hfixed as (Hd & Hlen & _). pose proof HfixedM as (HdM & HlenM & _).
  destruct head_kept as [Ho Hkeep].
  unfold restartAfter. rewrite Hnext. eexists. split; [reflexivity|].
  cbn [it jobRunProcessingCh storage.pending storage.bucketObjects].
  split; [reflexivity|].
  set (q := {| storage.Prefix := "logs/" ++ jobName;
               storage.StartOffset := "logs/" ++ jobName ++ "/" ++ next;
               storage.EndOffset := "" |}).
  assert (forall x, storage.selects q x = true ->
                    strings.HasPrefix (storage.ObjName x) ("logs/" ++ jobName) = true
                    /\ strings.leb ("logs/" ++ jobName ++ "/" ++ next)
                                   (storage.ObjName x) = true) as Hsel.
  { intros x Hx. unfold storage.selects in Hx. cbn in Hx.
    apply andb_prop in Hx. destruct Hx as [Hx _].
    apply andb_prop in Hx. exact Hx. }
  assert (forall x, strings.HasPrefix (storage.ObjName x) ("logs/" ++ jobName) = true ->
                    strings.leb ("logs/" ++ jobName ++ "/" ++ next)
                                (storage.ObjName x) = true ->
                    storage.selects q x = true) as Hsel'.
  { intros x Hpre Hle. unfold storage.selects.
    cbn [storage.Prefix storage.StartOffset storage.EndOffset q].
    rewrite Hpre, Hle. reflexivity. }
  split.
  - exists (storage.selects q). split; [reflexivity|]. split; [|split].
    + intros x Hx. now apply Hsel.
    + intros a b Ha Hb Hpre Hle. apply Hsel'; [exact Hpre|].
      apply (leb_trans _ (storage.ObjName a)); [now apply Hsel | exact Hle].
    + apply Hsel'; [apply filter_In in m_listed; tauto|].
      rewrite HnameM.
      change (strings.leb ("logs/" ++ (jobName ++ ("/" ++ next)))
                          ("logs/" ++ (jobName ++ ("/" ++ (r ++ ("/" ++ fileM)))))
              = true).
      rewrite (leb_common_prefix "logs/"), (leb_common_prefix jobName),
        (leb_common_prefix "/").
      apply value_le_leb; try assumption; [congruence|].
      unfold runIdValue in Hbelow. lia.
  - rewrite rest_after. apply filter_length_le_impl.
    intros x Hx Hselx. destruct (Hsel x Hselx) as [Hpre Hle].
    assert (strings.ltb (storage.ObjName o) ("logs/" ++ jobName ++ "/" ++ next)
            = true) as Hbefore.
    { unfold strings.ltb. apply negb_true_iff.
      destruct (strings.leb _ (storage.ObjName o)) eqn:Hcontra; [|reflexivity].
      rewrite Hname in Hcontra.
      change (strings.leb ("logs/" ++ (jobName ++ ("/" ++ next)))
                          ("logs/" ++ (jobName ++ ("/" ++ (runId ++ ("/" ++ file)))))
              = true) in Hcontra.
      rewrite (leb_common_prefix "logs/"), (leb_common_prefix jobName),
        (leb_common_prefix "/") in Hcontra.
      apply leb_digits_value in Hcontra; try assumption; [lia | congruence]. }
    pose proof (ltb_leb_trans _ _ _ Hbefore Hle) as Hox.
    apply andb_true_intro. split; [|exact Hox].
    apply (keep_upward o x Hkeep Hx Hpre). now apply ltb_leb.
Qed.

End OneListing.

(** One turn of the loop with the marker ahead: the marker's run id is
    sent, or the walk goes on with the marker ahead in a shorter listing. *)
Lemma loopBody_ahead w :
  aheadWalker bucket jobName m w ->
  In (filepath.Base (filepath.Dir (storage.ObjName m)))
     (jobRunProcessingCh
        (walkerOf (loopBody (storage.bucketObjects bucket) now (fun _ => false)
                            jobName w)))
  \/ exists w',
      loopBody (storage.bucketObjects bucket) now (fun _ => false) jobName w
      = Goes w'
      /\ aheadWalker bucket jobName m w'
      /\ (List.length (storage.pending (it w'))
          < List.length (storage.pending (it w)))%nat.
Proof.
  intros (keep & Hpending & Hlisted & Hup & Hm).
  destruct (filter keep bucket) as [|o rest] eqn:Hlisting.
  { exfalso. assert (In m (filter keep bucket)) as Hin.
    { apply filter_In. apply filter_In in m_listed. tauto. }
    rewrite Hlisting in Hin. contradiction. }
  destruct (head_kept keep o rest Hlisting) as [Ho Hkeep].
  pose proof (head_listed keep o rest Hlisting Hlisted) as Hol.
  unfold loopBody. cbv beta. rewrite Hpending. cbv iota.
  set (consumed := {| it := {| storage.pending := rest;
                               storage.ending := storage.ending (it w) |};
                      queryStartOffset := queryStartOffset w;
                      jobRunId := jobRunId w; it_count := S (it_count w);
                      jobRunProcessingCh := jobRunProcessingCh w;
                      errorCh := errorCh w |}).
  destruct (string_dec (storage.ObjName o) (storage.ObjName m)) as [Hsame|Hdiff].
  - (* the first object is the marker *)
    assert (o = m) as ->.
    { apply (sortedByName_unique bucket bucket_sorted); try assumption.
      apply filter_In in m_listed. tauto. }
    left. unfold inCandidateBand in m_candidate.
    assert ((timeSub now (storage.Created m) >? 1 * 17 * Hour) = false) as -> by lia.
    assert ((timeSub now (storage.Created m) <? 4 * Hour) = false) as -> by lia.
    unfold isProwJob in m_marker. rewrite m_marker.
    apply restartAfter_keeps. cbn. apply in_or_app. right. now left.
  - assert (o <> m) as Hne by congruence.
    edestruct consumed_ahead
      with (keep := keep) (o := o) (rest := rest) (w := consumed)
      as [Hahead Hlt]; try eassumption; [reflexivity|].
    assert (In (filepath.Base (filepath.Dir (storage.ObjName m)))
               (jobRunProcessingCh (walkerOf (Goes consumed)))
            \/ exists w',
                Goes consumed = Goes w'
                /\ aheadWalker bucket jobName m w'
                /\ (List.length (storage.pending (it w'))
                    < List.length (o :: rest))%nat) as Hgoes.
    { right. exists consumed. split; [reflexivity|]. split; [exact Hahead|].
      cbn. lia. }
    assert (forall wc runId file,
               storage.ObjName o = "logs/" ++ jobName ++ "/" ++ runId ++ "/" ++ file ->
               fixedWidthRunId width runId ->
               runIdValue runId
               < runIdValue (filepath.Base (filepath.Dir (storage.ObjName m))) ->
               In (filepath.Base (filepath.Dir (storage.ObjName m)))
                  (jobRunProcessingCh
                     (walkerOf (restartAfter (storage.bucketObjects bucket)
                                             jobName wc runId)))
               \/ exists w',
                   restartAfter (storage.bucketObjects bucket) jobName wc runId
                   = Goes w'
                   /\ aheadWalker bucket jobName m w'
                   /\ (List.length (storage.pending (it w'))
                       < List.length (o :: rest))%nat) as Hrestart.
    { intros wc runId file Hname Hfixed Hbelow. right.
      edestruct restartAfter_ahead
        with (keep := keep) (o := o) (rest := rest) (w := wc) (runId := runId)
             (file := file)
        as (w' & Hw' & _ & Hahead' & Hlen'); try eassumption.
      exists w'. split; [exact Hw'|]. split; [exact Hahead'|]. cbn. lia. }
    assert (forall wc,
               triggers (storage.ObjName o) = true -> skipsRun now o = true ->
               (In (filepath.Base (filepath.Dir (storage.ObjName m)))
                   (jobRunProcessingCh
                      (walkerOf (restartAfterSplit (storage.bucketObjects bucket)
                                                   jobName wc (storage.ObjName o))))
                \/ exists w',
                    restartAfterSplit (storage.bucketObjects bucket) jobName wc
                                      (storage.ObjName o)
                    = Goes w'
                    /\ aheadWalker bucket jobName m w'
                    /\ (List.length (storage.pending (it w'))
                        < List.length (o :: rest))%nat)
               /\ (isProwJob o = true ->
                   In (filepath.Base (filepath.Dir (storage.ObjName m)))
                      (jobRunProcessingCh
                         (walkerOf (restartAfter
                                      (storage.bucketObjects bucket) jobName wc
                                      (filepath.Base
                                         (filepath.Dir (storage.ObjName o))))))
                   \/ exists w',
                       restartAfter (storage.bucketObjects bucket) jobName wc
                                    (filepath.Base (filepath.Dir (storage.ObjName o)))
                       = Goes w'
                       /\ aheadWalker bucket jobName m w'
                       /\ (List.length (storage.pending (it w'))
                           < List.length (o :: rest))%nat)) as Hskips.
    { intros wc Htrig Hskip.
      destruct (earlier_object_run o Hol Htrig Hlt)
        as (runId & file & Hname & Hfixed & Hsplit & Hdir & [Hbelow|[_ Hpre]]).
      - split.
        + unfold restartAfterSplit. rewrite Hsplit.
          now apply (Hrestart wc runId file).
        + intros Hprow. rewrite (Hdir Hprow). now apply (Hrestart wc runId file).
      - rewrite (m_reached o Ho Hpre Hlt) in Hskip. discriminate. }
    destruct (timeSub now (storage.Created o) >? 1 * 17 * Hour) eqn:Hold;
      [|destruct (timeSub now (storage.Created o) <? 4 * Hour) eqn:Hyoung].
    + destruct (strings.HasSuffix _ "latest-build.txt") eqn:Hlatest;
        [exact Hgoes|].
      destruct (strings.HasSuffix _ ".json") eqn:Hjson.
      { apply (Hskips consumed).
        - unfold triggers. now rewrite Hjson.
        - unfold skipsRun. cbv zeta. now rewrite Hold, Hlatest, Hjson. }
      destruct (strings.HasSuffix _ "prowjob.json") eqn:Hprow; [|exact Hgoes].
      apply (Hskips consumed); [| |exact Hprow].
      * unfold triggers. now rewrite Hprow, orb_true_r.
      * unfold skipsRun. cbv zeta. now rewrite Hold, Hlatest, Hprow, orb_true_r.
    + destruct (strings.HasSuffix _ "latest-build.txt") eqn:Hlatest;
        [exact Hgoes|].
      destruct (strings.HasSuffix _ "build-log.txt") eqn:Hlog.
      { apply (Hskips consumed).
        - unfold triggers. now rewrite Hlog, orb_true_r.
        - unfold skipsRun. cbv zeta. now rewrite Hold, Hyoung, Hlatest, Hlog. }
      destruct (strings.HasSuffix _ ".json") eqn:Hjson.
      { apply (Hskips consumed).
        - unfold triggers. now rewrite Hjson.
        - unfold skipsRun. cbv zeta.
          now rewrite Hold, Hyoung, Hlatest, Hjson, orb_true_r. }
      destruct (strings.HasSuffix _ "prowjob.json") eqn:Hprow; [|exact Hgoes].
      apply (Hskips consumed); [| |exact Hprow].
      * unfold triggers. now rewrite Hprow, orb_true_r.
      * unfold skipsRun. cbv zeta.
        now rewrite Hold, Hyoung, Hlatest, Hprow, orb_true_r.
    + destruct (strings.HasSuffix _ "prowjob.json") eqn:Hprow; [|exact Hgoes].
      assert (triggers (storage.ObjName o) = true) as Htrig
          by (unfold triggers; rewrite Hprow; now rewrite orb_true_r).
      destruct (earlier_object_run o Hol Htrig Hlt)
        as (runId & file & Hname & Hfixed & _ & Hdir & [Hbelow|[Hrun _]]).
      * rewrite (Hdir Hprow). now apply (Hrestart _ runId file).
      * left. apply restartAfter_keeps. cbn. apply in_or_app. right.
        rewrite (Hdir Hprow), Hrun. now left.
Qed.

Lemma walk_reaches fuel : forall w,
    aheadWalker bucket jobName m w ->
    (List.length (storage.pending (it w)) <= fuel)%nat ->
    In (filepath.Base (filepath.Dir (storage.ObjName m)))
       (jobRunProcessingCh
          (walkerOf (walk (storage.bucketObjects bucket) now (fun _ => false)
                          jobName fuel w))).
Proof.
  induction fuel as [|fuel IH]; intros w Hahead Hlen.
  - exfalso. destruct Hahead as (keep & Hpending & _ & _ & Hm).
    assert (In m (storage.pending (it w))) as Hin.
    { rewrite Hpending. apply filter_In. apply filter_In in m_listed. tauto. }
    destruct (storage.pending (it w)); [contradiction | cbn in Hlen; lia].
  - cbn [walk]. destruct (loopBody_ahead w Hahead) as [Hsent|(w' & Hw' & Ha' & Hl')].
    + destruct (loopBody _ _ _ _ w) as [w'|w'|w' why]; cbn [walkerOf] in Hsent;
        [now apply walk_keeps | exact Hsent | exact Hsent].
    + rewrite Hw'. apply IH; [exact Ha' | lia].
Qed.

(** A marker in the candidate band that the first listing returns and that
    is reached is sent, once the walk has had as many turns as the bucket
    has objects. *)
Lemma walker_reaches_marker startingID fuel :
  In m (storage.pending
          (storage.bucketObjects bucket (initialQuery jobName startingID))) ->
  (List.length bucket <= fuel)%nat ->
  In (filepath.Base (filepath.Dir (storage.ObjName m)))
     (jobRunProcessingCh
        (walkerOf (ListJobRunNamesOlderThanFourHours
                     (storage.bucketObjects bucket) now (fun _ => false) jobName
                     startingID fuel))).
Proof.
  intros Hfirst Hfuel. unfold ListJobRunNamesOlderThanFourHours.
  apply walk_reaches.
  - exists (storage.selects (initialQuery jobName startingID)).
    split; [reflexivity|]. split; [|split].
    + intros x Hx. unfold storage.selects in Hx. cbn in Hx.
      apply andb_prop in Hx. destruct Hx as [Hx _].
      apply andb_prop in Hx. tauto.
    + intros a b Ha Hb Hpre Hle. unfold storage.selects in *.
      cbn [storage.Prefix storage.StartOffset storage.EndOffset initialQuery] in *.
      apply andb_prop in Ha. destruct Ha as [Ha _].
      apply andb_prop in Ha. destruct Ha as [_ Ha].
      rewrite Hpre, (leb_trans _ _ _ Ha Hle). reflexivity.
    + cbn in Hfirst. apply filter_In in Hfirst. tauto.
  - cbn [startWalker it storage.pending storage.bucketObjects].
    pose proof (filter_length_le (storage.selects (initialQuery jobName startingID))
                                 bucket). lia.
Qed.

End WalkerReaches.

(** The walk does not depend on how the context is asked, only on its
    answers. *)
Lemma walk_ext Objects now ctxErrAt ctxErrAt' jobName fuel :
  (forall k, ctxErrAt k = ctxErrAt' k) ->
  forall w, walk Objects now ctxErrAt jobName fuel w
            = walk Objects now ctxErrAt' jobName fuel w.
Proof.
  intros Hext. induction fuel as [|fuel IH]; intros w; [reflexivity|].
  cbn [walk].
  assert (loopBody Objects now ctxErrAt jobName w
          = loopBody Objects now ctxErrAt' jobName w) as ->
      by (unfold loopBody; now rewrite Hext).
  destruct (loopBody Objects now ctxErrAt' jobName w); [apply IH | reflexivity..].
Qed.




(** Run ids of one width are not enough for the amended statement: the
    successor has to keep the width. With the ids 998 and 999 the cursor
    is moved from 999 to 1000, which sorts before 998, and both ids are
    sent again and again. With the 19-digit id 9999999999999999999, which
    does not fit int64, the walker panics. *)
Lemma walker_successor_width :
  (exists w,
      ListJobRunNamesOlderThanFourHours
        (storage.bucketObjects
           [objectAged "logs/e2e-aws/998/prowjob.json" 6;
            objectAged "logs/e2e-aws/999/prowjob.json" 6])
        (100 * Hour) (fun _ => false) "e2e-aws" "" 4
      = Goes w
      /\ jobRunProcessingCh w = ["998"; "999"; "998"; "999"])
  /\ (exists w why,
         ListJobRunNamesOlderThanFourHours
           (storage.bucketObjects
              [objectAged "logs/e2e-aws/9999999999999999999/prowjob.json" 6])
           (100 * Hour) (fun _ => false) "e2e-aws" "" 1
         = Crashed w why).
Proof.
  split.
  - eexists. split; vm_compute; reflexivity.
  - eexists. eexists. vm_compute. reflexivity.
Qed.

(* ===================================================================== *)
(** * Job Run Locator: every behaviour of the locator                      *)
(* ===================================================================== *)

Section RetryFacts.

Variable FindRelatedJobs : nat -> list JobRunInfo + error.
Variable ctxDone : nat -> bool.
Variable ctxErr : error.

(** A run of failed calls, each followed by a full minute of sleep, only
    moves the counters. *)
Lemma retryLoop_run k : forall errorsInARow calls,
    (forall j, (calls <= j < calls + k)%nat ->
               exists err, FindRelatedJobs j = inr err /\ ctxDone j = false) ->
    errorsInARow + Z.of_nat k <= 21 ->
    retryLoop FindRelatedJobs ctxDone ctxErr errorsInARow calls
    = retryLoop FindRelatedJobs ctxDone ctxErr
                (errorsInARow + Z.of_nat k) (calls + k).
Proof.
  induction k as [|k IH]; intros e calls Hfail Hle.
  - now rewrite Z.add_0_r, Nat.add_0_r.
  - destruct (Hfail calls ltac:(lia)) as (err & Herr & Hsleep).
    rewrite (retryLoop_fails _ _ _ _ _ _ Herr), Hsleep.
    assert ((e >? 20) = false) as -> by lia.
    rewrite IH; [|intros j Hj; apply Hfail; lia|lia].
    f_equal; lia.
Qed.

(** What the loop returns, described by the calls it made: all but the
    last one failed and were followed by a full sleep. *)
Lemma retryLoop_outcome n : forall errorsInARow calls,
    0 <= errorsInARow ->
    errorBudget errorsInARow = n ->
    let result := retryLoop FindRelatedJobs ctxDone ctxErr errorsInARow calls in
    (calls < snd result <= calls + n + 1)%nat
    /\ (forall j, (calls <= j < snd result - 1)%nat ->
                  exists err, FindRelatedJobs j = inr err /\ ctxDone j = false)
    /\ match fst result with
       | inl jobRuns => FindRelatedJobs (snd result - 1) = inl jobRuns
       | inr err =>
           exists last,
             FindRelatedJobs (snd result - 1) = inr last
             /\ ((20 < errorsInARow + Z.of_nat (snd result - 1 - calls)
                  /\ err = last)
                 \/ (errorsInARow + Z.of_nat (snd result - 1 - calls) <= 20
                     /\ ctxDone (snd result - 1) = true /\ err = ctxErr))
       end.
Proof.
  induction n as [|n IH]; intros e calls He Hn; cbv zeta.
  - destruct (FindRelatedJobs calls) as [jobRuns|err] eqn:Hcall.
    + rewrite (retryLoop_succeeds _ _ _ _ _ _ Hcall). cbn [fst snd].
      replace (S calls - 1)%nat with calls by lia.
      split; [lia|]. split; [intros j Hj; lia|exact Hcall].
    + rewrite (retryLoop_fails _ _ _ _ _ _ Hcall).
      unfold errorBudget in Hn.
      assert ((e >? 20) = true) as -> by lia.
      cbn [fst snd]. replace (S calls - 1)%nat with calls by lia.
      split; [lia|]. split; [intros j Hj; lia|].
      exists err. split; [exact Hcall|]. left. split; [lia|reflexivity].
  - destruct (FindRelatedJobs calls) as [jobRuns|err] eqn:Hcall.
    + rewrite (retryLoop_succeeds _ _ _ _ _ _ Hcall). cbn [fst snd].
      replace (S calls - 1)%nat with calls by lia.
      split; [lia|]. split; [intros j Hj; lia|exact Hcall].
    + rewrite (retryLoop_fails _ _ _ _ _ _ Hcall).
      unfold errorBudget in Hn.
      assert ((e >? 20) = false) as -> by lia.
      destruct (ctxDone calls) eqn:Hsleep.
      * cbn [fst snd]. replace (S calls - 1)%nat with calls by lia.
        split; [lia|]. split; [intros j Hj; lia|].
        exists err. split; [exact Hcall|]. right.
        split; [lia|]. split; [exact Hsleep|reflexivity].
      * specialize (IH (e + 1) (S calls) ltac:(lia)
                       ltac:(unfold errorBudget; lia)).
        cbv zeta in IH. destruct IH as (Hcalls & Hearlier & Hlast).
        split; [lia|]. split.
        { intros j Hj. destruct (Nat.eq_dec j calls) as [->|Hne].
          - now exists err.
          - apply Hearlier. lia. }
        destruct (fst (retryLoop FindRelatedJobs ctxDone ctxErr (e + 1) (S calls)))
          as [jobRuns|err']; [exact Hlast|].
        destruct Hlast as (last & Hcall' & Hwhy). exists last.
        split; [exact Hcall'|].
        destruct Hwhy as [[Hgt ->]|(Hle & Hdone & ->)].
        { left. split; [lia|reflexivity]. }
        { right. split; [lia|]. split; [exact Hdone|reflexivity]. }
Qed.

(** X1. Whatever the locator does and whenever the context is cancelled,
    findJobRunsWithRetry makes at least one and at most twenty-two calls.
    Every call but the last failed and was followed by a full minute of
    sleep. Runs that are returned are those of the last call; an error
    that is returned is either the error of the twenty-second call, or the
    context's error after a failed call whose sleep was cut short. *)
Theorem findJobRunsWithRetry_outcome :
  let result := findJobRunsWithRetry FindRelatedJobs ctxDone ctxErr in
  (1 <= snd result <= 22)%nat
  /\ (forall j, (j < snd result - 1)%nat ->
                exists err, FindRelatedJobs j = inr err /\ ctxDone j = false)
  /\ match fst result with
     | inl jobRuns => FindRelatedJobs (snd result - 1) = inl jobRuns
     | inr err =>
         exists last,
           FindRelatedJobs (snd result - 1) = inr last
           /\ ((snd result = 22%nat /\ err = last)
               \/ ((snd result <= 21)%nat
                   /\ ctxDone (snd result - 1) = true /\ err = ctxErr))
     end.
Proof.
  cbv zeta. unfold findJobRunsWithRetry.
  destruct (retryLoop_outcome 21 0 0 ltac:(lia) eq_refl) as (Hcalls & Hearlier & Hlast).
  cbv zeta in Hcalls, Hearlier, Hlast.
  split; [lia|]. split; [intros j Hj; apply Hearlier; lia|].
  destruct (fst (retryLoop FindRelatedJobs ctxDone ctxErr 0 0)) as [jobRuns|err];
    [exact Hlast|].
  destruct Hlast as (last & Hcall & Hwhy). exists last. split; [exact Hcall|].
  destruct Hwhy as [[Hgt ->]|(Hle & Hdone & ->)].
  - left. split; [lia|reflexivity].
  - right. split; [lia|]. split; [exact Hdone|reflexivity].
Qed.

(** X2. The first successful call is what the function returns, as long
    as it is one of the first twenty-two calls and no sleep before it is
    cut short by the context: when the calls numbered 0 to k - 1 fail and
    call k succeeds (k at most twenty-one), its runs are returned with no
    error after k + 1 calls. *)
Theorem findJobRunsWithRetry_first_success (k : nat) (jobRuns : list JobRunInfo) :
  (k <= 21)%nat ->
  FindRelatedJobs k = inl jobRuns ->
  (forall j, (j < k)%nat ->
             exists err, FindRelatedJobs j = inr err /\ ctxDone j = false) ->
  findJobRunsWithRetry FindRelatedJobs ctxDone ctxErr = (inl jobRuns, S k).
Proof.
  intros Hk Hcall Hfail. unfold findJobRunsWithRetry.
  rewrite (retryLoop_run k 0 0); [|intros j Hj; apply Hfail; lia|lia].
  cbn [Nat.add]. now rewrite (retryLoop_succeeds _ _ _ _ _ _ Hcall).
Qed.

(** X3. When the calls numbered 0 to k all fail (k at most twenty) and
    the context is done during the sleep that follows call k, the function
    stops there: it returns the context's error in place of the locator's,
    and the locator is not called again, whatever a later call would have
    returned. *)
Theorem findJobRunsWithRetry_cancelled (k : nat) (err : error) :
  (k <= 20)%nat ->
  FindRelatedJobs k = inr err ->
  ctxDone k = true ->
  (forall j, (j < k)%nat ->
             exists err', FindRelatedJobs j = inr err' /\ ctxDone j = false) ->
  findJobRunsWithRetry FindRelatedJobs ctxDone ctxErr = (inr ctxErr, S k).
Proof.
  intros Hk Hcall Hdone Hfail. unfold findJobRunsWithRetry.
  rewrite (retryLoop_run k 0 0); [|intros j Hj; apply Hfail; lia|lia].
  cbn [Nat.add]. rewrite (retryLoop_fails _ _ _ _ _ _ Hcall), Hdone.
  now assert ((0 + Z.of_nat k >? 20) = false) as -> by lia.
Qed.

End RetryFacts.

Lemma findJobRunsWithRetry_first_success_witness :
  findJobRunsWithRetry
    (fun k => if (k <? 3)%nat then inr "bigquery unavailable" else inl [])
    (fun _ => false) "context deadline exceeded"
  = (inl [], 4%nat).
Proof.
  apply (findJobRunsWithRetry_first_success
           (fun k => if (k <? 3)%nat then inr "bigquery unavailable" else inl [])
           (fun _ => false) "context deadline exceeded" 3 []).
  - lia.
  - reflexivity.
  - intros j Hj. exists "bigquery unavailable".
    destruct j as [|[|[|j]]]; [split; reflexivity ..|lia].
Defined.

Lemma findJobRunsWithRetry_cancelled_witness :
  findJobRunsWithRetry
    (fun k => if (k <? 2)%nat then inr "bigquery unavailable" else inl [])
    (fun k => (k =? 1)%nat) "context deadline exceeded"
  = (inr "context deadline exceeded", 2%nat).
Proof.
  apply (findJobRunsWithRetry_cancelled
           (fun k => if (k <? 2)%nat then inr "bigquery unavailable" else inl [])
           (fun k => (k =? 1)%nat) "context deadline exceeded" 1
           "bigquery unavailable").
  - lia.
  - reflexivity.
  - reflexivity.
  - intros j Hj. exists "bigquery unavailable".
    destruct j as [|j]; [split; reflexivity|lia].
Defined.

(* ===================================================================== *)
(** * Threshold Checker: the details collected per run                     *)
(* ===================================================================== *)

Lemma runsWithVerdict_cons kind tid entry rest :
  runsWithVerdict kind tid (entry :: rest)
  = ((if kind (runVerdict tid (snd entry)) then [refOf (fst entry)] else [])
       ++ runsWithVerdict kind tid rest)%list.
Proof.
  unfold runsWithVerdict. cbn [filter].
  now destruct (kind (runVerdict tid (snd entry))).
Qed.

(** The outer loop files every run under its verdict and touches nothing
    else of the details. *)
Lemma scanJobRuns_details r runs : forall details successCount,
    let collected := fst (scanJobRuns r runs details successCount) in
    Passes collected
    = (Passes details ++ runsWithVerdict isPassed (id r) runs)%list
    /\ Failures collected
       = (Failures details ++ runsWithVerdict isFailed (id r) runs)%list
    /\ Skips collected
       = (Skips details ++ runsWithVerdict isSkipped (id r) runs)%list
    /\ detName collected = detName details
    /\ detTestSuiteName collected = detTestSuiteName details
    /\ detSummary collected = detSummary details.
Proof.
  induction runs as [|[jobRun suites] rest IH]; intros details successCount;
    cbv zeta.
  - cbn. now rewrite !app_nil_r.
  - cbn [scanJobRuns]. rewrite scanSuites_verdict.
    rewrite !runsWithVerdict_cons. cbn [fst snd].
    fold (runVerdict (id r) suites).
    specialize (IH (addTestResultToDetails details jobRun
                                           (runVerdict (id r) suites))).
    cbv zeta in IH.
    match goal with
    | |- context [scanJobRuns r rest ?d ?c] =>
        destruct (IH c) as (Hp & Hf & Hs & Hn & Ht & Hsum)
    end.
    rewrite Hp, Hf, Hs, Hn, Ht, Hsum.
    destruct (runVerdict (id r) suites); cbn; rewrite <- ?app_assoc;
      repeat split; reflexivity.
Qed.

Lemma lenZ_app {A : Type} (l l' : list A) : lenZ (l ++ l') = lenZ l + lenZ l'.
Proof. unfold lenZ. rewrite length_app. lia. Qed.

Lemma runsWithVerdict_total tid runs :
  lenZ (runsWithVerdict isPassed tid runs)
  + lenZ (runsWithVerdict isFailed tid runs)
  + lenZ (runsWithVerdict isSkipped tid runs) = lenZ runs.
Proof.
  induction runs as [|entry rest IH]; [reflexivity|].
  rewrite !runsWithVerdict_cons, !lenZ_app, lenZ_cons.
  destruct (runVerdict tid (snd entry)); cbn [isPassed isFailed isSkipped];
    change (lenZ (@nil TestCaseRef)) with 0;
    change (lenZ [refOf (fst entry)]) with 1; lia.
Qed.

Lemma runsWithVerdict_passedRuns tid runs :
  lenZ (runsWithVerdict isPassed tid runs) = passedRuns tid runs.
Proof.
  unfold runsWithVerdict, passedRuns, lenZ. now rewrite length_map.
Qed.

(** X4. The details that CheckTestCase hands to the YAML encoder list
    every run of the map exactly once: under Passes the runs whose verdict
    is passed, under Failures those whose verdict is failed, under Skips
    all the others, each group in the order the map was iterated. The
    three groups add up to the total of the summary line. *)
Theorem CheckTestCase_details_partition sep r jobRunJunits :
  let details := collectedDetails sep r jobRunJunits in
  Passes details = runsWithVerdict isPassed (id r) jobRunJunits
  /\ Failures details = runsWithVerdict isFailed (id r) jobRunJunits
  /\ Skips details = runsWithVerdict isSkipped (id r) jobRunJunits
  /\ lenZ (Passes details) + lenZ (Failures details) + lenZ (Skips details)
     = lenZ jobRunJunits
  /\ detSummary details
     = summaryOf (lenZ jobRunJunits)
                 {| detName := testName (id r);
                    detTestSuiteName := stringsJoin (testSuites (id r)) sep;
                    detSummary := "";
                    Passes := runsWithVerdict isPassed (id r) jobRunJunits;
                    Failures := runsWithVerdict isFailed (id r) jobRunJunits;
                    Skips := runsWithVerdict isSkipped (id r) jobRunJunits |}.
Proof.
  cbv zeta. unfold collectedDetails.
  destruct (scanJobRuns_details r jobRunJunits (initialDetails sep r) 0)
    as (Hp & Hf & Hs & _).
  cbn [withSummary Passes Failures Skips detSummary initialDetails app] in *.
  rewrite Hp, Hf, Hs.
  repeat split; try reflexivity.
  - apply runsWithVerdict_total.
  - unfold summaryOf. cbn [Passes Failures Skips]. now rewrite Hp, Hf, Hs.
Qed.

(** X5. As long as the number of runs fits Go's int, the success count
    that CheckTestCase compares with the required minimum (and prints in
    the failure message) is the number of entries it lists under Passes. *)
Theorem CheckTestCase_successCount_is_passes sep r jobRunJunits :
  lenZ jobRunJunits < 2 ^ 63 ->
  successCountOf sep r jobRunJunits
  = lenZ (Passes (collectedDetails sep r jobRunJunits)).
Proof.
  intros Hlen. unfold successCountOf, collectedDetails.
  rewrite scanJobRuns_successCount; [|lia|lia].
  destruct (scanJobRuns_details r jobRunJunits (initialDetails sep r) 0)
    as (Hp & _).
  cbn [withSummary Passes initialDetails app] in *.
  rewrite Hp, runsWithVerdict_passedRuns. lia.
Qed.

Lemma CheckTestCase_successCount_is_passes_witness :
  let r := {| id := {| testSuites := ["cluster install"];
                       testName := "install should succeed: overall" |};
              testNameSuffix := ""; requiredNumberOfPasses := 2 |} in
  let installed :=
    {| Suites := [mkTestSuite "cluster install" 1 0
                    [{| tcName := "install should succeed: overall";
                        SystemOut := ""; tcFailureOutput := None |}] []] |} in
  let runs :=
    [({| GetJobName := "e2e-aws"; GetJobRunID := "1520000000000000001";
         GetHumanURL := ""; GetGCSArtifactURL := "" |}, installed);
     ({| GetJobName := "e2e-gcp"; GetJobRunID := "1520000000000000002";
         GetHumanURL := ""; GetGCSArtifactURL := "" |}, {| Suites := [] |})] in
  lenZ runs < 2 ^ 63
  /\ successCountOf "|||" r runs = lenZ (Passes (collectedDetails "|||" r runs))
  /\ successCountOf "|||" r runs = 1.
Proof.
  cbv zeta. split; [reflexivity|]. split; [|reflexivity].
  apply CheckTestCase_successCount_is_passes. reflexivity.
Defined.

(* ===================================================================== *)
(** * updateTestCountsInSuite on any suite tree                            *)
(* ===================================================================== *)

Lemma map_ext_Forall_eq {A B : Type} (f g : A -> B) l :
  Forall (fun x => f x = g x) l -> map f l = map g l.
Proof.
  induction 1 as [|x l Hx _ IH]; [reflexivity|]. cbn. now rewrite Hx, IH.
Qed.

Lemma updateTestCountsInSuite_idempotent s :
  updateTestCountsInSuite (updateTestCountsInSuite s) = updateTestCountsInSuite s.
Proof.
  induction s as [n nt nf cases children IH] using TestSuite_ind'.
  cbn [updateTestCountsInSuite]. rewrite map_map.
  now rewrite (map_ext_Forall_eq _ _ _ IH).
Qed.

Lemma resetCounts_update s : resetCounts (updateTestCountsInSuite s) = resetCounts s.
Proof.
  induction s as [n nt nf cases children IH] using TestSuite_ind'.
  cbn [updateTestCountsInSuite resetCounts]. rewrite map_map.
  now rewrite (map_ext_Forall_eq _ _ _ IH).
Qed.

Lemma update_resetCounts s :
  updateTestCountsInSuite (resetCounts s) = updateTestCountsInSuite s.
Proof.
  induction s as [n nt nf cases children IH] using TestSuite_ind'.
  cbn [updateTestCountsInSuite resetCounts]. rewrite map_map.
  now rewrite (map_ext_Forall_eq _ _ _ IH).
Qed.

(** X6. updateTestCountsInSuite writes the counters and nothing else: the
    names, the test cases and the shape of the tree are left as they were.
    What it writes does not depend on the counters found in the tree, so
    two trees that differ only in their counters are updated to the same
    tree, and updating a second time changes nothing. *)
Theorem updateTestCountsInSuite_only_counters s :
  resetCounts (updateTestCountsInSuite s) = resetCounts s
  /\ (forall s', resetCounts s' = resetCounts s ->
                 updateTestCountsInSuite s' = updateTestCountsInSuite s)
  /\ updateTestCountsInSuite (updateTestCountsInSuite s)
     = updateTestCountsInSuite s.
Proof.
  split; [apply resetCounts_update|]. split.
  - intros s' Hsame.
    now rewrite <- (update_resetCounts s'), Hsame, update_resetCounts.
  - apply updateTestCountsInSuite_idempotent.
Qed.

(** X7. On every suite tree with fewer than 2^64 test cases, whatever its
    depth and whatever counters it held, updateTestCountsInSuite leaves
    each suite with NumTests equal to its own test cases plus its
    children's NumTests, and NumFailed likewise for the test cases with
    failure output; the root then counts all test cases of the tree, and
    the failed ones never exceed the total. *)
Theorem updateTestCountsInSuite_any_tree s :
  totalCases s < 2 ^ 64 ->
  Forall countsOk (allSuites (updateTestCountsInSuite s))
  /\ NumTests (updateTestCountsInSuite s) = totalCases s
  /\ NumFailed (updateTestCountsInSuite s) = totalFailed s
  /\ 0 <= NumFailed (updateTestCountsInSuite s)
     <= NumTests (updateTestCountsInSuite s).
Proof.
  intros Hsmall.
  destruct (updateTestCountsInSuite_exact s Hsmall) as (Ht & Hf & Hok).
  split; [exact Hok|]. split; [exact Ht|]. split; [exact Hf|].
  rewrite Ht, Hf. apply totalFailed_bounds.
Qed.

Lemma updateTestCountsInSuite_any_tree_witness :
  let failing := {| tcName := "b"; SystemOut := "";
                    tcFailureOutput := Some {| Message := "m"; Output := "" |} |} in
  let passing := {| tcName := "a"; SystemOut := ""; tcFailureOutput := None |} in
  let tree :=
    mkTestSuite "root" 7 7 [passing]
      [mkTestSuite "left" 0 9 [failing; passing] [];
       mkTestSuite "right" 3 0 []
         [mkTestSuite "leaf" 0 0 [failing] []]] in
  totalCases tree < 2 ^ 64
  /\ Forall countsOk (allSuites (updateTestCountsInSuite tree))
  /\ NumTests (updateTestCountsInSuite tree) = 4
  /\ NumFailed (updateTestCountsInSuite tree) = 2.
Proof.
  cbv zeta. split; [reflexivity|].
  match goal with
  | |- Forall _ (allSuites (updateTestCountsInSuite ?t)) /\ _ =>
      destruct (updateTestCountsInSuite_any_tree t eq_refl) as (Hok & Ht & Hf & _)
  end.
  split; [exact Hok|]. split; [exact Ht|exact Hf].
Defined.

(* ===================================================================== *)
(** * Suite Matcher: a verdict comes from a test case on the path          *)
(* ===================================================================== *)

Lemma firstDecisive_in verdicts :
  firstDecisive verdicts <> testSkipped -> In (firstDecisive verdicts) verdicts.
Proof.
  induction verdicts as [|v rest IH]; cbn [firstDecisive]; [congruence|].
  destruct v; intros H; [right; now apply IH|now left|now left].
Qed.

Lemma getTestStatus_on_path s : forall id,
    getTestStatus id s <> testSkipped ->
    exists t tc,
      onPath (testSuites id) s t
      /\ In tc (TestCases t)
      /\ tcName tc = testName id
      /\ getTestStatus id s = caseVerdict tc.
Proof.
  induction s as [n nt nf cases children IH] using TestSuite_ind'.
  intros id. rewrite getTestStatus_unfold.
  destruct (testSuites id) as [|s0 tail] eqn:Hpath; [congruence|].
  destruct (s0 =? n)%string eqn:Hname; cbn [negb]; [|congruence].
  apply String.eqb_eq in Hname. subst s0.
  destruct tail as [|n0 tail].
  - rewrite scanTestCases_find.
    destruct (find _ cases) as [tc|] eqn:Hfind; [|congruence].
    intros _. apply find_some in Hfind. destruct Hfind as [Hin Heq].
    apply String.eqb_eq in Heq.
    exists (mkTestSuite n nt nf cases children), tc.
    split; [now split|]. now repeat split.
  - intros Hdecided. pose proof (firstDecisive_in _ Hdecided) as Hmember.
    apply in_map_iff in Hmember. destruct Hmember as (c & Hc & Hin).
    apply filter_In in Hin. destruct Hin as [Hin Hn0].
    rewrite Forall_forall in IH.
    rewrite <- Hc in Hdecided.
    destruct (IH c Hin _ Hdecided) as (t & tc & Hpath' & Hcase & Htc & Hverdict).
    cbn [testSuites testName] in Hpath', Htc.
    exists t, tc. split.
    { split; [reflexivity|]. exists c. now split. }
    split; [exact Hcase|]. split; [exact Htc|].
    now rewrite <- Hc.
Qed.

(** X8. getTestStatus reports passed or failed only for a test case that
    is there: whenever the status is not skipped, a chain of suites that
    starts at the given suite and bears exactly the identifier's suite
    names, one per level, leads to a suite holding a test case with the
    identifier's test name, and the status is the verdict of that test
    case (failed with failure output, passed without). *)
Theorem getTestStatus_found id s :
  getTestStatus id s <> testSkipped ->
  exists t tc,
    onPath (testSuites id) s t
    /\ In t (allSuites s)
    /\ In tc (TestCases t)
    /\ tcName tc = testName id
    /\ getTestStatus id s = caseVerdict tc.
Proof.
  intros Hdecided.
  destruct (getTestStatus_on_path s id Hdecided) as (t & tc & Hpath & Hcase & Htc & Hv).
  exists t, tc. split; [exact Hpath|]. split; [|now repeat split].
  clear - Hpath. revert s Hpath.
  induction (testSuites id) as [|n rest IH]; intros s Hpath; [destruct Hpath|].
  destruct Hpath as [_ Hrest]. destruct s as [sn nt nf cases children].
  cbn [allSuites]. destruct rest as [|n' rest].
  - left. now symmetry.
  - destruct Hrest as (c & Hc & Hpath). right.
    apply in_flat_map. exists c. split; [exact Hc|]. now apply IH.
Qed.

Lemma getTestStatus_found_witness :
  let id := {| testSuites := ["install"; "network"]; testName := "dns-check" |} in
  let s :=
    mkTestSuite "install" 0 0 []
      [mkTestSuite "storage" 0 0
         [{| tcName := "dns-check"; SystemOut := ""; tcFailureOutput := None |}] [];
       mkTestSuite "network" 0 0
         [{| tcName := "dns-check"; SystemOut := "";
             tcFailureOutput := Some {| Message := "timeout"; Output := "" |} |}]
         []] in
  getTestStatus id s <> testSkipped
  /\ exists t tc,
      onPath (testSuites id) s t
      /\ In t (allSuites s)
      /\ In tc (TestCases t)
      /\ tcName tc = testName id
      /\ getTestStatus id s = caseVerdict tc.
Proof.
  cbv zeta.
  assert (getTestStatus
            {| testSuites := ["install"; "network"]; testName := "dns-check" |}
            (mkTestSuite "install" 0 0 []
               [mkTestSuite "storage" 0 0
                  [{| tcName := "dns-check"; SystemOut := "";
                      tcFailureOutput := None |}] [];
                mkTestSuite "network" 0 0
                  [{| tcName := "dns-check"; SystemOut := "";
                      tcFailureOutput := Some {| Message := "timeout";
                                                 Output := "" |} |}] []])
          <> testSkipped) as Hdecided.
  { vm_compute. discriminate. }
  split; [exact Hdecided|].
  exact (getTestStatus_found _ _ Hdecided).
Defined.

(* ===================================================================== *)
(** * NextJobRunID applied to its own result                               *)
(* ===================================================================== *)

Lemma parseUintLoop_nonneg s : forall n v,
    0 <= n -> strconv.parseUintLoop s n = inl v -> 0 <= v.
Proof.
  induction s as [|c rest IH]; intros n v Hn; cbn [strconv.parseUintLoop].
  - intros [= <-]. exact Hn.
  - destruct (strconv.is_digit c) eqn:Hd; cbn [negb]; [|discriminate].
    destruct (n >=? _); [discriminate|].
    destruct (_ >? _); [discriminate|].
    apply IH. pose proof (is_digit_val c Hd). lia.
Qed.

Lemma ParseUint_nonneg s v : strconv.ParseUint s = inl v -> 0 <= v.
Proof.
  unfold strconv.ParseUint. destruct s; [discriminate|].
  apply parseUintLoop_nonneg. lia.
Qed.

Lemma ParseInt_range s v :
  strconv.ParseInt s = inl v -> - 2 ^ 63 <= v < 2 ^ 63.
Proof.
  unfold strconv.ParseInt. destruct s as [|c rest]; [discriminate|].
  destruct (Ascii.eqb c "+"); [|destruct (Ascii.eqb c "-")]; cbv zeta beta iota.
  all: match goal with
       | |- context [strconv.ParseUint ?body] =>
           destruct (strconv.ParseUint body) as [un|[|]] eqn:Hun;
             [apply ParseUint_nonneg in Hun|discriminate|discriminate]
       end.
  all: cbn [negb andb].
  - destruct (un >=? 2 ^ 63) eqn:Hge; [discriminate|]. intros [= <-]. lia.
  - destruct (un >? 2 ^ 63) eqn:Hgt; [discriminate|]. intros [= <-]. lia.
  - destruct (un >=? 2 ^ 63) eqn:Hge; [discriminate|]. intros [= <-]. lia.
Qed.

Lemma formatDigits_nonempty fuel : forall u acc,
    acc <> "" -> strconv.formatDigits fuel u acc <> "".
Proof.
  induction fuel as [|fuel IH]; intros u acc Hacc; [exact Hacc|].
  cbn [strconv.formatDigits]. destruct (u <? 10); [discriminate|].
  apply IH. discriminate.
Qed.

Lemma formatDigits_S_nonempty fuel u acc :
  strconv.formatDigits (S fuel) u acc <> "".
Proof.
  change (strconv.formatDigits (S fuel) u acc)
    with (let acc' := String (strconv.digit_char (u mod 10)) acc in
          if u <? 10 then acc' else strconv.formatDigits fuel (u / 10) acc').
  cbv zeta. destruct (u <? 10); [discriminate|].
  apply formatDigits_nonempty. discriminate.
Qed.

Lemma formatUint_nonempty u : strconv.formatUint u <> "".
Proof. apply (formatDigits_S_nonempty 19). Qed.

Lemma formatUint_digits u :
  0 <= u < 2 ^ 64 ->
  strconv.allDigits (strconv.formatUint u) = true
  /\ strconv.decimalValue (strconv.formatUint u) 0 = u.
Proof.
  intros Hu. unfold strconv.formatUint. split.
  - apply formatDigits_allDigits; [lia|reflexivity].
  - rewrite formatDigits_value; [cbn; lia|].
    change (10 ^ Z.of_nat 20) with 100000000000000000000.
    change (2 ^ 64) with 18446744073709551616 in Hu. lia.
Qed.

(** Printing an int64 and parsing the text gives the value back. *)
Lemma ParseInt_formatInt i :
  - 2 ^ 63 <= i < 2 ^ 63 -> strconv.ParseInt (strconv.formatInt i) = inl i.
Proof.
  intros Hi. unfold strconv.formatInt.
  destruct (i <? 0) eqn:Hneg.
  - destruct (formatUint_digits (- i)) as [Hd Hv];
      [change (2 ^ 64) with 18446744073709551616;
       change (2 ^ 63) with 9223372036854775808 in Hi; lia|].
    unfold strconv.ParseInt.
    change (Ascii.eqb "-" "+") with false. change (Ascii.eqb "-" "-") with true.
    cbv zeta beta iota.
    assert (strconv.ParseUint (strconv.formatUint (- i)) = inl (- i)) as ->.
    { unfold strconv.ParseUint.
      pose proof (formatUint_nonempty (- i)) as Hne.
      assert (strconv.parseUintLoop (strconv.formatUint (- i)) 0 = inl (- i))
        as Hloop.
      { rewrite parseUintLoop_digits; [now rewrite Hv|exact Hd|lia|].
        rewrite Hv. change (2 ^ 64) with 18446744073709551616.
        change (2 ^ 63) with 9223372036854775808 in Hi. lia. }
      destruct (strconv.formatUint (- i)); [congruence|exact Hloop]. }
    cbn [negb andb].
    assert ((- i >? 2 ^ 63) = false) as -> by lia.
    f_equal. lia.
  - destruct (formatUint_digits i) as [Hd Hv];
      [change (2 ^ 64) with 18446744073709551616;
       change (2 ^ 63) with 9223372036854775808 in Hi; lia|].
    rewrite ParseInt_digits; [|apply formatUint_nonempty|exact Hd].
    rewrite Hv. now assert ((i <? 2 ^ 63) = true) as -> by lia.
Qed.

Lemma wrap_int64_range z : - 2 ^ 63 <= GoInt.wrap_int64 z < 2 ^ 63.
Proof.
  unfold GoInt.wrap_int64.
  pose proof (Z.mod_pos_bound (z + 2 ^ 63) (2 ^ 64) ltac:(lia)).
  change (2 ^ 64) with (2 * 2 ^ 63) in *. lia.
Qed.

Lemma formatInt_nonempty i : strconv.formatInt i <> "".
Proof.
  unfold strconv.formatInt. destruct (i <? 0); [discriminate|].
  apply formatUint_nonempty.
Qed.

(** X9. NextJobRunID never fails on an identifier it has produced. Its
    result is the decimal text of an int64 value, which ParseInt reads
    back: 0 for the empty identifier, and otherwise the parsed identifier
    plus one in int64 arithmetic (wrapping from the largest int64 to the
    smallest, whose text has a minus sign). Hence NextJobRunID can be
    applied again to the result, and returns. *)
Theorem NextJobRunID_parses_back curr next :
  NextJobRunID curr = Returns next ->
  exists v,
    strconv.ParseInt next = inl v
    /\ next = strconv.formatInt v
    /\ match strconv.ParseInt curr with
       | inl u => v = GoInt.wrap_int64 (u + 1)
       | inr _ => curr = "" /\ v = 0
       end
    /\ NextJobRunID next = Returns (strconv.formatInt (GoInt.wrap_int64 (v + 1))).
Proof.
  unfold NextJobRunID at 1.
  destruct (String.length curr =? 0)%nat eqn:Hlen.
  - intros [= <-]. exists 0.
    apply Nat.eqb_eq in Hlen. destruct curr; [|discriminate Hlen].
    repeat split; reflexivity.
  - destruct (strconv.ParseInt curr) as [u|[|]] eqn:Hparse; [|discriminate ..].
    intros [= <-]. exists (GoInt.wrap_int64 (u + 1)).
    pose proof (wrap_int64_range (u + 1)) as Hrange.
    pose proof (ParseInt_formatInt _ Hrange) as Hback.
    split; [exact Hback|]. split; [reflexivity|]. split; [reflexivity|].
    unfold NextJobRunID. rewrite Hback.
    pose proof (formatInt_nonempty (GoInt.wrap_int64 (u + 1))) as Hne.
    destruct (strconv.formatInt (GoInt.wrap_int64 (u + 1))); [congruence|].
    reflexivity.
Qed.

Lemma NextJobRunID_parses_back_witness :
  NextJobRunID "9223372036854775807" = Returns "-9223372036854775808"
  /\ exists v,
      strconv.ParseInt "-9223372036854775808" = inl v
      /\ "-9223372036854775808" = strconv.formatInt v
      /\ match strconv.ParseInt "9223372036854775807" with
         | inl u => v = GoInt.wrap_int64 (u + 1)
         | inr _ => "9223372036854775807" = "" /\ v = 0
         end
      /\ NextJobRunID "-9223372036854775808"
         = Returns (strconv.formatInt (GoInt.wrap_int64 (v + 1))).
Proof.
  split; [reflexivity|].
  apply (NextJobRunID_parses_back "9223372036854775807" "-9223372036854775808").
  reflexivity.
Defined.

(* ===================================================================== *)
(** * Run Resolver: the job run that is returned                           *)
(* ===================================================================== *)

Lemma last_cons_default {A : Type} (l : list A) : forall x d,
    last (x :: l) d = last l x.
Proof.
  induction l as [|y l IH]; intros x d; [reflexivity|].
  change (last (x :: y :: l) d) with (last (y :: l) d).
  now rewrite !IH.
Qed.

(** Once the job run is allocated, the loop only sets its prowjob path and
    appends junit paths. *)
Lemma classifyObjects_allocated root jobName objs : forall jr,
    classifyObjects root jobName objs (Some jr)
    = Some {| jrRootLocation := jrRootLocation jr;
              jrJobName := jrJobName jr;
              jrJobRunID := jrJobRunID jr;
              GetGCSProwJobPath :=
                last (map storage.ObjName (filter isProwJob objs))
                     (GetGCSProwJobPath jr);
              GetGCSJunitPaths :=
                (GetGCSJunitPaths jr
                   ++ map storage.ObjName (filter isJunitFile objs))%list |}.
Proof.
  induction objs as [|attrs rest IH]; intros jr.
  - cbn. rewrite app_nil_r. now destruct jr.
  - cbn [classifyObjects filter]. unfold isJunitFile at 1.
    change (strings.HasSuffix (storage.ObjName attrs) "prowjob.json")
      with (isProwJob attrs).
    destruct (isProwJob attrs).
    + rewrite IH. cbn [negb andb map SetGCSProwJobPath jrRootLocation jrJobName
                       jrJobRunID GetGCSProwJobPath GetGCSJunitPaths].
      now rewrite last_cons_default.
    + cbn [negb andb].
      destruct (strings.HasSuffix (storage.ObjName attrs) ".xml"
                && strings.Contains (storage.ObjName attrs) "/junit");
        cbn [andb]; [|apply IH].
      destruct (Nat.ltb_spec (List.length (strings.Split (storage.ObjName attrs) "/")) 4)
        as [Hshort|Hlong].
      * assert ((4 <=? List.length (strings.Split (storage.ObjName attrs) "/"))%nat
                = false) as -> by (apply Nat.leb_gt; lia).
        apply IH.
      * assert ((4 <=? List.length (strings.Split (storage.ObjName attrs) "/"))%nat
                = true) as -> by (apply Nat.leb_le; lia).
        rewrite IH. cbn [map AddGCSJunitPaths jrRootLocation jrJobName
                         jrJobRunID GetGCSProwJobPath GetGCSJunitPaths].
        now rewrite <- app_assoc.
Qed.

(** The job run is allocated at the first prowjob.json or junit file, with
    the run id read from that object's name. *)
Lemma classifyObjects_first root jobName objs :
  classifyObjects root jobName objs None
  = match filter (fun o => isProwJob o || isJunitFile o) objs with
    | [] => None
    | first :: _ =>
        classifyObjects root jobName objs
                        (Some (NewGCSJobRun root jobName (runIdOfObject first)))
    end.
Proof.
  induction objs as [|attrs rest IH]; [reflexivity|].
  cbn [classifyObjects filter]. unfold isJunitFile at 1.
  change (strings.HasSuffix (storage.ObjName attrs) "prowjob.json")
    with (isProwJob attrs).
  destruct (isProwJob attrs) eqn:Hprow.
  - cbn [negb andb orb]. unfold runIdOfObject. now rewrite Hprow.
  - cbn [negb andb orb].
    destruct (strings.HasSuffix (storage.ObjName attrs) ".xml"
              && strings.Contains (storage.ObjName attrs) "/junit");
      cbn [andb].
    + destruct (Nat.ltb_spec (List.length (strings.Split (storage.ObjName attrs) "/")) 4)
        as [Hshort|Hlong].
      * assert ((4 <=? List.length (strings.Split (storage.ObjName attrs) "/"))%nat
                = false) as -> by (apply Nat.leb_gt; lia).
        rewrite IH. now destruct (filter _ rest).
      * assert ((4 <=? List.length (strings.Split (storage.ObjName attrs) "/"))%nat
                = true) as -> by (apply Nat.leb_le; lia).
        unfold runIdOfObject. now rewrite Hprow.
    + rewrite IH. now destruct (filter _ rest).
Qed.

(** X10. A job run that ReadJobRunFromGCS returns is put together from
    the listing alone: its run id is read from the name of the first
    listed object that is a prowjob.json or a junit file (not taken from
    the jobRunID argument), its prowjob path is the name of the last
    prowjob.json listed, and its junit paths are the names of the junit
    files in listing order; the listing did not fail, held a prowjob.json,
    and the prowjob of the run could be fetched. *)
Theorem ReadJobRunFromGCS_job_run
        (Objects : storage.Query -> storage.ObjectIterator) (ProwJob : Type)
        (GetProwJob : gcsJobRun -> ProwJob + error) (quoted : string -> string)
        (jobGCSRootLocation jobName jobRunID : string) (jr : gcsJobRun)
        (err : option error) :
  ReadJobRunFromGCS Objects ProwJob GetProwJob quoted
                    jobGCSRootLocation jobName jobRunID
  = Returns (Some jr, err) ->
  exists next first more prowJob,
    NextJobRunID jobRunID = Returns next
    /\ let listing :=
         Objects {| storage.Prefix := jobGCSRootLocation;
                    storage.StartOffset := jobGCSRootLocation ++ "/" ++ jobRunID;
                    storage.EndOffset := jobGCSRootLocation ++ "/" ++ next |} in
       let listed := storage.pending listing in
       err = None
       /\ storage.ending listing = None
       /\ filter (fun o => isProwJob o || isJunitFile o) listed = first :: more
       /\ Exists (fun o => isProwJob o = true) listed
       /\ jr = {| jrRootLocation := jobGCSRootLocation;
                  jrJobName := jobName;
                  jrJobRunID := runIdOfObject first;
                  GetGCSProwJobPath :=
                    last (map storage.ObjName (filter isProwJob listed)) "";
                  GetGCSJunitPaths :=
                    map storage.ObjName (filter isJunitFile listed) |}
       /\ GetProwJob jr = inl prowJob.
Proof.
  unfold ReadJobRunFromGCS.
  destruct (NextJobRunID jobRunID) as [next|why]; [|discriminate].
  cbv zeta.
  set (listing := Objects _).
  destruct (storage.ending listing) as [e|] eqn:Hending; [discriminate|].
  rewrite classifyObjects_first.
  destruct (filter (fun o => isProwJob o || isJunitFile o) (storage.pending listing))
    as [|first more] eqn:Hrelevant; [discriminate|].
  rewrite classifyObjects_allocated.
  cbn [NewGCSJobRun jrRootLocation jrJobName jrJobRunID GetGCSProwJobPath
                    GetGCSJunitPaths app].
  destruct (String.length (last _ "") =? 0)%nat eqn:Hpath; [discriminate|].
  destruct (GetProwJob _) as [prowJob|e] eqn:Hfetch; [|discriminate].
  intros Hret. injection Hret as Hjr Herr. subst jr err.
  exists next, first, more, prowJob.
  split; [reflexivity|]. split; [reflexivity|]. split; [exact Hending|].
  split; [exact Hrelevant|]. split; [|split; [reflexivity|exact Hfetch]].
  apply Nat.eqb_neq in Hpath.
  destruct (filter isProwJob (storage.pending listing)) as [|p ps] eqn:Hprow;
    [now cbn in Hpath|].
  apply Exists_exists. exists p.
  assert (In p (filter isProwJob (storage.pending listing))) as Hin
      by (rewrite Hprow; now left).
  apply filter_In in Hin. exact Hin.
Qed.

(* ===================================================================== *)
(** * Suffixes of object names                                             *)
(* ===================================================================== *)

Lemma length_append_string a b :
  String.length (a ++ b) = (String.length a + String.length b)%nat.
Proof. induction a as [|c a IH]; [reflexivity|]. cbn. now rewrite IH. Qed.

Lemma substring_all s : substring 0 (String.length s) s = s.
Proof. induction s as [|c s IH]; [reflexivity|]. cbn. now rewrite IH. Qed.

Lemma substring_skip pre s m :
  substring (String.length pre) m (pre ++ s) = substring 0 m s.
Proof. induction pre as [|c pre IH]; [reflexivity|]. exact IH. Qed.

Lemma substring_split s : forall n,
    (n <= String.length s)%nat ->
    s = substring 0 n s ++ substring n (String.length s - n) s.
Proof.
  induction s as [|c s IH]; intros n Hn.
  - destruct n; [reflexivity|cbn in Hn; lia].
  - destruct n as [|n].
    + cbn [substring append]. change (String.length (String c s) - 0)%nat
        with (S (String.length s)). cbn [substring]. now rewrite substring_all.
    + cbn [substring append String.length Nat.sub]. f_equal.
      apply IH. cbn in Hn. lia.
Qed.

Lemma HasSuffix_spec s suffix :
  strings.HasSuffix s suffix = true <-> exists pre, s = pre ++ suffix.
Proof.
  unfold strings.HasSuffix. split.
  - intros H. apply andb_prop in H. destruct H as [Hlen Heq].
    apply Nat.leb_le in Hlen. apply String.eqb_eq in Heq.
    exists (substring 0 (String.length s - String.length suffix) s).
    rewrite (substring_split s (String.length s - String.length suffix)) at 1;
      [|lia].
    f_equal.
    replace (String.length s - (String.length s - String.length suffix))%nat
      with (String.length suffix) by lia.
    exact Heq.
  - intros [pre ->]. rewrite length_append_string.
    apply andb_true_intro. split; [apply Nat.leb_le; lia|].
    replace (String.length pre + String.length suffix - String.length suffix)%nat
      with (String.length pre) by lia.
    rewrite substring_skip, substring_all. apply String.eqb_refl.
Qed.

Lemma HasSuffix_app s a b :
  strings.HasSuffix s (a ++ b) = true -> strings.HasSuffix s b = true.
Proof.
  intros H. apply HasSuffix_spec in H. destruct H as [pre ->].
  apply HasSuffix_spec. exists (pre ++ a). now rewrite append_assoc_string.
Qed.

Lemma append_inj_length p : forall q a b,
    p ++ a = q ++ b -> String.length a = String.length b -> a = b.
Proof.
  induction p as [|c p IH]; intros q a b Heq Hlen.
  - destruct q as [|d q]; [exact Heq|].
    apply (f_equal String.length) in Heq.
    cbn [append] in Heq. cbn [String.length] in Heq.
    rewrite length_append_string in Heq. lia.
  - destruct q as [|d q].
    + apply (f_equal String.length) in Heq.
      cbn [append] in Heq. cbn [String.length] in Heq.
      rewrite length_append_string in Heq. lia.
    + cbn [append] in Heq. injection Heq as _ Heq. now apply (IH q).
Qed.

Lemma HasSuffix_same_length s a b :
  strings.HasSuffix s a = true -> strings.HasSuffix s b = true ->
  String.length a = String.length b -> a = b.
Proof.
  intros Ha Hb Hlen. apply HasSuffix_spec in Ha, Hb.
  destruct Ha as [p Hp], Hb as [q Hq]. rewrite Hp in Hq.
  now apply (append_inj_length p q).
Qed.

(** Every name that ends in prowjob.json ends in .json. *)
Lemma prowjob_is_json name :
  strings.HasSuffix name "prowjob.json" = true ->
  strings.HasSuffix name ".json" = true.
Proof. apply (HasSuffix_app name "prowjob" ".json"). Qed.

Lemma latest_build_not_prowjob name :
  strings.HasSuffix name "latest-build.txt" = true ->
  strings.HasSuffix name "prowjob.json" = false.
Proof.
  intros Hlatest. destruct (strings.HasSuffix name "prowjob.json") eqn:Hprow;
    [|reflexivity].
  apply (HasSuffix_app name "latest-build.tx" "t") in Hlatest.
  apply (HasSuffix_app name "prowjob.jso" "n") in Hprow.
  now pose proof (HasSuffix_same_length name "t" "n" Hlatest Hprow eq_refl).
Qed.

(* ===================================================================== *)
(** * Cursor Walker: one turn of the loop, by the name of the object       *)
(* ===================================================================== *)

Section WalkerTurns.

Variable Objects : storage.Query -> storage.ObjectIterator.
Variable now : Z.
Variable ctxErrAt : nat -> bool.
Variable jobName : string.

(** X11. In a turn that starts with the context not cancelled, an
    object named ...latest-build.txt is stepped over whatever its age: the
    turn sends nothing, leaves the cursor where it is and does not restart
    the listing. *)
Theorem loopBody_latest_build w attrs rest :
  storage.pending (it w) = attrs :: rest ->
  ctxErrAt (S (it_count w)) = false ->
  strings.HasSuffix (storage.ObjName attrs) "latest-build.txt" = true ->
  loopBody Objects now ctxErrAt jobName w = Goes (stepped w rest).
Proof.
  intros Hpending Hctx Hlatest. unfold loopBody. cbv zeta.
  rewrite Hctx, Hpending, Hlatest, (latest_build_not_prowjob _ Hlatest).
  destruct (timeSub now (storage.Created attrs) >? 1 * 17 * Hour);
    [reflexivity|].
  destruct (timeSub now (storage.Created attrs) <? 4 * Hour); reflexivity.
Qed.

(** X12. Outside the candidate band a prowjob.json object (read in a
    turn that starts with the context not cancelled) is handled as any
    other .json object: the run id is the third part of its name, not
    the name of its directory, since the switch tests the suffix .json
    before the suffix prowjob.json. The walker sends nothing and restarts
    the listing after that run id. *)
Theorem loopBody_prowjob_out_of_band w attrs rest :
  storage.pending (it w) = attrs :: rest ->
  ctxErrAt (S (it_count w)) = false ->
  isProwJob attrs = true ->
  outOfBand now attrs ->
  loopBody Objects now ctxErrAt jobName w
  = restartAfterSplit Objects jobName (stepped w rest) (storage.ObjName attrs).
Proof.
  intros Hpending Hctx Hprow Hband. unfold loopBody. cbv zeta.
  rewrite Hctx, Hpending. unfold isProwJob in Hprow.
  rewrite (prowjob_is_json _ Hprow).
  assert (strings.HasSuffix (storage.ObjName attrs) "latest-build.txt" = false)
    as ->.
  { destruct (strings.HasSuffix _ "latest-build.txt") eqn:Hlatest; [|reflexivity].
    apply latest_build_not_prowjob in Hlatest. congruence. }
  destruct Hband as [Hold|Hyoung].
  - now assert ((timeSub now (storage.Created attrs) >? 1 * 17 * Hour) = true)
      as -> by lia.
  - assert ((timeSub now (storage.Created attrs) >? 1 * 17 * Hour) = false)
      as -> by (unfold Hour in *; lia).
    assert ((timeSub now (storage.Created attrs) <? 4 * Hour) = true)
      as -> by lia.
    now destruct (strings.HasSuffix _ "build-log.txt").
Qed.

(** Objects on whose name the walker does not act are taken one per
    turn. *)
Lemma loopBody_steps_over w attrs rest :
  storage.pending (it w) = attrs :: rest ->
  ctxErrAt (S (it_count w)) = false ->
  triggers (storage.ObjName attrs) = false ->
  loopBody Objects now ctxErrAt jobName w = Goes (stepped w rest).
Proof.
  intros Hpending Hctx Hquiet. unfold loopBody. cbv zeta.
  rewrite Hctx, Hpending.
  unfold triggers in Hquiet.
  apply orb_false_elim in Hquiet. destruct Hquiet as [Hquiet Hprow].
  apply orb_false_elim in Hquiet. destruct Hquiet as [Hjson Hlog].
  rewrite Hjson, Hlog, Hprow.
  destruct (timeSub now (storage.Created attrs) >? 1 * 17 * Hour),
    (timeSub now (storage.Created attrs) <? 4 * Hour),
    (strings.HasSuffix (storage.ObjName attrs) "latest-build.txt");
    reflexivity.
Qed.

(** X13. With a context that is not cancelled, a listing that holds no
    .json and no build-log.txt object is walked in a single pass, one
    object per turn and whatever the ages:
    nothing is sent, the listing is never restarted, and in the turn after
    the last object the goroutine ends (closing the output channel), after
    putting the error on the error channel if the listing ended with one.
    An empty listing ends the goroutine in its first turn. *)
Theorem walk_steps_over objs : forall w extra,
    storage.pending (it w) = objs ->
    Forall (fun o => triggers (storage.ObjName o) = false) objs ->
    (forall k, ctxErrAt k = false) ->
    walk Objects now ctxErrAt jobName (S (List.length objs) + extra) w
    = Closed {| it := {| storage.pending := [];
                         storage.ending := storage.ending (it w) |};
                queryStartOffset := queryStartOffset w;
                jobRunId := jobRunId w;
                it_count := S (it_count w + List.length objs);
                jobRunProcessingCh := jobRunProcessingCh w;
                errorCh := (errorCh w
                              ++ match storage.ending (it w) with
                                 | Some err => [err]
                                 | None => []
                                 end)%list |}.
Proof.
  induction objs as [|attrs rest IH]; intros w extra Hpending Hquiet Hctx.
  - cbn [List.length Nat.add walk]. unfold loopBody.
    rewrite Hctx, Hpending, Nat.add_0_r.
    destruct w as [[pending ending] offset runId count sentIds errors].
    cbn [it storage.pending] in Hpending. subst pending.
    cbn [it storage.ending queryStartOffset jobRunId it_count
            jobRunProcessingCh errorCh].
    destruct ending; [reflexivity|]. now rewrite app_nil_r.
  - change (S (List.length (attrs :: rest)) + extra)%nat
      with (S (S (List.length rest) + extra)).
    cbn [walk].
    rewrite (loopBody_steps_over w attrs rest Hpending (Hctx _));
      [|now inversion Hquiet].
    rewrite (IH (stepped w rest) extra eq_refl); [|now inversion Hquiet|exact Hctx].
    cbn [stepped it storage.ending queryStartOffset jobRunId it_count
                 jobRunProcessingCh errorCh List.length].
    do 2 f_equal. lia.
Qed.

Lemma restartAfter_errorCh w runId :
  errorCh (walkerOf (restartAfter Objects jobName w runId)) = errorCh w.
Proof. unfold restartAfter. now destruct (NextJobRunID runId). Qed.

Lemma restartAfterSplit_errorCh w name :
  errorCh (walkerOf (restartAfterSplit Objects jobName w name)) = errorCh w.
Proof.
  unfold restartAfterSplit. destruct (nth_error _ 2); [|reflexivity].
  apply restartAfter_errorCh.
Qed.

Lemma restartAfter_not_closed w runId w' :
  restartAfter Objects jobName w runId <> Closed w'.
Proof. unfold restartAfter. now destruct (NextJobRunID runId). Qed.

Lemma restartAfterSplit_not_closed w name w' :
  restartAfterSplit Objects jobName w name <> Closed w'.
Proof.
  unfold restartAfterSplit. destruct (nth_error _ 2); [|discriminate].
  apply restartAfter_not_closed.
Qed.

(** One turn leaves the error channel as it is, unless it ends the
    goroutine on an exhausted listing: then the error with which the
    listing ended, if any, is sent. A turn that ends the goroutine on a
    cancelled context sends nothing. *)
Lemma loopBody_errorCh w :
  match loopBody Objects now ctxErrAt jobName w with
  | Goes w' | Crashed w' _ => errorCh w' = errorCh w
  | Closed w' =>
      if ctxErrAt (it_count w') then errorCh w' = errorCh w
      else storage.pending (it w') = []
           /\ errorCh w'
              = (errorCh w ++ match storage.ending (it w') with
                              | Some err => [err]
                              | None => []
                              end)%list
  end.
Proof.
  unfold loopBody. destruct (ctxErrAt (S (it_count w))) eqn:Hctx.
  { cbn [it_count]. now rewrite Hctx. }
  destruct (storage.pending (it w)) as [|attrs rest] eqn:Hpending.
  { destruct (storage.ending (it w)) as [err|] eqn:Hending;
      cbn [it_count it errorCh]; rewrite Hctx, Hending;
      (split; [exact Hpending|]); [reflexivity|now rewrite app_nil_r]. }
  set (consumed := {| it := {| storage.pending := rest |} |}).
  pose proof (restartAfterSplit_errorCh consumed (storage.ObjName attrs)) as Hsplit.
  pose proof (restartAfterSplit_not_closed consumed (storage.ObjName attrs))
    as Hsplit'.
  pose proof (fun runId => restartAfter_errorCh consumed runId) as Hdir.
  pose proof (fun runId => restartAfter_not_closed consumed runId) as Hdir'.
  assert (forall step,
             (forall w', step <> Closed w') ->
             errorCh (walkerOf step) = errorCh w ->
             match step with
             | Goes w' | Crashed w' _ => errorCh w' = errorCh w
             | Closed w' =>
                 if ctxErrAt (it_count w') then errorCh w' = errorCh w
                 else storage.pending (it w') = []
                      /\ errorCh w'
                         = (errorCh w ++ match storage.ending (it w') with
                                         | Some err => [err]
                                         | None => []
                                         end)%list
             end) as Hstep.
  { intros [w'|w'|w' why] Hopen Hsame; [exact Hsame| |exact Hsame].
    now contradiction (Hopen w'). }
  repeat match goal with
         | |- context [if ?b then _ else _] => destruct b
         end;
    try reflexivity;
    try (apply Hstep; [apply Hsplit'|exact Hsplit]);
    try (apply Hstep; [apply Hdir'|apply Hdir]).
  apply Hstep; [apply restartAfter_not_closed|].
  now rewrite restartAfter_errorCh.
Qed.

Lemma walk_errorCh fuel : forall w,
    match walk Objects now ctxErrAt jobName fuel w with
    | Goes w' | Crashed w' _ => errorCh w' = errorCh w
    | Closed w' =>
        if ctxErrAt (it_count w') then errorCh w' = errorCh w
        else storage.pending (it w') = []
             /\ errorCh w'
                = (errorCh w ++ match storage.ending (it w') with
                                | Some err => [err]
                                | None => []
                                end)%list
    end.
Proof.
  induction fuel as [|fuel IH]; intros w; [reflexivity|].
  cbn [walk]. pose proof (loopBody_errorCh w) as Hturn.
  destruct (loopBody Objects now ctxErrAt jobName w) as [w'|w'|w' why];
    [|exact Hturn|exact Hturn].
  specialize (IH w'). rewrite Hturn in IH. exact IH.
Qed.

(** X14. What the walker has put on its error channel, at any moment.
    As long as the goroutine runs, and when it panics, the channel is
    empty. When the goroutine has ended on a cancelled context (the test at
    the top of its last turn), the channel is empty. When it has ended
    otherwise, the listing in use is exhausted, and the channel holds the
    error with which that listing ended and nothing else, or nothing when
    the listing ended without an error. *)
Theorem walker_error_channel startingID fuel :
  match ListJobRunNamesOlderThanFourHours Objects now ctxErrAt jobName
                                          startingID fuel with
  | Goes w | Crashed w _ => errorCh w = []
  | Closed w =>
      if ctxErrAt (it_count w) then errorCh w = []
      else storage.pending (it w) = []
           /\ errorCh w = match storage.ending (it w) with
                          | Some err => [err]
                          | None => []
                          end
  end.
Proof.
  unfold ListJobRunNamesOlderThanFourHours.
  pose proof (walk_errorCh fuel (startWalker Objects jobName startingID)) as Hwalk.
  destruct (walk Objects now ctxErrAt jobName fuel
                 (startWalker Objects jobName startingID)) as [w|w|w why];
    [exact Hwalk| |exact Hwalk].
  destruct (ctxErrAt (it_count w)); [exact Hwalk|].
  destruct Hwalk as [Hpending Herrors]. split; [exact Hpending|].
  exact Herrors.
Qed.

End WalkerTurns.

Lemma loopBody_latest_build_witness :
  let w := {| it := {| storage.pending :=
                         [objectAged "logs/e2e-aws/latest-build.txt" 6;
                          objectAged "logs/e2e-aws/1475614363518767105/prowjob.json" 6];
                       storage.ending := None |};
              queryStartOffset := "logs/e2e-aws/1475614363518767104";
              jobRunId := ""; it_count := 0;
              jobRunProcessingCh := []; errorCh := [] |} in
  loopBody (storage.bucketObjects []) (100 * Hour) (fun _ => false) "e2e-aws" w
  = Goes (stepped w [objectAged "logs/e2e-aws/1475614363518767105/prowjob.json" 6]).
Proof.
  cbv zeta.
  apply loopBody_latest_build
    with (attrs := objectAged "logs/e2e-aws/latest-build.txt" 6); reflexivity.
Defined.

Lemma loopBody_prowjob_out_of_band_witness :
  let deep :=
    objectAged "logs/e2e-aws/1475614363518767105/artifacts/e2e/prowjob.json" 20 in
  let w := {| it := {| storage.pending := [deep]; storage.ending := None |};
              queryStartOffset := "logs/e2e-aws/1475614363518767104";
              jobRunId := ""; it_count := 0;
              jobRunProcessingCh := []; errorCh := [] |} in
  outOfBand (100 * Hour) deep
  /\ loopBody (storage.bucketObjects []) (100 * Hour) (fun _ => false) "e2e-aws" w
     = restartAfterSplit (storage.bucketObjects []) "e2e-aws" (stepped w [])
                         (storage.ObjName deep)
  /\ jobRunId (walkerOf (loopBody (storage.bucketObjects []) (100 * Hour)
                                  (fun _ => false) "e2e-aws" w))
     = "1475614363518767105".
Proof.
  cbv zeta.
  assert (outOfBand (100 * Hour)
            (objectAged "logs/e2e-aws/1475614363518767105/artifacts/e2e/prowjob.json"
                        20)) as Hold by (left; reflexivity).
  split; [exact Hold|]. split; [|reflexivity].
  apply loopBody_prowjob_out_of_band
    with (attrs := objectAged
                     "logs/e2e-aws/1475614363518767105/artifacts/e2e/prowjob.json"
                     20);
    [reflexivity|reflexivity|reflexivity|exact Hold].
Defined.

Lemma walk_steps_over_witness :
  let objs := [objectAged "logs/e2e-aws/1475614363518767105/started.txt" 20;
               objectAged "logs/e2e-aws/1475614363518767105/artifacts/junit/junit.xml" 6;
               objectAged "logs/e2e-aws/latest-build.txt" 1] in
  let w := {| it := {| storage.pending := objs;
                       storage.ending := Some "googleapi: Error 503" |};
              queryStartOffset := "logs/e2e-aws/1475614363518767104";
              jobRunId := ""; it_count := 0;
              jobRunProcessingCh := []; errorCh := [] |} in
  Forall (fun o => triggers (storage.ObjName o) = false) objs
  /\ walk (storage.bucketObjects []) (100 * Hour) (fun _ => false) "e2e-aws" 10 w
     = Closed {| it := {| storage.pending := [];
                          storage.ending := Some "googleapi: Error 503" |};
                 queryStartOffset := "logs/e2e-aws/1475614363518767104";
                 jobRunId := ""; it_count := 4;
                 jobRunProcessingCh := [];
                 errorCh := ["googleapi: Error 503"] |}.
Proof.
  intros objs w.
  assert (Forall (fun o => triggers (storage.ObjName o) = false) objs) as Hquiet
      by (repeat constructor).
  split; [exact Hquiet|].
  exact (walk_steps_over (storage.bucketObjects []) (100 * Hour) (fun _ => false)
                         "e2e-aws" objs w 6 eq_refl Hquiet (fun _ => eq_refl)).
Defined.

Lemma ReadJobRunFromGCS_job_run_witness :
  let bucket :=
    [objectAged "logs/e2e-aws/150/artifacts/junit/junit_e2e.xml" 6;
     objectAged "logs/e2e-aws/150/prowjob.json" 6] in
  let jr := {| jrRootLocation := "logs/e2e-aws"; jrJobName := "e2e-aws";
               jrJobRunID := "150";
               GetGCSProwJobPath := "logs/e2e-aws/150/prowjob.json";
               GetGCSJunitPaths :=
                 ["logs/e2e-aws/150/artifacts/junit/junit_e2e.xml"] |} in
  ReadJobRunFromGCS (storage.bucketObjects bucket) unit (fun _ => inl tt)
                    quotedPlain "logs/e2e-aws" "e2e-aws" "15"
  = Returns (Some jr, None)
  /\ exists next first more prowJob,
      NextJobRunID "15" = Returns next
      /\ let listing :=
           storage.bucketObjects bucket
             {| storage.Prefix := "logs/e2e-aws";
                storage.StartOffset := "logs/e2e-aws" ++ "/" ++ "15";
                storage.EndOffset := "logs/e2e-aws" ++ "/" ++ next |} in
         let listed := storage.pending listing in
         @None error = None
         /\ storage.ending listing = None
         /\ filter (fun o => isProwJob o || isJunitFile o) listed = first :: more
         /\ Exists (fun o => isProwJob o = true) listed
         /\ jr = {| jrRootLocation := "logs/e2e-aws";
                    jrJobName := "e2e-aws";
                    jrJobRunID := runIdOfObject first;
                    GetGCSProwJobPath :=
                      last (map storage.ObjName (filter isProwJob listed)) "";
                    GetGCSJunitPaths :=
                      map storage.ObjName (filter isJunitFile listed) |}
         /\ (fun _ : gcsJobRun => @inl unit error tt) jr = inl prowJob.
Proof.
  intros bucket jr.
  assert (ReadJobRunFromGCS (storage.bucketObjects bucket) unit (fun _ => inl tt)
                            quotedPlain "logs/e2e-aws" "e2e-aws" "15"
          = Returns (Some jr, None)) as Hread by reflexivity.
  split; [exact Hread|].
  exact (ReadJobRunFromGCS_job_run (storage.bucketObjects bucket) unit
                                   (fun _ => inl tt) quotedPlain
                                   "logs/e2e-aws" "e2e-aws" "15" jr None Hread).
Defined.

(* ===================================================================== *)
(** * Cursor Walker: run ids whose successors keep their width             *)
(* ===================================================================== *)

Section WalkerNoPanic.

Variable bucket : list storage.ObjectAttrs.
Variable now : Z.
Variable ctxErrAt : nat -> bool.
Variable jobName : string.
Variable width : nat.
Hypothesis jobName_noSlash : noSlash jobName = true.
Hypothesis bucket_layout :
  Forall (runLayout jobName width) (listedObjects jobName bucket).

Lemma restartAfter_goes w runId :
  fixedWidthRunId width runId ->
  exists w', restartAfter (storage.bucketObjects bucket) jobName w runId = Goes w'.
Proof.
  intros Hfixed.
  destruct (NextJobRunID_fixedWidth width runId Hfixed) as (next & Hnext & _).
  unfold restartAfter. rewrite Hnext. now eexists.
Qed.

Lemma restartAfterSplit_goes w o :
  In o (listedObjects jobName bucket) ->
  triggers (storage.ObjName o) = true ->
  exists w',
    restartAfterSplit (storage.bucketObjects bucket) jobName w (storage.ObjName o)
    = Goes w'.
Proof.
  intros Hlisted Htrig.
  destruct (trigger_layout bucket jobName width bucket_layout o Hlisted Htrig)
    as (runId & file & Hname & Hfixed & _).
  unfold restartAfterSplit. rewrite Hname.
  rewrite Split_run_name;
    [|exact jobName_noSlash|apply allDigits_noSlash, Hfixed].
  cbn [nth_error]. now apply restartAfter_goes.
Qed.

Lemma restartAfterDir_goes w o :
  In o (listedObjects jobName bucket) ->
  isProwJob o = true ->
  exists w',
    restartAfter (storage.bucketObjects bucket) jobName w
                 (filepath.Base (filepath.Dir (storage.ObjName o)))
    = Goes w'.
Proof.
  intros Hlisted Hprow.
  assert (triggers (storage.ObjName o) = true) as Htrig.
  { unfold triggers. unfold isProwJob in Hprow. rewrite Hprow.
    now rewrite orb_true_r. }
  destruct (trigger_layout bucket jobName width bucket_layout o Hlisted Htrig)
    as (runId & file & Hname & Hfixed & Hfile).
  rewrite Hname, Base_Dir_run_name;
    [now apply restartAfter_goes|exact jobName_noSlash|now apply Hfile
     |now apply (fixedWidth_nonempty width)|apply Hfixed].
Qed.

Lemma loopBody_no_panic w :
  (forall o, In o (storage.pending (it w)) -> In o (listedObjects jobName bucket)) ->
  exists w',
    loopBody (storage.bucketObjects bucket) now ctxErrAt jobName w = Goes w'
    \/ loopBody (storage.bucketObjects bucket) now ctxErrAt jobName w = Closed w'.
Proof.
  intros Hlisted. unfold loopBody. cbv zeta.
  destruct (ctxErrAt _); [eexists; now right|].
  destruct (storage.pending (it w)) as [|attrs rest] eqn:Hpending.
  { destruct (storage.ending (it w)); eexists; now right. }
  specialize (Hlisted attrs (or_introl eq_refl)).
  assert (forall step, (exists w', step = Goes w') ->
                       exists w', step = Goes w' \/ step = Closed w') as Hgoes.
  { intros step [w' ->]. exists w'. now left. }
  pose proof (fun w Htrig => Hgoes _ (restartAfterSplit_goes w attrs Hlisted Htrig))
    as Hsplit.
  pose proof (fun w Hprow => Hgoes _ (restartAfterDir_goes w attrs Hlisted Hprow))
    as Hdir.
  unfold triggers in Hsplit. unfold isProwJob in Hdir.
  destruct (timeSub now (storage.Created attrs) >? 1 * 17 * Hour);
    [|destruct (timeSub now (storage.Created attrs) <? 4 * Hour)].
  - destruct (strings.HasSuffix _ "latest-build.txt"); [eexists; now left|].
    destruct (strings.HasSuffix _ ".json") eqn:Hjson; [now apply Hsplit|].
    destruct (strings.HasSuffix _ "prowjob.json") eqn:Hprow;
      [now apply Hdir|eexists; now left].
  - destruct (strings.HasSuffix _ "latest-build.txt"); [eexists; now left|].
    destruct (strings.HasSuffix _ "build-log.txt") eqn:Hlog.
    { apply Hsplit. now rewrite orb_true_r. }
    destruct (strings.HasSuffix _ ".json") eqn:Hjson; [now apply Hsplit|].
    destruct (strings.HasSuffix _ "prowjob.json") eqn:Hprow;
      [now apply Hdir|eexists; now left].
  - destruct (strings.HasSuffix _ "prowjob.json") eqn:Hprow;
      [now apply Hdir|eexists; now left].
Qed.

Lemma walk_no_panic fuel : forall w,
    ascWalker bucket jobName width w ->
    exists w',
      walk (storage.bucketObjects bucket) now ctxErrAt jobName fuel w = Goes w'
      \/ walk (storage.bucketObjects bucket) now ctxErrAt jobName fuel w = Closed w'.
Proof.
  induction fuel as [|fuel IH]; intros w Hw; [exists w; now left|].
  cbn [walk].
  pose proof (loopBody_asc bucket now ctxErrAt jobName width jobName_noSlash
                           bucket_layout w Hw) as Hnext.
  destruct (loopBody_no_panic w) as (w' & [Hstep|Hstep]).
  { destruct Hw as (bound & Hit & _). intros o Ho. now apply Hit. }
  - rewrite Hstep in *. cbn [walkerOf] in Hnext. now apply IH.
  - rewrite Hstep. exists w'. now right.
Qed.

(** X15. On a bucket whose listing does not fail, for a job name
    without a slash: when the objects on whose names the walker acts
    (names that start with logs/<job> and end in .json or build-log.txt)
    are laid out as
    logs/<job>/<run id>/<file>, with prowjob.json directly in the run's
    directory and with run ids that are strings of one number w of decimal
    digits whose successor is written with w digits too and fits int64
    (10^(w-1) <= id+1 < 10^w and id+1 < 2^63), the walker never panics,
    however long it runs and whenever the context is cancelled: after any
    number of turns it is still running or has ended by closing the output
    channel. *)
Theorem walker_never_panics startingID fuel :
  exists w,
    ListJobRunNamesOlderThanFourHours (storage.bucketObjects bucket) now ctxErrAt
                                      jobName startingID fuel = Goes w
    \/ ListJobRunNamesOlderThanFourHours (storage.bucketObjects bucket) now ctxErrAt
                                         jobName startingID fuel = Closed w.
Proof.
  unfold ListJobRunNamesOlderThanFourHours. apply walk_no_panic.
  exists 0. split; [|split; constructor].
  intros o Hin. cbn in Hin. apply filter_In in Hin. destruct Hin as [Hin Hsel].
  unfold storage.selects in Hsel. cbn [storage.Prefix] in Hsel.
  apply andb_prop in Hsel. destruct Hsel as [Hsel _].
  apply andb_prop in Hsel. destruct Hsel as [Hpre _].
  split; [apply filter_In; now split|].
  intros runId file _ (Hd & _). apply decimalValue_bounds. exact Hd.
Qed.

End WalkerNoPanic.

(* ===================================================================== *)
(** * Cursor Walker: the goroutine ends                                    *)
(* ===================================================================== *)

Section WalkerTerminates.

Variable bucket : list storage.ObjectAttrs.
Variable now : Z.
Variable jobName : string.
Variable width : nat.
Hypothesis jobName_noSlash : noSlash jobName = true.
Hypothesis bucket_sorted : sortedByName bucket.
Hypothesis bucket_layout :
  Forall (runLayout jobName width) (listedObjects jobName bucket).

Section OneOrderedListing.

Variable keep : storage.ObjectAttrs -> bool.
Variable o : storage.ObjectAttrs.
Variable rest : list storage.ObjectAttrs.
Hypothesis listing : filter keep bucket = o :: rest.
Hypothesis keep_listed :
  forall x, keep x = true ->
            strings.HasPrefix (storage.ObjName x) ("logs/" ++ jobName) = true.
Hypothesis keep_upward :
  forall a b,
    keep a = true -> In b bucket ->
    strings.HasPrefix (storage.ObjName b) ("logs/" ++ jobName) = true ->
    strings.leb (storage.ObjName a) (storage.ObjName b) = true ->
    keep b = true.

Lemma first_kept : In o bucket /\ keep o = true.
Proof. apply filter_In. rewrite listing. now left. Qed.

Lemma first_listed : In o (listedObjects jobName bucket).
Proof.
  destruct first_kept as [Hin Hkeep]. apply filter_In. split; [exact Hin|].
  now apply keep_listed.
Qed.

Lemma rest_above :
  rest = filter (fun x => keep x
                          && strings.ltb (storage.ObjName o) (storage.ObjName x))
                bucket.
Proof. now apply filter_sorted_tail. Qed.

(** Taking the first object leaves an ordered listing. *)
Lemma stepped_ordered w :
  storage.pending (it w) = rest ->
  storage.ending (it w) = None ->
  orderedListing bucket jobName w.
Proof.
  intros Hpending Hending.
  exists (fun x => keep x && strings.ltb (storage.ObjName o) (storage.ObjName x)).
  split; [rewrite Hpending; apply rest_above|]. split; [|split; [|exact Hending]].
  - intros x Hx. apply andb_prop in Hx. now apply keep_listed.
  - intros a b Ha Hb Hpre Hle. apply andb_prop in Ha. destruct Ha as [Ha Hoa].
    apply andb_true_intro. split; [now apply (keep_upward a b)|].
    now apply (ltb_leb_trans _ (storage.ObjName a)).
Qed.

(** Restarting after the run of the first object gives an ordered listing
    that is no longer than what was left of the old one. *)
Lemma restart_ordered w runId file :
  storage.ObjName o = "logs/" ++ jobName ++ "/" ++ runId ++ "/" ++ file ->
  fixedWidthRunId width runId ->
  exists w',
    restartAfter (storage.bucketObjects bucket) jobName w runId = Goes w'
    /\ orderedListing bucket jobName w'
    /\ (List.length (storage.pending (it w')) <= List.length rest)%nat
    /\ it_count w' = it_count w
    /\ errorCh w' = errorCh w.
Proof.
  intros Hname Hfixed.
  destruct (NextJobRunID_fixedWidth width runId Hfixed)
    as (next & Hnext & Hnd & Hnlen & Hnval).
  pose proof Hfixed as (Hd & Hlen & _).
  destruct first_kept as [Ho Hkeep].
  unfold restartAfter. rewrite Hnext. eexists. split; [reflexivity|].
  cbn [it it_count errorCh storage.pending storage.ending storage.bucketObjects].
  set (q := {| storage.Prefix := "logs/" ++ jobName;
               storage.StartOffset := "logs/" ++ jobName ++ "/" ++ next;
               storage.EndOffset := "" |}).
  assert (forall x, storage.selects q x = true ->
                    strings.HasPrefix (storage.ObjName x) ("logs/" ++ jobName) = true
                    /\ strings.leb ("logs/" ++ jobName ++ "/" ++ next)
                                   (storage.ObjName x) = true) as Hsel.
  { intros x Hx. unfold storage.selects in Hx. cbn in Hx.
    apply andb_prop in Hx. destruct Hx as [Hx _].
    apply andb_prop in Hx. exact Hx. }
  assert (forall x, strings.HasPrefix (storage.ObjName x) ("logs/" ++ jobName) = true ->
                    strings.leb ("logs/" ++ jobName ++ "/" ++ next)
                                (storage.ObjName x) = true ->
                    storage.selects q x = true) as Hsel'.
  { intros x Hpre Hle. unfold storage.selects.
    cbn [storage.Prefix storage.StartOffset storage.EndOffset q].
    rewrite Hpre, Hle. reflexivity. }
  split; [|split; [|split; reflexivity]].
  - exists (storage.selects q). split; [reflexivity|]. split; [|split].
    + intros x Hx. now apply Hsel.
    + intros a b Ha Hb Hpre Hle. apply Hsel'; [exact Hpre|].
      apply (leb_trans _ (storage.ObjName a)); [now apply Hsel | exact Hle].
    + reflexivity.
  - rewrite rest_above. apply filter_length_le_impl.
    intros x Hx Hselx. destruct (Hsel x Hselx) as [Hpre Hle].
    assert (strings.ltb (storage.ObjName o) ("logs/" ++ jobName ++ "/" ++ next)
            = true) as Hbefore.
    { unfold strings.ltb. apply negb_true_iff.
      destruct (strings.leb _ (storage.ObjName o)) eqn:Hcontra; [|reflexivity].
      rewrite Hname in Hcontra.
      change (strings.leb ("logs/" ++ (jobName ++ ("/" ++ next)))
                          ("logs/" ++ (jobName ++ ("/" ++ (runId ++ ("/" ++ file)))))
              = true) in Hcontra.
      rewrite (leb_common_prefix "logs/"), (leb_common_prefix jobName),
        (leb_common_prefix "/") in Hcontra.
      apply leb_digits_value in Hcontra; try assumption; [lia | congruence]. }
    pose proof (ltb_leb_trans _ _ _ Hbefore Hle) as Hox.
    apply andb_true_intro. split; [|exact Hox].
    apply (keep_upward o x Hkeep Hx Hpre). now apply ltb_leb.
Qed.

Lemma restartSplit_ordered w :
  triggers (storage.ObjName o) = true ->
  exists w',
    restartAfterSplit (storage.bucketObjects bucket) jobName w (storage.ObjName o)
    = Goes w'
    /\ orderedListing bucket jobName w'
    /\ (List.length (storage.pending (it w')) <= List.length rest)%nat
    /\ it_count w' = it_count w
    /\ errorCh w' = errorCh w.
Proof.
  intros Htrig.
  destruct (trigger_layout bucket jobName width bucket_layout o first_listed Htrig)
    as (runId & file & Hname & Hfixed & _).
  unfold restartAfterSplit. rewrite Hname.
  rewrite Split_run_name;
    [|exact jobName_noSlash|apply allDigits_noSlash, Hfixed].
  cbn [nth_error]. now apply (restart_ordered w runId file).
Qed.

Lemma restartDir_ordered w :
  isProwJob o = true ->
  exists w',
    restartAfter (storage.bucketObjects bucket) jobName w
                 (filepath.Base (filepath.Dir (storage.ObjName o)))
    = Goes w'
    /\ orderedListing bucket jobName w'
    /\ (List.length (storage.pending (it w')) <= List.length rest)%nat
    /\ it_count w' = it_count w
    /\ errorCh w' = errorCh w.
Proof.
  intros Hprow.
  assert (triggers (storage.ObjName o) = true) as Htrig.
  { unfold triggers. unfold isProwJob in Hprow. rewrite Hprow.
    now rewrite orb_true_r. }
  destruct (trigger_layout bucket jobName width bucket_layout o first_listed Htrig)
    as (runId & file & Hname & Hfixed & Hfile).
  assert (filepath.Base (filepath.Dir (storage.ObjName o)) = runId) as ->.
  { rewrite Hname. apply Base_Dir_run_name;
      [exact jobName_noSlash|now apply Hfile
       |now apply (fixedWidth_nonempty width)|apply Hfixed]. }
  now apply (restart_ordered w runId file).
Qed.

End OneOrderedListing.

(** One turn on an ordered listing, with a context that is not cancelled:
    the goroutine ends because the listing is exhausted, or it goes on with
    an ordered listing that is strictly shorter. *)
Lemma loopBody_shortens w :
  orderedListing bucket jobName w ->
  (exists w',
      loopBody (storage.bucketObjects bucket) now (fun _ => false) jobName w
      = Closed w'
      /\ it_count w' = S (it_count w) /\ errorCh w' = errorCh w)
  \/ exists w',
      loopBody (storage.bucketObjects bucket) now (fun _ => false) jobName w
      = Goes w'
      /\ orderedListing bucket jobName w'
      /\ (List.length (storage.pending (it w'))
          < List.length (storage.pending (it w)))%nat
      /\ it_count w' = S (it_count w) /\ errorCh w' = errorCh w.
Proof.
  intros (keep & Hpending & Hlisted & Hup & Hending).
  unfold loopBody. cbv zeta beta. rewrite Hpending, Hending.
  destruct (filter keep bucket) as [|o rest] eqn:Hlisting.
  { left. eexists. split; [reflexivity|]. now split. }
  right. cbv iota.
  set (consumed := {| it := {| storage.pending := rest; storage.ending := None |};
                      queryStartOffset := queryStartOffset w;
                      jobRunId := jobRunId w; it_count := S (it_count w);
                      jobRunProcessingCh := jobRunProcessingCh w;
                      errorCh := errorCh w |}).
  assert (exists w', Goes consumed = Goes w'
                     /\ orderedListing bucket jobName w'
                     /\ (List.length (storage.pending (it w'))
                         < List.length (o :: rest))%nat
                     /\ it_count w' = S (it_count w) /\ errorCh w' = errorCh w)
    as Hgoes.
  { exists consumed. split; [reflexivity|]. split.
    - now apply (stepped_ordered keep o rest Hlisting Hlisted Hup consumed).
    - cbn. repeat split; lia. }
  assert (forall step arg,
             it_count arg = S (it_count w) -> errorCh arg = errorCh w ->
             (exists w', step = Goes w'
                         /\ orderedListing bucket jobName w'
                         /\ (List.length (storage.pending (it w'))
                             <= List.length rest)%nat
                         /\ it_count w' = it_count arg
                         /\ errorCh w' = errorCh arg) ->
             exists w', step = Goes w'
                        /\ orderedListing bucket jobName w'
                        /\ (List.length (storage.pending (it w'))
                            < List.length (o :: rest))%nat
                        /\ it_count w' = S (it_count w)
                        /\ errorCh w' = errorCh w) as Hrestart.
  { intros step arg Hcount Herrors (w' & -> & Hord & Hlen & Hc & He).
    exists w'. split; [reflexivity|]. split; [exact Hord|].
    cbn [List.length]. repeat split; [lia|congruence|congruence]. }
  pose proof (fun Htrig =>
                Hrestart _ consumed eq_refl eq_refl
                         (restartSplit_ordered keep o rest Hlisting Hlisted Hup
                                               consumed Htrig)) as Hsplit.
  pose proof (fun arg Hc He Hprow =>
                Hrestart _ arg Hc He
                         (restartDir_ordered keep o rest Hlisting Hlisted Hup
                                             arg Hprow)) as Hdir.
  unfold triggers in Hsplit. unfold isProwJob in Hdir.
  destruct (timeSub now (storage.Created o) >? 1 * 17 * Hour);
    [|destruct (timeSub now (storage.Created o) <? 4 * Hour)].
  - destruct (strings.HasSuffix _ "latest-build.txt"); [exact Hgoes|].
    destruct (strings.HasSuffix _ ".json") eqn:Hjson; [now apply Hsplit|].
    destruct (strings.HasSuffix _ "prowjob.json") eqn:Hprow;
      [now apply (Hdir consumed)|exact Hgoes].
  - destruct (strings.HasSuffix _ "latest-build.txt"); [exact Hgoes|].
    destruct (strings.HasSuffix _ "build-log.txt") eqn:Hlog.
    { apply Hsplit. now rewrite orb_true_r. }
    destruct (strings.HasSuffix _ ".json") eqn:Hjson; [now apply Hsplit|].
    destruct (strings.HasSuffix _ "prowjob.json") eqn:Hprow;
      [now apply (Hdir consumed)|exact Hgoes].
  - destruct (strings.HasSuffix _ "prowjob.json") eqn:Hprow; [|exact Hgoes].
    now apply Hdir.
Qed.

Lemma walk_ends fuel : forall w,
    orderedListing bucket jobName w ->
    (List.length (storage.pending (it w)) < fuel)%nat ->
    exists w',
      walk (storage.bucketObjects bucket) now (fun _ => false) jobName fuel w
      = Closed w'
      /\ (it_count w' <= it_count w + S (List.length (storage.pending (it w))))%nat
      /\ errorCh w' = errorCh w.
Proof.
  induction fuel as [|fuel IH]; intros w Hw Hfuel; [lia|].
  cbn [walk].
  destruct (loopBody_shortens w Hw)
    as [(w' & -> & Hcount & Herrors)
       |(w' & -> & Hord & Hshorter & Hcount & Herrors)].
  - exists w'. split; [reflexivity|]. split; [lia|exact Herrors].
  - destruct (IH w' Hord ltac:(lia)) as (w'' & Hwalk & Hcount' & Herrors').
    exists w''. split; [exact Hwalk|]. split; [lia|congruence].
Qed.

(** X16. On a bucket listed in name order whose listing does not fail,
    for a job name without a slash, with the objects the walker acts on
    (names that start with logs/<job> and end in .json or build-log.txt)
    laid out as logs/<job>/<run id>/<file> (prowjob.json directly in the
    run's directory) under run ids that are strings of one number w of
    decimal digits whose successor is written with w digits too and fits
    int64 (10^(w-1) <= id+1 < 10^w and id+1 < 2^63), and with a context
    that is never cancelled, the listing goroutine ends: within as many
    turns as the bucket has objects, plus one, it closes the output
    channel, without a panic and with nothing put on the error channel. *)
Theorem walker_terminates startingID fuel :
  (List.length bucket < fuel)%nat ->
  exists w,
    ListJobRunNamesOlderThanFourHours (storage.bucketObjects bucket) now
                                      (fun _ => false) jobName startingID fuel
    = Closed w
    /\ (it_count w <= S (List.length bucket))%nat
    /\ errorCh w = [].
Proof.
  intros Hfuel. unfold ListJobRunNamesOlderThanFourHours.
  set (start := startWalker (storage.bucketObjects bucket) jobName startingID).
  assert (List.length (storage.pending (it start)) <= List.length bucket)%nat
    as Hshort by apply filter_length_le.
  destruct (walk_ends fuel start) as (w & Hwalk & Hcount & Herrors); [|lia|].
  - exists (storage.selects (initialQuery jobName startingID)).
    split; [reflexivity|].
    assert (forall x, storage.selects (initialQuery jobName startingID) x = true
                      <-> strings.HasPrefix (storage.ObjName x) ("logs/" ++ jobName)
                          = true
                          /\ strings.leb (storage.StartOffset
                                            (initialQuery jobName startingID))
                                         (storage.ObjName x) = true) as Hsel.
    { intros x. unfold storage.selects.
      cbn [initialQuery storage.Prefix storage.StartOffset storage.EndOffset
                        String.length Nat.eqb orb].
      rewrite andb_true_r. apply andb_true_iff. }
    split; [|split; [|reflexivity]].
    + intros x Hx. now apply Hsel.
    + intros a b Ha Hb Hpre Hle. apply Hsel. split; [exact Hpre|].
      apply (leb_trans _ (storage.ObjName a)); [now apply Hsel|exact Hle].
  - exists w. split; [exact Hwalk|]. split; [cbn [start startWalker it_count] in *; lia|].
    exact Herrors.
Qed.

End WalkerTerminates.

Lemma fixedWidthRunId_19 runId :
  strconv.allDigits runId = true -> String.length runId = 19%nat ->
  (10 ^ 18 <=? strconv.decimalValue runId 0 + 1) = true ->
  (strconv.decimalValue runId 0 + 1 <? 2 ^ 63) = true ->
  fixedWidthRunId 19 runId.
Proof.
  intros Hd Hlen Hlow Hfit. apply Z.leb_le in Hlow. apply Z.ltb_lt in Hfit.
  repeat split; try assumption.
  change (10 ^ Z.of_nat 19) with 10000000000000000000.
  change (2 ^ 63) with 9223372036854775808 in Hfit. lia.
Qed.

Lemma runLayout_run jobName width runId file created :
  fixedWidthRunId width runId ->
  (strings.HasSuffix ("logs/" ++ jobName ++ "/" ++ runId ++ "/" ++ file)
                     "prowjob.json" = true -> noSlash file = true) ->
  runLayout jobName width
            {| storage.ObjName := "logs/" ++ jobName ++ "/" ++ runId ++ "/" ++ file;
               storage.Created := created |}.
Proof.
  intros Hfixed Hfile. right. exists runId, file.
  split; [reflexivity|split; [exact Hfixed|exact Hfile]].
Qed.

Lemma mixedAgesBucket_layout :
  Forall (runLayout "e2e-aws" 19) (listedObjects "e2e-aws" mixedAgesBucket).
Proof.
  unfold mixedAgesBucket, listedObjects. cbn [filter].
  apply Forall_cons.
  { apply (runLayout_run "e2e-aws" 19 "1475614363518767105" "build-log.txt");
      [apply fixedWidthRunId_19; reflexivity|reflexivity]. }
  apply Forall_cons.
  { apply (runLayout_run "e2e-aws" 19 "1475614363518767105" "prowjob.json");
      [apply fixedWidthRunId_19; reflexivity|reflexivity]. }
  apply Forall_cons.
  { apply (runLayout_run "e2e-aws" 19 "1475614363518767106" "prowjob.json");
      [apply fixedWidthRunId_19; reflexivity|reflexivity]. }
  apply Forall_cons.
  { apply (runLayout_run "e2e-aws" 19 "1475614363518767107" "finished.json");
      [apply fixedWidthRunId_19; reflexivity|reflexivity]. }
  apply Forall_cons.
  { apply (runLayout_run "e2e-aws" 19 "1475614363518767107" "prowjob.json");
      [apply fixedWidthRunId_19; reflexivity|reflexivity]. }
  apply Forall_cons; [left; reflexivity|apply Forall_nil].
Qed.

Lemma mixedAgesBucket_sorted : sortedByName mixedAgesBucket.
Proof. unfold mixedAgesBucket. repeat constructor. Qed.

Lemma walker_never_panics_witness :
  exists w,
    ListJobRunNamesOlderThanFourHours
      (storage.bucketObjects mixedAgesBucket) (100 * Hour)
      (fun k => (3 <=? k)%nat) "e2e-aws" "" 5 = Goes w
    \/ ListJobRunNamesOlderThanFourHours
         (storage.bucketObjects mixedAgesBucket) (100 * Hour)
         (fun k => (3 <=? k)%nat) "e2e-aws" "" 5 = Closed w.
Proof.
  exact (walker_never_panics mixedAgesBucket (100 * Hour) (fun k => (3 <=? k)%nat)
                             "e2e-aws" 19 eq_refl mixedAgesBucket_layout "" 5).
Defined.

Lemma walker_terminates_witness :
  (List.length mixedAgesBucket < 7)%nat
  /\ exists w,
      ListJobRunNamesOlderThanFourHours
        (storage.bucketObjects mixedAgesBucket) (100 * Hour)
        (fun _ => false) "e2e-aws" "" 7 = Closed w
      /\ (it_count w <= S (List.length mixedAgesBucket))%nat
      /\ errorCh w = [].
Proof.
  assert (List.length mixedAgesBucket < 7)%nat as Hfuel by (cbn; lia).
  split; [exact Hfuel|].
  exact (walker_terminates mixedAgesBucket (100 * Hour) "e2e-aws" 19 eq_refl
                           mixedAgesBucket_sorted mixedAgesBucket_layout "" 7
                           Hfuel).
Defined.

(* ===================================================================== *)
(** * Run Resolver: the bounds of the listing                              *)
(* ===================================================================== *)

(** X17. When the next run id sorts before the run id as text (the ids 9,
    99, ...: their successors 10, 100, ... are one digit longer), the
    listing of ReadJobRunFromGCS ends before it starts: no object of the
    bucket lies between the two bounds, and the function returns (nil,
    nil) whatever the bucket holds. *)
Theorem ReadJobRunFromGCS_empty_range
        (bucket : list storage.ObjectAttrs) (ProwJob : Type)
        (GetProwJob : gcsJobRun -> ProwJob + error) (quoted : string -> string)
        (jobGCSRootLocation jobName jobRunID next : string) :
  NextJobRunID jobRunID = Returns next ->
  strings.ltb next jobRunID = true ->
  ReadJobRunFromGCS (storage.bucketObjects bucket) ProwJob GetProwJob quoted
                    jobGCSRootLocation jobName jobRunID
  = Returns (None, None).
Proof.
  intros Hnext Hbefore. unfold ReadJobRunFromGCS. rewrite Hnext.
  cbn [storage.bucketObjects storage.pending storage.ending].
  assert (filter (storage.selects
                    {| storage.Prefix := jobGCSRootLocation;
                       storage.StartOffset := jobGCSRootLocation ++ "/" ++ jobRunID;
                       storage.EndOffset := jobGCSRootLocation ++ "/" ++ next |})
                 bucket = []) as ->; [|reflexivity].
  induction bucket as [|o rest IH]; [reflexivity|].
  cbn [filter]. rewrite IH.
  assert (storage.selects
            {| storage.Prefix := jobGCSRootLocation;
               storage.StartOffset := jobGCSRootLocation ++ "/" ++ jobRunID;
               storage.EndOffset := jobGCSRootLocation ++ "/" ++ next |} o
          = false) as ->; [|reflexivity].
  unfold storage.selects.
  cbn [storage.Prefix storage.StartOffset storage.EndOffset].
  destruct (strings.leb (jobGCSRootLocation ++ "/" ++ jobRunID) (storage.ObjName o))
    eqn:Hstart; [|now rewrite andb_false_r].
  destruct (strings.ltb (storage.ObjName o) (jobGCSRootLocation ++ "/" ++ next))
    eqn:Hend.
  - exfalso. apply ltb_leb in Hend.
    pose proof (leb_trans _ _ _ Hstart Hend) as Hle.
    rewrite (leb_common_prefix jobGCSRootLocation), (leb_common_prefix "/") in Hle.
    unfold strings.ltb in Hbefore. now rewrite Hle in Hbefore.
  - rewrite orb_false_r.
    assert ((String.length (jobGCSRootLocation ++ "/" ++ next) =? 0)%nat = false)
      as ->; [|now rewrite andb_false_r].
    apply Nat.eqb_neq. rewrite length_append_string. cbn. lia.
Qed.

Lemma ReadJobRunFromGCS_empty_range_witness :
  ReadJobRunFromGCS
    (storage.bucketObjects
       [objectAged "logs/e2e-aws/99/artifacts/junit/junit_e2e.xml" 6;
        objectAged "logs/e2e-aws/99/prowjob.json" 6])
    unit (fun _ => inl tt) quotedPlain "logs/e2e-aws" "e2e-aws" "99"
  = Returns (None, None).
Proof.
  apply (ReadJobRunFromGCS_empty_range _ unit _ _ "logs/e2e-aws" "e2e-aws" "99"
                                       "100");
    reflexivity.
Defined.

(* ===================================================================== *)
(** * Job getter: which jobs are selected                                  *)
(* ===================================================================== *)

Lemma length_zero_string s : (String.length s =? 0)%nat = true <-> s = "".
Proof.
  destruct s; cbn; split; try reflexivity; discriminate.
Qed.

Lemma anyKeyIn_false jobName keys :
  anyKeyIn jobName keys = false
  <-> forall key, In key keys -> strings.Contains jobName key = false.
Proof.
  induction keys as [|key rest IH]; cbn [anyKeyIn].
  - split; [intros _ key []|reflexivity].
  - destruct (strings.Contains jobName key) eqn:Hkey.
    + split; [discriminate|]. intros Hall.
      rewrite (Hall key (or_introl eq_refl)) in Hkey. discriminate.
    + rewrite IH. split.
      * intros Hall k [<-|Hin]; [exact Hkey|now apply Hall].
      * intros Hall k Hin. apply Hall. now right.
Qed.

(** The test made on each job by the loop of [filterJobsForPayload]. *)
Lemma filterJobsForPayloadFrom_filter s allJobs : forall jobs,
    filterJobsForPayloadFrom s allJobs jobs
    = (jobs
         ++ filter
              (fun job =>
                 negb ((negb (String.length (platform s) =? 0)%nat
                        && negb (Platform job =? platform s)%string)
                       || (negb (String.length (network s) =? 0)%nat
                           && negb (Network job =? network s)%string)
                       || (negb (String.length (infrastructure s) =? 0)%nat
                           && negb (infrastructure s
                                    =? getJobInfrastructure (JobName job))%string))
                 && negb (isJobNameFiltered s (JobName job)))
              allJobs)%list.
Proof.
  induction allJobs as [|job rest IH]; intros jobs.
  - cbn. now rewrite app_nil_r.
  - cbn [filterJobsForPayloadFrom filter].
    destruct (_ || _ || _); cbn [negb andb]; [apply IH|].
    destruct (isJobNameFiltered s (JobName job)); cbn [negb]; [apply IH|].
    rewrite IH, <- app_assoc. reflexivity.
Qed.

Lemma criteria_test (given actual : string) :
  negb (String.length given =? 0)%nat && negb (actual =? given)%string = false
  <-> given = "" \/ actual = given.
Proof.
  destruct (String.length given =? 0)%nat eqn:Hlen; cbn [negb andb].
  - apply length_zero_string in Hlen. tauto.
  - assert (given <> "") as Hne.
    { intros ->. discriminate Hlen. }
    destruct (String.eqb_spec actual given) as [->|Hdiff]; cbn [negb].
    + tauto.
    + split; [discriminate|]. intros [H|H]; contradiction.
Qed.

Lemma criteria_test_sym (given actual : string) :
  negb (String.length given =? 0)%nat && negb (given =? actual)%string = false
  <-> given = "" \/ given = actual.
Proof.
  rewrite String.eqb_sym, criteria_test.
  split; (intros [H|H]; [now left|right; now symmetry]).
Qed.

(** X18. filterJobsForPayload returns exactly the listed jobs that meet
    the criteria, in the order of the listing and as often as they are
    listed: a platform, network or infrastructure that is not given
    matches every job, one that is given must be equal to the job's (the
    infrastructure being read off the job name), and none of the exclusion
    keys may occur in the job name. *)
Theorem filterJobsForPayload_selects s allJobs :
  exists keep,
    filterJobsForPayload s allJobs = filter keep allJobs
    /\ forall job, keep job = true <-> meetsCriteria s job.
Proof.
  eexists. split.
  { unfold filterJobsForPayload. rewrite filterJobsForPayloadFrom_filter.
    reflexivity. }
  intros job. unfold meetsCriteria.
  rewrite andb_true_iff, !negb_true_iff, !orb_false_iff, !criteria_test,
    criteria_test_sym.
  assert (isJobNameFiltered s (JobName job) = false
          <-> forall keys key,
              excludeJobNames s = Some keys -> In key keys ->
              strings.Contains (JobName job) key = false) as ->.
  { unfold isJobNameFiltered. destruct (excludeJobNames s) as [keys|].
    - rewrite anyKeyIn_false. split.
      + intros Hall keys' key [= <-]. apply Hall.
      + intros Hall key. now apply (Hall keys).
    - split; [discriminate|reflexivity]. }
  tauto.
Qed.

Lemma filter_none {A : Type} (f : A -> bool) l :
  (forall x, In x l -> f x = false) -> filter f l = [].
Proof.
  induction l as [|x l IH]; intros Hall; [reflexivity|].
  cbn [filter]. rewrite (Hall x (or_introl eq_refl)).
  apply IH. intros y Hy. apply Hall. now right.
Qed.

Lemma getJobInfrastructure_cases name :
  getJobInfrastructure name = "upi" \/ getJobInfrastructure name = "ipi".
Proof.
  unfold getJobInfrastructure. destruct (strings.Contains name "upi"); tauto.
Qed.

Lemma Contains_empty s : strings.Contains s "" = true.
Proof. now destruct s. Qed.

Lemma anyKeyIn_true jobName keys key :
  In key keys -> strings.Contains jobName key = true ->
  anyKeyIn jobName keys = true.
Proof.
  intros Hin Hkey. destruct (anyKeyIn jobName keys) eqn:Hany; [reflexivity|].
  rewrite anyKeyIn_false in Hany. rewrite (Hany key Hin) in Hkey. discriminate.
Qed.

(** X19. Two settings of the job getter select no job at all, whatever
    the listing holds: an infrastructure other than upi and ipi (the only
    two values that are read off a job name), and an empty string among
    the exclusion keys (the empty string occurs in every job name). *)
Theorem filterJobsForPayload_selects_nothing s allJobs :
  (infrastructure s <> "" /\ infrastructure s <> "upi" /\ infrastructure s <> "ipi")
  \/ (exists keys, excludeJobNames s = Some keys /\ In "" keys) ->
  filterJobsForPayload s allJobs = [].
Proof.
  intros Hwhy. unfold filterJobsForPayload.
  rewrite filterJobsForPayloadFrom_filter. cbn [app].
  apply filter_none. intros job _.
  destruct Hwhy as [(Hgiven & Hupi & Hipi)|(keys & Hkeys & Hempty)].
  - assert ((String.length (infrastructure s) =? 0)%nat = false) as ->.
    { destruct (String.length (infrastructure s) =? 0)%nat eqn:Hlen;
        [|reflexivity].
      apply length_zero_string in Hlen. contradiction. }
    assert ((infrastructure s =? getJobInfrastructure (JobName job))%string = false)
      as ->.
    { apply String.eqb_neq.
      destruct (getJobInfrastructure_cases (JobName job)) as [-> | ->]; assumption. }
    cbn [negb andb]. now rewrite orb_true_r.
  - assert (isJobNameFiltered s (JobName job) = true) as ->.
    { unfold isJobNameFiltered. rewrite Hkeys.
      apply (anyKeyIn_true _ _ "" Hempty), Contains_empty. }
    cbn [negb]. apply andb_false_r.
Qed.

Lemma filterJobsForPayload_selects_nothing_witness :
  let s := {| platform := "aws"; infrastructure := ""; network := "";
              excludeJobNames := Some ["upgrade"; ""];
              getter_jobGCSPrefixes := None; ListAllJobs := inl [] |} in
  filterJobsForPayload s
    [{| JobName := "periodic-ci-openshift-release-master-ci-4.11-e2e-aws";
        Platform := "aws"; Network := "sdn" |}]
  = [].
Proof.
  cbv zeta. apply filterJobsForPayload_selects_nothing.
  right. exists ["upgrade"; ""]. split; [reflexivity|]. right. now left.
Defined.

Lemma Has_Insert names x item :
  sets.Has (sets.Insert names x) item
  = sets.Has names item || (x =? item)%string.
Proof.
  unfold sets.Insert. destruct (sets.Has names x) eqn:Hin.
  - destruct (String.eqb_spec x item) as [->|]; [|now rewrite orb_false_r].
    now rewrite Hin.
  - unfold sets.Has. rewrite existsb_app. cbn [existsb].
    now rewrite orb_false_r.
Qed.

Lemma Has_jobNames prefixes : forall names item,
    sets.Has (fold_left (fun names p => sets.Insert names (jobName p)) prefixes names)
             item
    = sets.Has names item
      || existsb (fun p => (jobName p =? item)%string) prefixes.
Proof.
  induction prefixes as [|p rest IH]; intros names item; cbn [fold_left existsb].
  - now rewrite orb_false_r.
  - now rewrite IH, Has_Insert, orb_assoc.
Qed.

Lemma filterJobsByNamesFrom_filter jobNames allJobs : forall ret,
    filterJobsByNamesFrom jobNames allJobs ret
    = (ret ++ filter (fun job => sets.Has jobNames (JobName job)) allJobs)%list.
Proof.
  induction allJobs as [|curr rest IH]; intros ret.
  - cbn. now rewrite app_nil_r.
  - cbn [filterJobsByNamesFrom filter].
    destruct (sets.Has jobNames (JobName curr)); [|apply IH].
    now rewrite IH, <- app_assoc.
Qed.

(** X20. When the listing of all jobs succeeds, GetJobs takes one of two
    roads. With at least one explicit GCS prefix it returns the listed
    jobs whose name is the job name of some prefix, in listing order, and
    the platform, network, infrastructure and exclusion keys play no part.
    With no prefix (a nil pointer or an empty slice) it returns what
    filterJobsForPayload selects. *)
Theorem GetJobs_selection s jobs :
  ListAllJobs s = inl jobs ->
  GetJobs s
  = inl match getter_jobGCSPrefixes s with
        | Some (p :: more) =>
            filter (fun job =>
                      existsb (fun q => (jobName q =? JobName job)%string)
                              (p :: more))
                   jobs
        | _ => filterJobsForPayload s jobs
        end.
Proof.
  intros Hjobs. unfold GetJobs. rewrite Hjobs.
  destruct (getter_jobGCSPrefixes s) as [[|p more]|]; [reflexivity| |reflexivity].
  cbn [List.length Nat.ltb Nat.leb]. cbv zeta. f_equal.
  unfold filterJobsByNames. rewrite filterJobsByNamesFrom_filter. cbn [app].
  apply filter_ext. intros job. now rewrite Has_jobNames.
Qed.

Lemma GetJobs_selection_witness :
  let e2e := {| JobName := "e2e-aws-ovn-upgrade"; Platform := "aws";
                Network := "ovn" |} in
  let serial := {| JobName := "e2e-gcp-serial"; Platform := "gcp";
                   Network := "sdn" |} in
  let s := {| platform := "azure"; infrastructure := "upi"; network := "";
              excludeJobNames := Some ["upgrade"];
              getter_jobGCSPrefixes :=
                Some [{| jobName := "e2e-aws-ovn-upgrade";
                         gcsPrefix := "logs/pr-3028-e2e-aws-ovn-upgrade" |}];
              ListAllJobs := inl [serial; e2e] |} in
  GetJobs s = inl [e2e].
Proof.
  intros e2e serial s.
  exact (GetJobs_selection s [serial; e2e] eq_refl).
Defined.

Section GetJobsAndRuns.

Variable Locator : Type.
Variable newRC : string -> string -> Locator.
Variable newPR : string -> string -> string -> Locator.
Variable find : Locator -> nat -> list JobRunInfo + error.
Variable sleeps : nat -> nat -> bool.
Variable ctxErr : error.

(** X21. When the listing of all jobs fails, nothing is looked for:
    GetJobs wraps the error, GetRelatedJobRuns wraps it again and returns
    it with no job run, before any locator is built or any task is
    started, for both kinds of payload. *)
Theorem GetRelatedJobRuns_listing_error s tag invocation prefixes schedule done err :
  ListAllJobs s = inr err ->
  GetRelatedJobRuns Locator newRC newPR find sleeps ctxErr
                    {| payloadTag := tag; payloadInvocationID := invocation;
                       jobGCSPrefixes := prefixes;
                       jobGetter_GetJobs := GetJobs s |}
                    schedule done
  = Returns ([], Some ("failed to get related jobs: failed to list all jobs: "
                         ++ err)).
Proof.
  intros Hfail. unfold GetRelatedJobRuns, GetJobs. cbn [jobGetter_GetJobs].
  rewrite Hfail. reflexivity.
Qed.

(** X22. With neither a payload tag nor a payload invocation id no
    locator is built, and the first task calls FindRelatedJobs on a nil
    locator: as soon as the job getter returns one job, GetRelatedJobRuns
    panics. With no job at all it returns no run and no error. *)
Theorem GetRelatedJobRuns_without_selector o schedule :
  payloadTag o = "" -> payloadInvocationID o = "" ->
  (forall job rest,
      jobGetter_GetJobs o = inl (job :: rest) ->
      forall done,
        GetRelatedJobRuns Locator newRC newPR find sleeps ctxErr o schedule done
        = Panics "nil pointer dereference")
  /\ (jobGetter_GetJobs o = inl [] ->
      GetRelatedJobRuns Locator newRC newPR find sleeps ctxErr o schedule false
      = Returns ([], None)).
Proof.
  intros Htag Hid. split.
  - intros job rest Hjobs done. unfold GetRelatedJobRuns. rewrite Hjobs.
    cbn [launch]. unfold locatorFor. rewrite Htag, Hid. reflexivity.
  - intros Hjobs. unfold GetRelatedJobRuns. rewrite Hjobs. cbn [launch].
    unfold resultCh, sent. cbn [nth_error].
    rewrite drain_concat.
    induction schedule as [|i more IH]; [reflexivity|].
    cbn [flat_map]. destruct i; exact IH.
Qed.

Lemma launch_past_prefixes o prefixes jobs : forall i,
    payloadInvocationID o <> "" ->
    jobGCSPrefixes o = Some prefixes ->
    (i <= List.length prefixes < i + List.length jobs)%nat ->
    launch Locator newRC newPR find sleeps ctxErr o i jobs
    = Panics "index out of range".
Proof.
  induction jobs as [|job rest IH]; intros i Hid Hprefixes Hlen.
  - cbn in Hlen. lia.
  - cbn [launch]. unfold locatorFor. rewrite Hprefixes.
    assert ((0 <? String.length (payloadInvocationID o))%nat = true) as ->.
    { destruct (payloadInvocationID o); [contradiction|reflexivity]. }
    destruct (nth_error prefixes i) as [p|] eqn:Hnth; [|reflexivity].
    cbn [task].
    assert (i < List.length prefixes)%nat as Hi
        by (apply nth_error_Some; congruence).
    rewrite IH; [reflexivity|exact Hid|exact Hprefixes|].
    cbn [List.length] in Hlen. lia.
Qed.

(** X23. For a payload invocation id the loop takes the GCS prefix at
    the position of the job. When the job getter returns more jobs than
    there are prefixes, it indexes past the end of the prefix slice and
    GetRelatedJobRuns panics, whatever the locators find. *)
Theorem GetRelatedJobRuns_more_jobs_than_prefixes o prefixes jobs schedule done :
  payloadInvocationID o <> "" ->
  jobGCSPrefixes o = Some prefixes ->
  jobGetter_GetJobs o = inl jobs ->
  (List.length prefixes < List.length jobs)%nat ->
  GetRelatedJobRuns Locator newRC newPR find sleeps ctxErr o schedule done
  = Panics "index out of range".
Proof.
  intros Hid Hprefixes Hjobs Hmore. unfold GetRelatedJobRuns. rewrite Hjobs.
  rewrite (launch_past_prefixes o prefixes jobs 0 Hid Hprefixes); [reflexivity|].
  lia.
Qed.

End GetJobsAndRuns.

Lemma GetRelatedJobRuns_listing_error_witness :
  GetRelatedJobRuns unit (fun _ _ => tt) (fun _ _ _ => tt) (fun _ _ => inl [])
                    (fun _ _ => false) "context canceled"
                    {| payloadTag := "4.11.0-0.nightly-2022-04-28-102605";
                       payloadInvocationID := "";
                       jobGCSPrefixes := Some [];
                       jobGetter_GetJobs :=
                         GetJobs {| platform := "aws"; infrastructure := "";
                                    network := ""; excludeJobNames := None;
                                    getter_jobGCSPrefixes := Some [];
                                    ListAllJobs := inr "bigquery unavailable" |} |}
                    [] false
  = Returns ([], Some ("failed to get related jobs: failed to list all jobs: "
                         ++ "bigquery unavailable")).
Proof.
  apply GetRelatedJobRuns_listing_error. reflexivity.
Defined.

Lemma GetRelatedJobRuns_without_selector_witness :
  let job := {| JobName := "e2e-aws"; Platform := "aws"; Network := "sdn" |} in
  GetRelatedJobRuns unit (fun _ _ => tt) (fun _ _ _ => tt) (fun _ _ => inl [])
                    (fun _ _ => false) "context canceled"
                    {| payloadTag := ""; payloadInvocationID := "";
                       jobGCSPrefixes := Some [];
                       jobGetter_GetJobs := inl [job] |}
                    [O] false
  = Panics "nil pointer dereference".
Proof.
  intros job.
  exact (proj1 (GetRelatedJobRuns_without_selector
                  unit (fun _ _ => tt) (fun _ _ _ => tt) (fun _ _ => inl [])
                  (fun _ _ => false) "context canceled"
                  {| payloadTag := ""; payloadInvocationID := "";
                     jobGCSPrefixes := Some [];
                     jobGetter_GetJobs := inl [job] |}
                  [O] eq_refl eq_refl)
               job [] eq_refl false).
Defined.

Lemma GetRelatedJobRuns_more_jobs_than_prefixes_witness :
  let row := {| JobName := "e2e-aws-ovn-upgrade"; Platform := "aws";
                Network := "ovn" |} in
  let prefixes := [{| jobName := "e2e-aws-ovn-upgrade";
                      gcsPrefix := "logs/pr-3028-e2e-aws-ovn-upgrade" |}] in
  let getter := {| platform := ""; infrastructure := ""; network := "";
                   excludeJobNames := None;
                   getter_jobGCSPrefixes := Some prefixes;
                   ListAllJobs := inl [row; row] |} in
  GetJobs getter = inl [row; row]
  /\ GetRelatedJobRuns unit (fun _ _ => tt) (fun _ _ _ => tt) (fun _ _ => inl [])
                       (fun _ _ => false) "context canceled"
                       {| payloadTag := "";
                          payloadInvocationID := "09406e30ea661e228c17120f28eff3c6";
                          jobGCSPrefixes := Some prefixes;
                          jobGetter_GetJobs := GetJobs getter |}
                       [O; 1%nat] false
     = Panics "index out of range".
Proof.
  intros row prefixes getter. split; [reflexivity|].
  apply (GetRelatedJobRuns_more_jobs_than_prefixes
           unit (fun _ _ => tt) (fun _ _ _ => tt) (fun _ _ => inl [])
           (fun _ _ => false) "context canceled" _ prefixes [row; row]).
  - discriminate.
  - reflexivity.
  - reflexivity.
  - cbn. lia.
Defined.

(* ===================================================================== *)
(** * Orchestrator: the suite of all checkers                              *)
(* ===================================================================== *)

Lemma totalFailed_chain names : forall top cases,
    totalFailed (chain top names cases) = failedCases cases.
Proof.
  induction names as [|m ms IH]; intros top cases; cbn.
  - lia.
  - rewrite IH. unfold failedCases, lenZ. cbn. lia.
Qed.

Lemma passedRuns_Permutation tid runs runs' :
  Permutation runs runs' -> passedRuns tid runs = passedRuns tid runs'.
Proof.
  intros Hperm. unfold passedRuns, lenZ. f_equal.
  apply Permutation_length.
  induction Hperm as [|x l l' _ IH|x y l|l l' l'' _ IH1 _ IH2]; cbn [filter].
  - constructor.
  - destruct (isPassed _); [now constructor|exact IH].
  - destruct (isPassed (runVerdict tid (snd x))),
      (isPassed (runVerdict tid (snd y))); try reflexivity.
    apply perm_swap.
  - now transitivity (filter (fun entry => isPassed (runVerdict tid (snd entry))) l').
Qed.

Lemma lenZ_Permutation {A : Type} (l l' : list A) :
  Permutation l l' -> lenZ l = lenZ l'.
Proof. intros H. unfold lenZ. now rewrite (Permutation_length H). Qed.

(** The counters of the suite that the minimum-passes checker returns. *)
Lemma CheckTestCase_counters sep marshal r runs detailsYaml :
  marshal (collectedDetails sep r runs) = inl detailsYaml ->
  lenZ runs < 2 ^ 63 ->
  exists suite,
    CheckTestCase sep marshal r runs = Some suite
    /\ NumTests suite = 1
    /\ NumFailed suite
       = if passedRuns (id r) runs <? requiredNumberOfPasses r then 1 else 0.
Proof.
  intros Hyaml Hlen. rewrite CheckTestCase_chain.
  fold (collectedDetails sep r runs). rewrite Hyaml.
  eexists. split; [reflexivity|].
  match goal with
  | |- NumTests (updateTestCountsInSuite ?t) = _ /\ _ =>
      destruct (updateTestCountsInSuite_exact t) as (Ht & Hf & _)
  end.
  { rewrite totalCases_chain. unfold lenZ. cbn. lia. }
  rewrite Ht, Hf, totalCases_chain, totalFailed_chain.
  split; [reflexivity|].
  rewrite scanJobRuns_successCount; [|lia|lia].
  unfold failedCases, verdictCase. cbn [filter tcFailureOutput].
  rewrite Z.add_0_l.
  now destruct (passedRuns (id r) runs <? requiredNumberOfPasses r).
Qed.

(** ** The map of runs to junit suites *)

(** A store leaves the other keys alone and gives its key the value
    stored. *)
Lemma mapStore_entries m key value :
  NoDup (map fst m) ->
  forall k v,
    In (k, v) (mapStore m key value)
    <-> (k = key /\ v = value) \/ (k <> key /\ In (k, v) m).
Proof.
  induction m as [|[k0 v0] rest IH]; intros Hnodup k v; cbn [mapStore In].
  - split.
    + intros [[= <- <-]|[]]. now left.
    + intros [[-> ->]|[_ []]]. now left.
  - cbn [map fst] in Hnodup. inversion Hnodup as [|x l Hnotin Hrest]; subst.
    destruct (Nat.eqb_spec k0 key) as [->|Hother]; cbn [In].
    + split.
      * intros [[= <- <-]|Hin]; [now left|].
        right. split; [|now right].
        intros ->. apply Hnotin. apply in_map_iff. now exists (key, v).
      * intros [[-> ->]|[Hk [[= -> ->]|Hin]]];
          [now left|now contradiction Hk|now right].
    + rewrite (IH Hrest). split.
      * intros [[= <- <-]|[[-> ->]|[Hk Hin]]].
        -- right. split; [exact Hother|now left].
        -- now left.
        -- right. split; [exact Hk|now right].
      * intros [[-> ->]|[Hk [[= -> ->]|Hin]]].
        -- right. now left.
        -- now left.
        -- right. right. now split.
Qed.

Lemma mapStore_keys m key value :
  NoDup (map fst m) -> NoDup (map fst (mapStore m key value)).
Proof.
  induction m as [|[k0 v0] rest IH]; intros Hnodup; cbn [mapStore map fst].
  - constructor; [intros []|constructor].
  - destruct (Nat.eqb_spec k0 key) as [->|Hother]; [exact Hnodup|].
    cbn [map fst] in *. inversion Hnodup as [|x l Hnotin Hrest]; subst.
    constructor; [|now apply IH].
    intros Hin. apply in_map_iff in Hin. destruct Hin as ([k v] & Hk & Hin).
    cbn [fst] in Hk. subst k.
    apply (mapStore_entries rest key value Hrest) in Hin.
    destruct Hin as [[Hk _]|[_ Hin]]; [now apply Hother|].
    apply Hnotin. apply in_map_iff. now exists (k0, v).
Qed.

Section OrchestratorFacts.

Variable jobRunAt : jobRunPtr -> JobRunInfo.
Variable GetCombinedJUnitTestSuites : nat -> jobRunPtr -> TestSuites + error.
Variable rangeOrder :
  nat -> list (jobRunPtr * TestSuites) -> list (jobRunPtr * TestSuites).

(** The map after the first loop: the entries it had before whose runs
    were not read again with success, and for every other run object the
    suites of the last read that succeeded. *)
Lemma collectJunits_entries allJobRuns : forall i m,
    NoDup (map fst m) ->
    let collected := collectJunits GetCombinedJUnitTestSuites i allJobRuns m in
    NoDup (map fst collected)
    /\ forall p v,
        In (p, v) collected
        <-> (exists j,
                nth_error allJobRuns j = Some p
                /\ GetCombinedJUnitTestSuites (i + j) p = inl v
                /\ forall j' v',
                    (j < j')%nat -> nth_error allJobRuns j' = Some p ->
                    GetCombinedJUnitTestSuites (i + j') p <> inl v')
            \/ (In (p, v) m
                /\ forall j v',
                    nth_error allJobRuns j = Some p ->
                    GetCombinedJUnitTestSuites (i + j) p <> inl v').
Proof.
  induction allJobRuns as [|jobRun rest IH]; intros i m Hnodup; cbv zeta.
  - cbn [collectJunits]. split; [exact Hnodup|]. intros p v. split.
    + intros Hin. right. split; [exact Hin|]. intros [|j] v' H; discriminate H.
    + intros [([|j] & H & _)|[Hin _]]; [discriminate H|discriminate H|exact Hin].
  - cbn [collectJunits].
    destruct (GetCombinedJUnitTestSuites i jobRun) as [suites|err] eqn:Hget.
    + destruct (IH (S i) (mapStore m jobRun suites)
                   (mapStore_keys m jobRun suites Hnodup)) as [Hkeys Hentries].
      split; [exact Hkeys|]. intros p v. rewrite Hentries.
      rewrite (mapStore_entries m jobRun suites Hnodup). split.
      * intros [(j & Hj & Hread & Hlast)|[[[-> ->]|[Hother Hin]] Hnone]].
        -- left. exists (S j). cbn [nth_error].
           rewrite Nat.add_succ_r. split; [exact Hj|]. split; [exact Hread|].
           intros [|j'] v' Hlt Hj'; [lia|]. rewrite Nat.add_succ_r.
           apply (Hlast j' v'); [lia|exact Hj'].
        -- left. exists 0%nat. cbn [nth_error]. rewrite Nat.add_0_r.
           split; [reflexivity|]. split; [exact Hget|].
           intros [|j'] v' Hlt Hj'; [lia|]. rewrite Nat.add_succ_r.
           now apply Hnone.
        -- right. split; [exact Hin|].
           intros [|j] v' Hj.
           ++ cbn [nth_error] in Hj. injection Hj as ->. now contradiction Hother.
           ++ rewrite Nat.add_succ_r. now apply Hnone.
      * intros [([|j] & Hj & Hread & Hlast)|[Hin Hnone]].
        -- cbn [nth_error] in Hj. injection Hj as ->.
           rewrite Nat.add_0_r, Hget in Hread. injection Hread as ->.
           right. split; [left; now split|].
           intros j v' Hj. specialize (Hlast (S j) v').
           rewrite Nat.add_succ_r in Hlast. apply Hlast; [lia|exact Hj].
        -- left. exists j. cbn [nth_error] in Hj.
           rewrite Nat.add_succ_r in Hread. split; [exact Hj|].
           split; [exact Hread|].
           intros j' v' Hlt Hj'. specialize (Hlast (S j') v').
           rewrite Nat.add_succ_r in Hlast. apply Hlast; [lia|exact Hj'].
        -- right.
           assert (p <> jobRun) as Hother.
           { intros ->. apply (Hnone 0%nat suites); [reflexivity|].
             now rewrite Nat.add_0_r. }
           split; [right; now split|].
           intros j v' Hj. specialize (Hnone (S j) v').
           rewrite Nat.add_succ_r in Hnone. now apply Hnone.
    + destruct (IH (S i) m Hnodup) as [Hkeys Hentries].
      split; [exact Hkeys|]. intros p v. rewrite Hentries. split.
      * intros [(j & Hj & Hread & Hlast)|[Hin Hnone]].
        -- left. exists (S j). cbn [nth_error].
           rewrite Nat.add_succ_r. split; [exact Hj|]. split; [exact Hread|].
           intros [|j'] v' Hlt Hj'; [lia|]. rewrite Nat.add_succ_r.
           apply (Hlast j' v'); [lia|exact Hj'].
        -- right. split; [exact Hin|].
           intros [|j] v' Hj.
           ++ cbn [nth_error] in Hj. injection Hj as <-.
              rewrite Nat.add_0_r, Hget. discriminate.
           ++ rewrite Nat.add_succ_r. now apply Hnone.
      * intros [([|j] & Hj & Hread & Hlast)|[Hin Hnone]].
        -- cbn [nth_error] in Hj. injection Hj as ->.
           rewrite Nat.add_0_r, Hget in Hread. discriminate Hread.
        -- left. exists j. cbn [nth_error] in Hj.
           rewrite Nat.add_succ_r in Hread. split; [exact Hj|].
           split; [exact Hread|].
           intros j' v' Hlt Hj'. specialize (Hlast (S j') v').
           rewrite Nat.add_succ_r in Hlast. apply Hlast; [lia|exact Hj'].
        -- right. split; [exact Hin|].
           intros j v' Hj. specialize (Hnone (S j) v').
           rewrite Nat.add_succ_r in Hnone. now apply Hnone.
Qed.

Lemma passedRuns_mapEntries tid m :
  passedRuns tid (mapEntries jobRunAt m)
  = lenZ (filter (fun entry => isPassed (runVerdict tid (snd entry))) m).
Proof.
  unfold passedRuns, mapEntries, lenZ. f_equal.
  induction m as [|[p suites] rest IH]; [reflexivity|].
  cbn [map filter fst snd].
  destruct (isPassed (runVerdict tid suites)); cbn [List.length]; now rewrite IH.
Qed.

(** The suite of all checkers when there is one checker, the
    minimum-passes one. *)
Lemma runTestCaseCheckers_single sep marshal r
      finishedJobRuns unfinishedJobRuns detailsYaml :
  let jobRunJunitMap :=
    collectJunits GetCombinedJUnitTestSuites 0
                  (finishedJobRuns ++ unfinishedJobRuns) [] in
  let entries := mapEntries jobRunAt (rangeOrder 0 jobRunJunitMap) in
  Permutation (rangeOrder 0 jobRunJunitMap) jobRunJunitMap ->
  lenZ jobRunJunitMap < 2 ^ 63 ->
  marshal (collectedDetails sep r entries) = inl detailsYaml ->
  exists suite,
    CheckTestCase sep marshal r entries = Some suite
    /\ runTestCaseCheckers jobRunAt GetCombinedJUnitTestSuites rangeOrder
                           [CheckTestCase sep marshal r]
                           finishedJobRuns unfinishedJobRuns
       = Returns
           (mkTestSuite "payload-cross-jobs" 1
              (if passedRuns (id r) (mapEntries jobRunAt jobRunJunitMap)
                  <? requiredNumberOfPasses r
               then 1 else 0)
              [] [suite]).
Proof.
  intros m entries Hperm Hlen Hyaml.
  assert (Permutation entries (mapEntries jobRunAt m)) as Hentries
      by (apply Permutation_map, Hperm).
  destruct (CheckTestCase_counters sep marshal r entries detailsYaml Hyaml)
    as (suite & Hsuite & Ht & Hf).
  { rewrite (lenZ_Permutation _ _ Hentries). unfold mapEntries, lenZ.
    rewrite length_map. exact Hlen. }
  exists suite. split; [exact Hsuite|].
  unfold runTestCaseCheckers. cbv zeta. fold m. cbn [runCheckers].
  fold entries. rewrite Hsuite. cbn [Name NumTests NumFailed TestCases Children app].
  rewrite Ht, Hf, (passedRuns_Permutation _ _ _ Hentries).
  destruct (passedRuns (id r) (mapEntries jobRunAt m) <? requiredNumberOfPasses r);
    reflexivity.
Qed.

(** X24. With the one checker that the command configures,
    runTestCaseCheckers returns the suite payload-cross-jobs holding the
    checker's suite as its only child, with NumTests 1 and with NumFailed 1
    when fewer entries of the map passed than are required and 0
    otherwise, in whatever order the map is iterated. The map is keyed by
    the pointer to the run object: it holds one entry for each run object
    of the two slices whose junit was read with success, with the suites of
    the last read of that object that succeeded. Two objects are two
    entries even when they report the same job name, run id and URLs; an
    object listed twice is one entry; an object whose junit could not be
    read counts neither as a pass nor in the total. *)
Theorem runTestCaseCheckers_one_checker sep marshal r
        finishedJobRuns unfinishedJobRuns detailsYaml :
  let allJobRuns := (finishedJobRuns ++ unfinishedJobRuns)%list in
  let jobRunJunitMap :=
    collectJunits GetCombinedJUnitTestSuites 0 allJobRuns [] in
  let entries := mapEntries jobRunAt (rangeOrder 0 jobRunJunitMap) in
  Permutation (rangeOrder 0 jobRunJunitMap) jobRunJunitMap ->
  lenZ jobRunJunitMap < 2 ^ 63 ->
  marshal (collectedDetails sep r entries) = inl detailsYaml ->
  (exists suite,
      CheckTestCase sep marshal r entries = Some suite
      /\ runTestCaseCheckers jobRunAt GetCombinedJUnitTestSuites rangeOrder
                             [CheckTestCase sep marshal r]
                             finishedJobRuns unfinishedJobRuns
         = Returns
             (mkTestSuite "payload-cross-jobs" 1
                (if lenZ (filter (fun entry =>
                                    isPassed (runVerdict (id r) (snd entry)))
                                 jobRunJunitMap)
                    <? requiredNumberOfPasses r
                 then 1 else 0)
                [] [suite]))
  /\ NoDup (map fst jobRunJunitMap)
  /\ forall p suites,
      In (p, suites) jobRunJunitMap
      <-> exists i, lastReadOf GetCombinedJUnitTestSuites allJobRuns p i suites.
Proof.
  intros allJobRuns m entries Hperm Hlen Hyaml. split.
  - destruct (runTestCaseCheckers_single sep marshal r finishedJobRuns
                                         unfinishedJobRuns detailsYaml
                                         Hperm Hlen Hyaml)
      as (suite & Hsuite & Hrun).
    exists suite. split; [exact Hsuite|].
    rewrite Hrun, passedRuns_mapEntries. reflexivity.
  - destruct (collectJunits_entries allJobRuns 0 [] (NoDup_nil _))
      as [Hkeys Hentries].
    split; [exact Hkeys|]. intros p suites. fold m in Hentries.
    rewrite Hentries. unfold lastReadOf. cbn [In Nat.add]. split.
    + intros [H|[[] _]]. exact H.
    + intros H. now left.
Qed.

(** X25. A checker that returns a nil suite makes runTestCaseCheckers
    panic: the suite is appended to the children and its counters are read
    at once. The minimum-passes checker returns nil when the details cannot
    be encoded as YAML, so in that case the whole analysis panics instead
    of reporting an error. *)
Theorem runTestCaseCheckers_nil_suite sep marshal r
        finishedJobRuns unfinishedJobRuns err :
  let jobRunJunitMap :=
    collectJunits GetCombinedJUnitTestSuites 0
                  (finishedJobRuns ++ unfinishedJobRuns) [] in
  marshal (collectedDetails sep r
             (mapEntries jobRunAt (rangeOrder 0 jobRunJunitMap))) = inr err ->
  forall more,
    runTestCaseCheckers jobRunAt GetCombinedJUnitTestSuites rangeOrder
                        (CheckTestCase sep marshal r :: more)
                        finishedJobRuns unfinishedJobRuns
    = Panics "nil pointer dereference".
Proof.
  intros m Hyaml more. unfold runTestCaseCheckers. cbv zeta. fold m.
  cbn [runCheckers]. rewrite CheckTestCase_chain.
  fold (collectedDetails sep r (mapEntries jobRunAt (rangeOrder 0 m))).
  now rewrite Hyaml.
Qed.

End OrchestratorFacts.

(* ===================================================================== *)
(** * Orchestrator: Run                                                    *)
(* ===================================================================== *)

Section RunFacts.

Variable jobRunAt : jobRunPtr -> JobRunInfo.
Variable GetCombinedJUnitTestSuites : nat -> jobRunPtr -> TestSuites + error.
Variable rangeOrder :
  nat -> list (jobRunPtr * TestSuites) -> list (jobRunPtr * TestSuites).
Variable Time : Type.
Variable timeAdd : Time -> Z -> Time.
Variable MkdirAll : string -> option error.
Variable WaitUntilTime : Time -> option error.
Variable WaitAndGetAllFinishedJobRuns :
  Time -> string -> (list jobRunPtr * list jobRunPtr) + error.
Variable xmlMarshal : TestSuite -> string + error.
Variable WriteFile : string -> string -> option error.
Variable ErrorTestCheckerFailed : error.
Variable quoted : string -> string.

(** X26. Run returns nil only after the report has been written, and the
    report is the last thing it does. Whenever a file is written it is
    junit-test-case-analysis.xml in the directory <working dir>/<payload
    tag> (the payload invocation id when there is no tag), created
    before; it holds the XML of the suite of all checkers, computed from
    the runs gathered by the wait that ends twenty minutes before the
    timeout; and what Run returns then is the library's sentinel error when
    the suite counts a failed test, nil otherwise. *)
Theorem Run_report (o : runOptions Time) :
  let result :=
    Run jobRunAt GetCombinedJUnitTestSuites rangeOrder Time timeAdd MkdirAll
        WaitUntilTime WaitAndGetAllFinishedJobRuns xmlMarshal WriteFile
        ErrorTestCheckerFailed quoted o in
  let outputDir :=
    filepath_Join [workingDir Time o;
                   if (String.length (runPayloadTag Time o) =? 0)%nat
                   then runPayloadInvocationID Time o
                   else runPayloadTag Time o] in
  let path := filepath_Join [outputDir; "junit-test-case-analysis.xml"] in
  (fst result = []
   \/ fst result = [MadeDir outputDir]
   \/ exists junitXML, fst result = [MadeDir outputDir; WroteFile path junitXML])
  /\ (snd result = Returns None ->
      exists junitXML, fst result = [MadeDir outputDir; WroteFile path junitXML])
  /\ forall junitXML,
      In (WroteFile path junitXML) (fst result) ->
      exists finishedJobRuns unfinishedJobRuns testSuite,
        WaitAndGetAllFinishedJobRuns
          (timeAdd (jobRunStartEstimate Time o)
                   (GoInt.wrap_int64 (timeout Time o - 20 * Minute)))
          outputDir
        = inl (finishedJobRuns, unfinishedJobRuns)
        /\ runTestCaseCheckers jobRunAt GetCombinedJUnitTestSuites rangeOrder
                               (testCaseCheckers Time o)
                               finishedJobRuns unfinishedJobRuns
           = Returns testSuite
        /\ xmlMarshal testSuite = inl junitXML
        /\ snd result = Returns (if NumFailed testSuite >? 0
                                 then Some ErrorTestCheckerFailed
                                 else None).
Proof.
  cbv zeta. unfold Run.
  set (outputDir := filepath_Join [workingDir Time o; _]).
  set (path := filepath_Join [outputDir; _]).
  destruct (MkdirAll outputDir) as [e|].
  { cbn [fst snd]. split; [now left|]. split; [discriminate|]. intros x []. }
  destruct (WaitUntilTime _) as [e|].
  { cbn [fst snd]. split; [right; now left|]. split; [discriminate|].
    intros x [H|[]]; discriminate H. }
  destruct (WaitAndGetAllFinishedJobRuns _ _) as [[finished unfinished]|e].
  2:{ cbn [fst snd]. split; [right; now left|]. split; [discriminate|].
      intros x [H|[]]; discriminate H. }
  destruct (runTestCaseCheckers _ _ _ _ finished unfinished) as [testSuite|why]
    eqn:Hsuite.
  2:{ cbn [fst snd]. split; [right; now left|]. split; [discriminate|].
      intros x [H|[]]; discriminate H. }
  destruct (xmlMarshal testSuite) as [junitXML|e] eqn:Hxml.
  2:{ cbn [fst snd]. split; [right; now left|]. split; [discriminate|].
      intros x [H|[]]; discriminate H. }
  destruct (WriteFile path junitXML) as [e|].
  { cbn [fst snd]. split; [right; now left|]. split; [discriminate|].
    intros x [H|[]]; discriminate H. }
  cbn [fst snd]. split; [right; right; now exists junitXML|].
  split; [intros _; now exists junitXML|].
  intros x [H|[H|[]]]; [discriminate H|]. injection H as <-.
  exists finished, unfinished, testSuite. now repeat split.
Qed.

(** X27. From the gathered runs to the verdict: when the directory can
    be made, both waits return, the details encode as YAML, the suite
    encodes as XML and the file can be written, Run by the one configured
    checker writes the report and returns the library's sentinel error
    exactly when fewer entries of the map of runs to junit suites passed
    than are required; otherwise it returns nil. The map holds one entry
    for each run object whose junit was read with success, with the suites
    of the last such read: two objects that report the same run both
    count. *)
Theorem Run_verdict sep marshal r (o : runOptions Time)
        finishedJobRuns unfinishedJobRuns detailsYaml :
  let outputDir :=
    filepath_Join [workingDir Time o;
                   if (String.length (runPayloadTag Time o) =? 0)%nat
                   then runPayloadInvocationID Time o
                   else runPayloadTag Time o] in
  let allJobRuns := (finishedJobRuns ++ unfinishedJobRuns)%list in
  let jobRunJunitMap :=
    collectJunits GetCombinedJUnitTestSuites 0 allJobRuns [] in
  testCaseCheckers Time o = [CheckTestCase sep marshal r] ->
  MkdirAll outputDir = None ->
  WaitUntilTime (timeAdd (jobRunStartEstimate Time o) (1 * Hour)) = None ->
  WaitAndGetAllFinishedJobRuns
    (timeAdd (jobRunStartEstimate Time o)
             (GoInt.wrap_int64 (timeout Time o - 20 * Minute)))
    outputDir
  = inl (finishedJobRuns, unfinishedJobRuns) ->
  Permutation (rangeOrder 0 jobRunJunitMap) jobRunJunitMap ->
  lenZ jobRunJunitMap < 2 ^ 63 ->
  marshal (collectedDetails sep r
             (mapEntries jobRunAt (rangeOrder 0 jobRunJunitMap)))
  = inl detailsYaml ->
  (forall testSuite, exists junitXML, xmlMarshal testSuite = inl junitXML) ->
  (forall path data, WriteFile path data = None) ->
  (exists junitXML,
      Run jobRunAt GetCombinedJUnitTestSuites rangeOrder Time timeAdd MkdirAll
          WaitUntilTime WaitAndGetAllFinishedJobRuns xmlMarshal WriteFile
          ErrorTestCheckerFailed quoted o
      = ([MadeDir outputDir;
          WroteFile (filepath_Join [outputDir; "junit-test-case-analysis.xml"])
                    junitXML],
         Returns (if lenZ (filter (fun entry =>
                                     isPassed (runVerdict (id r) (snd entry)))
                                  jobRunJunitMap)
                     <? requiredNumberOfPasses r
                  then Some ErrorTestCheckerFailed
                  else None)))
  /\ NoDup (map fst jobRunJunitMap)
  /\ forall p suites,
      In (p, suites) jobRunJunitMap
      <-> exists i, lastReadOf GetCombinedJUnitTestSuites allJobRuns p i suites.
Proof.
  intros outputDir allJobRuns m Hcheckers Hmkdir Hready Hwait Hperm Hlen Hyaml
         Hxml Hwrite.
  split.
  - destruct (runTestCaseCheckers_single
                jobRunAt GetCombinedJUnitTestSuites rangeOrder sep marshal r
                finishedJobRuns unfinishedJobRuns detailsYaml Hperm Hlen Hyaml)
      as (suite & _ & Hsuite).
    fold allJobRuns in Hsuite. fold m in Hsuite.
    rewrite passedRuns_mapEntries in Hsuite.
    set (top := mkTestSuite "payload-cross-jobs" 1 _ [] [suite]) in Hsuite.
    destruct (Hxml top) as [junitXML Htop].
    exists junitXML. unfold Run. fold outputDir.
    rewrite Hmkdir, Hready, Hwait, Hcheckers, Hsuite, Htop, Hwrite.
    f_equal. f_equal. subst top. cbn [NumFailed].
    now destruct (lenZ _ <? requiredNumberOfPasses r).
  - destruct (collectJunits_entries GetCombinedJUnitTestSuites allJobRuns 0 []
                                    (NoDup_nil _))
      as [Hkeys Hentries].
    split; [exact Hkeys|]. intros p suites. fold m in Hentries.
    rewrite Hentries. unfold lastReadOf. cbn [In Nat.add]. split.
    + intros [H|[[] _]]. exact H.
    + intros H. now left.
Qed.

End RunFacts.

Lemma runTestCaseCheckers_one_checker_witness :
  (exists suite,
      runTestCaseCheckers sampleRunAt sampleJunits (fun _ entries => rev entries)
                          [CheckTestCase "|||" (fun _ => inl "details")
                                         (installChecker 2)]
                          [0; 1]%nat [2; 0]%nat
      = Returns (mkTestSuite "payload-cross-jobs" 1 1 [] [suite]))
  /\ (exists suite,
         runTestCaseCheckers sampleRunAt sampleJunits (fun _ entries => rev entries)
                             [CheckTestCase "|||" (fun _ => inl "details")
                                            (installChecker 2)]
                             [0; 1]%nat [2; 3]%nat
         = Returns (mkTestSuite "payload-cross-jobs" 1 0 [] [suite]))
  /\ sampleRunAt 0%nat = sampleRunAt 3%nat.
Proof.
  split; [|split; [|reflexivity]].
  - destruct (runTestCaseCheckers_one_checker
                sampleRunAt sampleJunits (fun _ entries => rev entries)
                "|||" (fun _ => inl "details") (installChecker 2)
                [0; 1]%nat [2; 0]%nat "details")
      as [(suite & _ & Hrun) _].
    + apply Permutation_sym, Permutation_rev.
    + reflexivity.
    + reflexivity.
    + exists suite. exact Hrun.
  - destruct (runTestCaseCheckers_one_checker
                sampleRunAt sampleJunits (fun _ entries => rev entries)
                "|||" (fun _ => inl "details") (installChecker 2)
                [0; 1]%nat [2; 3]%nat "details")
      as [(suite & _ & Hrun) _].
    + apply Permutation_sym, Permutation_rev.
    + reflexivity.
    + reflexivity.
    + exists suite. exact Hrun.
Defined.

Lemma runTestCaseCheckers_nil_suite_witness :
  runTestCaseCheckers sampleRunAt sampleJunits (fun _ entries => entries)
                      [CheckTestCase "|||" (fun _ => inr "yaml: cannot marshal")
                                     (installChecker 2)]
                      [0%nat] []
  = Panics "nil pointer dereference".
Proof.
  exact (runTestCaseCheckers_nil_suite
           sampleRunAt sampleJunits (fun _ entries => entries)
           "|||" (fun _ => inr "yaml: cannot marshal") (installChecker 2)
           [0%nat] [] "yaml: cannot marshal" eq_refl []).
Defined.

Lemma Run_verdict_witness :
  exists junitXML,
    Run sampleRunAt sampleJunits (fun _ entries => rev entries) Z Z.add
        (fun _ => None) (fun _ => None)
        (fun _ _ => inl ([0; 1]%nat, [2%nat]))
        (fun suite => inl (Name suite)) (fun _ _ => None)
        "some test case checkers failed" quotedPlain
        {| runPayloadTag := "4.11.0-0.nightly-2022-04-28-102605";
           runPayloadInvocationID := "";
           workingDir := "test-case-analyzer-working-dir";
           jobRunStartEstimate := 0;
           timeout := 3 * Hour + 30 * Minute;
           testCaseCheckers := [CheckTestCase "|||" (fun _ => inl "details")
                                              (installChecker 2)] |}
    = ([MadeDir "test-case-analyzer-working-dir/4.11.0-0.nightly-2022-04-28-102605";
        WroteFile ("test-case-analyzer-working-dir/4.11.0-0.nightly-2022-04-28-102605"
                     ++ "/junit-test-case-analysis.xml") junitXML],
       Returns (Some "some test case checkers failed")).
Proof.
  destruct (Run_verdict
              sampleRunAt sampleJunits (fun _ entries => rev entries) Z Z.add
              (fun _ => None) (fun _ => None)
              (fun _ _ => inl ([0; 1]%nat, [2%nat]))
              (fun suite => inl (Name suite)) (fun _ _ => None)
              "some test case checkers failed" quotedPlain
              "|||" (fun _ => inl "details") (installChecker 2)
              {| runPayloadTag := "4.11.0-0.nightly-2022-04-28-102605";
                 runPayloadInvocationID := "";
                 workingDir := "test-case-analyzer-working-dir";
                 jobRunStartEstimate := 0;
                 timeout := 3 * Hour + 30 * Minute;
                 testCaseCheckers := [CheckTestCase "|||" (fun _ => inl "details")
                                                    (installChecker 2)] |}
              [0; 1]%nat [2%nat] "details")
    as [[junitXML Hrun] _].
  - reflexivity.
  - reflexivity.
  - reflexivity.
  - reflexivity.
  - apply Permutation_sym, Permutation_rev.
  - reflexivity.
  - reflexivity.
  - intros testSuite. now exists (Name testSuite).
  - reflexivity.
  - exists junitXML. exact Hrun.
Defined.

(* ===================================================================== *)
(** * The command: what Validate accepts                                   *)
(* ===================================================================== *)

Lemma length_pos_string s : (0 <? String.length s)%nat = true <-> s <> "".
Proof. destruct s; cbn; split; try discriminate; congruence. Qed.

Lemma length_pos_string_false s : (0 <? String.length s)%nat = false <-> s = "".
Proof. destruct s; cbn; split; try discriminate; congruence. Qed.

Lemma length_zero_string_false s : (String.length s =? 0)%nat = false <-> s <> "".
Proof. destruct s; cbn; split; try discriminate; congruence. Qed.

Lemma length_zero_pos s :
  (String.length s =? 0)%nat = negb (0 <? String.length s)%nat.
Proof. now destruct s. Qed.

Lemma length_zero_list {A : Type} (l : list A) :
  (List.length l =? 0)%nat = false <-> l <> [].
Proof. destruct l; cbn; split; try discriminate; congruence. Qed.

Lemma Has_In s item : sets.Has s item = true <-> In item s.
Proof.
  unfold sets.Has. rewrite existsb_exists. split.
  - intros (key & Hin & Heq). apply String.eqb_eq in Heq. now subst.
  - intros Hin. exists item. split; [exact Hin|apply String.eqb_refl].
Qed.

Lemma unknownTestGroup_none groups :
  cmd.unknownTestGroup groups = None
  <-> Forall (fun group => group = "install") groups.
Proof.
  induction groups as [|group rest IH]; cbn [cmd.unknownTestGroup].
  - split; [constructor|reflexivity].
  - destruct (sets.Has cmd.knownTestGroups group) eqn:Hknown.
    + apply Has_In in Hknown. destruct Hknown as [<-|[]].
      rewrite IH. split; [now constructor|now inversion 1].
    + split; [discriminate|]. inversion 1 as [|x l Hgroup Hrest]; subst.
      cbn in Hknown. discriminate.
Qed.

Lemma known_or_absent (known : sets.String) (value : string) :
  (0 <? String.length value)%nat && negb (sets.Has known value) = false
  <-> value = "" \/ In value known.
Proof.
  destruct (0 <? String.length value)%nat eqn:Hlen; cbn [andb].
  - apply length_pos_string in Hlen.
    destruct (sets.Has known value) eqn:Hhas; cbn [negb].
    + apply Has_In in Hhas. tauto.
    + split; [discriminate|]. intros [H|H]; [contradiction|].
      apply Has_In in H. congruence.
  - apply length_pos_string_false in Hlen. tauto.
Qed.

Section ValidateFacts.

Variable Time : Type.
Variable timeParse : string -> string -> Time + error.
Variable quotedList : sets.String -> string.
Variable quotedSet : sets.String -> string.
Variable durationString : Z -> string.

(** Flags that Validate accepts name one kind of payload. *)
Lemma Validate_payload_kind (f : cmd.JobRunsTestCaseAnalyzerFlags) :
  cmd.Validate Time timeParse quotedList quotedSet durationString f = None ->
  (cmd.PayloadTag f <> "" /\ cmd.PayloadInvocationID f = "")
  \/ (cmd.PayloadTag f = "" /\ cmd.PayloadInvocationID f <> ""
      /\ cmd.JobGCSPrefixes f <> []).
Proof.
  unfold cmd.Validate. intros Hvalid.
  destruct (String.length (cmd.WorkingDir f) =? 0)%nat; [discriminate|].
  destruct (timeParse _ _); [|discriminate].
  destruct (cmd.DataCoordinates_Validate _); [discriminate|].
  destruct (cmd.Authentication_Validate f); [discriminate|].
  destruct (List.length (cmd.TestGroups f) =? 0)%nat; [discriminate|].
  destruct (cmd.unknownTestGroup _); [discriminate|].
  rewrite !length_zero_pos in Hvalid.
  destruct (0 <? String.length (cmd.PayloadTag f))%nat eqn:Htag;
    destruct (0 <? String.length (cmd.PayloadInvocationID f))%nat eqn:Hid;
    cbn [negb andb orb] in Hvalid; try discriminate.
  - left. split; [now apply length_pos_string|now apply length_pos_string_false].
  - right. destruct (List.length (cmd.JobGCSPrefixes f) =? 0)%nat eqn:Hprefixes;
      [discriminate|].
    split; [now apply length_pos_string_false|].
    split; [now apply length_pos_string|now apply length_zero_list].
Qed.

(** X28. Validate accepts the flags exactly when: a working directory
    is given; the job start time parses as RFC 3339; the data coordinates
    name a project and a dataset and the authentication flags are valid;
    at least one test group is given and every one is install; either a
    payload tag is given and no payload invocation id, or a payload
    invocation id is given with at least one explicit GCS prefix and with
    no tag, platform, network or infrastructure; a platform, network or
    infrastructure that is given is a known one; and the timeout is at
    most 4 h 35 min. *)
Theorem Validate_accepts (f : cmd.JobRunsTestCaseAnalyzerFlags) :
  cmd.Validate Time timeParse quotedList quotedSet durationString f = None
  <-> cmd.WorkingDir f <> ""
      /\ (exists t, timeParse cmd.kubeTimeSerializationLayout
                              (cmd.EstimatedJobStartTimeString f) = inl t)
      /\ cmd.ProjectID (cmd.DataCoordinates f) <> ""
      /\ cmd.DataSetID (cmd.DataCoordinates f) <> ""
      /\ cmd.Authentication_Validate f = None
      /\ cmd.TestGroups f <> []
      /\ Forall (fun group => group = "install") (cmd.TestGroups f)
      /\ ((cmd.PayloadTag f <> "" /\ cmd.PayloadInvocationID f = "")
          \/ (cmd.PayloadTag f = "" /\ cmd.PayloadInvocationID f <> ""
              /\ cmd.JobGCSPrefixes f <> []
              /\ cmd.Platform f = "" /\ cmd.Network f = ""
              /\ cmd.Infrastructure f = ""))
      /\ (cmd.Platform f = "" \/ In (cmd.Platform f) cmd.knownPlatforms)
      /\ (cmd.Network f = "" \/ In (cmd.Network f) cmd.knownNetworks)
      /\ (cmd.Infrastructure f = ""
          \/ In (cmd.Infrastructure f) cmd.knownInfrastructures)
      /\ cmd.Timeout f <= cmd.maxTimeout.
Proof.
  unfold cmd.Validate, cmd.DataCoordinates_Validate.
  destruct (String.length (cmd.WorkingDir f) =? 0)%nat eqn:Hdir.
  { apply length_zero_string in Hdir. split; [discriminate|]. tauto. }
  apply length_zero_string_false in Hdir.
  destruct (timeParse _ _) as [t|e] eqn:Htime.
  2:{ split; [discriminate|]. intros (_ & [t' Ht'] & _). discriminate. }
  destruct (String.length (cmd.ProjectID _) =? 0)%nat eqn:Hproject.
  { apply length_zero_string in Hproject. split; [discriminate|]. tauto. }
  apply length_zero_string_false in Hproject.
  destruct (String.length (cmd.DataSetID _) =? 0)%nat eqn:Hdataset.
  { apply length_zero_string in Hdataset. split; [discriminate|]. tauto. }
  apply length_zero_string_false in Hdataset.
  destruct (cmd.Authentication_Validate f) as [e|] eqn:Hauth.
  { split; [discriminate|]. intros (_ & _ & _ & _ & H & _). discriminate. }
  destruct (List.length (cmd.TestGroups f) =? 0)%nat eqn:Hgroups.
  { apply Nat.eqb_eq in Hgroups. split; [discriminate|].
    intros (_ & _ & _ & _ & _ & H & _). destruct (cmd.TestGroups f);
      [contradiction|discriminate]. }
  apply length_zero_list in Hgroups.
  destruct (cmd.unknownTestGroup (cmd.TestGroups f)) as [group|] eqn:Hknown.
  { split; [discriminate|]. intros (_ & _ & _ & _ & _ & _ & H & _).
    apply unknownTestGroup_none in H. congruence. }
  apply unknownTestGroup_none in Hknown.
  rewrite !length_zero_pos.
  destruct (0 <? String.length (cmd.PayloadTag f))%nat eqn:Htag;
    destruct (0 <? String.length (cmd.PayloadInvocationID f))%nat eqn:Hid;
    cbn [negb andb orb].
  - apply length_pos_string in Htag, Hid.
    split; [discriminate|]. intros (_ & _ & _ & _ & _ & _ & _ & H & _).
    destruct H as [[_ H]|(H & _)]; contradiction.
  - apply length_pos_string in Htag. apply length_pos_string_false in Hid.
    destruct ((0 <? String.length (cmd.Platform f))%nat
              && negb (sets.Has cmd.knownPlatforms (cmd.Platform f))) eqn:Hp.
    { split; [discriminate|]. intros H. decompose [and] H.
      match goal with
      | Hk : cmd.Platform f = "" \/ In _ cmd.knownPlatforms |- _ =>
          apply known_or_absent in Hk; congruence
      end. }
    apply known_or_absent in Hp.
    destruct ((0 <? String.length (cmd.Network f))%nat
              && negb (sets.Has cmd.knownNetworks (cmd.Network f))) eqn:Hn.
    { split; [discriminate|]. intros H. decompose [and] H.
      match goal with
      | Hk : cmd.Network f = "" \/ In _ cmd.knownNetworks |- _ =>
          apply known_or_absent in Hk; congruence
      end. }
    apply known_or_absent in Hn.
    destruct ((0 <? String.length (cmd.Infrastructure f))%nat
              && negb (sets.Has cmd.knownInfrastructures (cmd.Infrastructure f)))
      eqn:Hi.
    { split; [discriminate|]. intros H. decompose [and] H.
      match goal with
      | Hk : cmd.Infrastructure f = "" \/ In _ cmd.knownInfrastructures |- _ =>
          apply known_or_absent in Hk; congruence
      end. }
    apply known_or_absent in Hi.
    destruct (cmd.Timeout f >? cmd.maxTimeout) eqn:Htimeout.
    + split; [discriminate|]. intros H. decompose [and] H. lia.
    + split; [|reflexivity]. intros _.
      refine (conj Hdir (conj (ex_intro _ t eq_refl) (conj Hproject (conj Hdataset
               (conj eq_refl (conj Hgroups (conj Hknown (conj _ (conj Hp (conj Hn
               (conj Hi _))))))))))); [|lia].
      left. now split.
  - apply length_pos_string_false in Htag. apply length_pos_string in Hid.
    destruct (List.length (cmd.JobGCSPrefixes f) =? 0)%nat eqn:Hprefixes.
    { apply Nat.eqb_eq in Hprefixes. split; [discriminate|].
      intros (_ & _ & _ & _ & _ & _ & _ & H & _).
      destruct H as [[_ H]|(_ & _ & H & _)]; [contradiction|].
      destruct (cmd.JobGCSPrefixes f); [contradiction|discriminate]. }
    apply length_zero_list in Hprefixes.
    destruct (0 <? String.length (cmd.Platform f))%nat eqn:Hp; cbn [orb].
    { apply length_pos_string in Hp. split; [discriminate|].
      intros (_ & _ & _ & _ & _ & _ & _ & H & _).
      destruct H as [[_ H]|(_ & _ & _ & H & _)]; contradiction. }
    apply length_pos_string_false in Hp.
    destruct (0 <? String.length (cmd.Network f))%nat eqn:Hn; cbn [orb].
    { apply length_pos_string in Hn. split; [discriminate|].
      intros (_ & _ & _ & _ & _ & _ & _ & H & _).
      destruct H as [[_ H]|(_ & _ & _ & _ & H & _)]; contradiction. }
    apply length_pos_string_false in Hn.
    destruct (0 <? String.length (cmd.Infrastructure f))%nat eqn:Hi;
      cbn [orb andb].
    { apply length_pos_string in Hi. split; [discriminate|].
      intros (_ & _ & _ & _ & _ & _ & _ & H & _).
      destruct H as [[_ H]|(_ & _ & _ & _ & _ & H)]; contradiction. }
    apply length_pos_string_false in Hi.
    destruct (cmd.Timeout f >? cmd.maxTimeout) eqn:Htimeout.
    + split; [discriminate|]. intros H. decompose [and] H. lia.
    + split; [|reflexivity]. intros _.
      refine (conj Hdir (conj (ex_intro _ t eq_refl) (conj Hproject (conj Hdataset
               (conj eq_refl (conj Hgroups (conj Hknown (conj _
               (conj (or_introl Hp) (conj (or_introl Hn)
               (conj (or_introl Hi) _))))))))))); [|lia].
      right. now repeat split.
  - apply length_pos_string_false in Htag, Hid.
    split; [discriminate|]. intros (_ & _ & _ & _ & _ & _ & _ & H & _).
    destruct H as [[H _]|(_ & H & _)]; contradiction.
Qed.

End ValidateFacts.

(* ===================================================================== *)
(** * The command: validated flags and the search for job runs            *)
(* ===================================================================== *)

Section ValidatedRuns.

Variable Time : Type.
Variable timeParse : string -> string -> Time + error.
Variable quotedList : sets.String -> string.
Variable quotedSet : sets.String -> string.
Variable durationString : Z -> string.
Variable NewBigQueryClient : option error.
Variable NewGCSClient : option error.
Variable NewCIGCSClient : option error.
Variable ciDataClient_ListAllJobs : list JobRow + error.
Variable Locator : Type.
Variable newRC : string -> string -> Locator.
Variable newPR : string -> string -> string -> Locator.
Variable find : Locator -> nat -> list JobRunInfo + error.
Variable sleeps : nat -> nat -> bool.
Variable ctxErr : error.

Lemma launch_with_tag o jobs : forall i,
    payloadTag o <> "" -> payloadInvocationID o = "" ->
    exists results,
      launch Locator newRC newPR find sleeps ctxErr o i jobs = Returns results.
Proof.
  induction jobs as [|job rest IH]; intros i Htag Hid; [now eexists|].
  cbn [launch]. unfold locatorFor. rewrite Hid.
  assert ((0 <? String.length (payloadTag o))%nat = true) as ->
      by now apply length_pos_string.
  cbn [String.length Nat.ltb Nat.leb task].
  destruct (IH (S i) Htag Hid) as [results ->]. now eexists.
Qed.

Lemma launch_within_prefixes o prefixes jobs : forall i,
    payloadInvocationID o <> "" ->
    jobGCSPrefixes o = Some prefixes ->
    (i + List.length jobs <= List.length prefixes)%nat ->
    exists results,
      launch Locator newRC newPR find sleeps ctxErr o i jobs = Returns results.
Proof.
  induction jobs as [|job rest IH]; intros i Hid Hprefixes Hlen; [now eexists|].
  cbn [launch]. unfold locatorFor. rewrite Hprefixes.
  assert ((0 <? String.length (payloadInvocationID o))%nat = true) as ->
      by now apply length_pos_string.
  cbn [List.length] in Hlen.
  destruct (nth_error prefixes i) as [p|] eqn:Hnth.
  2:{ apply nth_error_None in Hnth. lia. }
  cbn [task].
  destruct (IH (S i) Hid Hprefixes ltac:(lia)) as [results ->]. now eexists.
Qed.

(** X29. With flags that Validate accepts and the options that
    ToOptions builds from them, GetRelatedJobRuns does not panic for want
    of a locator. For a payload tag it returns, whatever jobs the getter
    selects. For a payload invocation id the getter keeps only jobs named
    by an explicit GCS prefix, and the function returns as long as the
    getter returns no more jobs than there are prefixes. *)
Theorem validated_flags_find_runs (f : cmd.JobRunsTestCaseAnalyzerFlags)
        (o : JobRunTestCaseAnalyzerOptions) (jobs : list JobRow)
        (schedule : list nat) (done : bool) :
  cmd.Validate Time timeParse quotedList quotedSet durationString f = None ->
  cmd.ToOptions Time timeParse NewBigQueryClient NewGCSClient NewCIGCSClient
                ciDataClient_ListAllJobs f = inl o ->
  jobGetter_GetJobs o = inl jobs ->
  (cmd.PayloadInvocationID f <> "" ->
   forall job, In job jobs ->
               exists p, In p (cmd.JobGCSPrefixes f) /\ jobName p = JobName job)
  /\ (cmd.PayloadInvocationID f = ""
      \/ (List.length jobs <= List.length (cmd.JobGCSPrefixes f))%nat ->
      exists runs,
        GetRelatedJobRuns Locator newRC newPR find sleeps ctxErr o schedule done
        = Returns runs).
Proof.
  intros Hvalid Hoptions Hjobs.
  pose proof (Validate_payload_kind _ _ _ _ _ f Hvalid) as Hpayload.
  unfold cmd.ToOptions in Hoptions.
  destruct (timeParse _ _); [|discriminate].
  destruct NewBigQueryClient; [discriminate|].
  destruct NewGCSClient; [discriminate|].
  destruct NewCIGCSClient; [discriminate|].
  injection Hoptions as <-. cbn [jobGetter_GetJobs] in Hjobs.
  split.
  - intros Hid job Hin.
    destruct Hpayload as [[_ Hnone]|(_ & _ & Hprefixes)]; [contradiction|].
    unfold GetJobs in Hjobs.
    cbn [cmd.jobGetterOf ListAllJobs getter_jobGCSPrefixes] in Hjobs.
    destruct ciDataClient_ListAllJobs as [allJobs|e]; [|discriminate].
    destruct (cmd.JobGCSPrefixes f) as [|p more] eqn:Hps; [contradiction|].
    cbn [List.length Nat.ltb Nat.leb] in Hjobs. cbv zeta in Hjobs.
    injection Hjobs as <-.
    unfold filterJobsByNames in Hin. rewrite filterJobsByNamesFrom_filter in Hin.
    cbn [app] in Hin. apply filter_In in Hin. destruct Hin as [_ Hhas].
    rewrite Has_jobNames, Has_Insert in Hhas. cbn [sets.Has existsb orb] in Hhas.
    apply orb_prop in Hhas. destruct Hhas as [Heq|Hhas].
    + apply String.eqb_eq in Heq. exists p. split; [now left|exact Heq].
    + apply existsb_exists in Hhas. destruct Hhas as (q & Hq & Heq).
      apply String.eqb_eq in Heq. exists q. split; [now right|exact Heq].
  - intros Hcase. unfold GetRelatedJobRuns. cbn [jobGetter_GetJobs].
    rewrite Hjobs.
    match goal with
    | |- context [launch _ _ _ _ _ _ ?o 0 jobs] =>
        assert (exists results,
                   launch Locator newRC newPR find sleeps ctxErr o 0 jobs
                   = Returns results) as [results ->]
    end.
    { destruct Hpayload as [[Htag Hid]|(_ & Hid & _)].
      - now apply launch_with_tag.
      - apply (launch_within_prefixes _ (cmd.JobGCSPrefixes f));
          [exact Hid|reflexivity|].
        destruct Hcase as [Hnone|Hlen]; [contradiction|exact Hlen]. }
    destruct done; now eexists.
Qed.

End ValidatedRuns.

Lemma validated_flags_find_runs_witness :
  let row := {| JobName := "e2e-aws-ovn-upgrade"; Platform := "aws";
                Network := "ovn" |} in
  let other := {| JobName := "e2e-gcp-serial"; Platform := "gcp";
                  Network := "sdn" |} in
  let f := {| cmd.DataCoordinates :=
                {| cmd.ProjectID := "openshift-ci-data-analysis";
                   cmd.DataSetID := "ci_data" |};
              cmd.Authentication_Validate := None;
              cmd.TestGroups := ["install"];
              cmd.WorkingDir := "test-case-analyzer-working-dir";
              cmd.PayloadTag := "";
              cmd.Timeout := 3 * Hour + 30 * Minute;
              cmd.EstimatedJobStartTimeString := "2022-03-18T13:10:20Z";
              cmd.Platform := ""; cmd.Infrastructure := ""; cmd.Network := "";
              cmd.MinimumSuccessfulTestCount := 10;
              cmd.PayloadInvocationID := "09406e30ea661e228c17120f28eff3c6";
              cmd.JobGCSPrefixes :=
                [{| jobName := "e2e-aws-ovn-upgrade";
                    gcsPrefix := "logs/pr-3028-e2e-aws-ovn-upgrade" |}];
              cmd.ExcludeJobNames := [] |} in
  exists o runs,
    cmd.ToOptions unit (fun _ _ => inl tt) None None None (inl [other; row]) f
    = inl o
    /\ jobGetter_GetJobs o = inl [row]
    /\ GetRelatedJobRuns unit (fun _ _ => tt) (fun _ _ _ => tt) (fun _ _ => inl [])
                         (fun _ _ => false) "context canceled" o [O] false
       = Returns runs.
Proof.
  intros row other f.
  eexists. 
  destruct (validated_flags_find_runs
              unit (fun _ _ => inl tt) (fun _ => "") (fun _ => "") (fun _ => "")
              None None None (inl [other; row])
              unit (fun _ _ => tt) (fun _ _ _ => tt) (fun _ _ => inl [])
              (fun _ _ => false) "context canceled"
              f _ [row] [O] false eq_refl eq_refl eq_refl) as [_ Hruns].
  destruct Hruns as [runs Hruns]; [right; cbn; lia|].
  exists runs. split; [reflexivity|]. split; [reflexivity|exact Hruns].
Defined.

(* ===================================================================== *)
(** * The command: the value of --explicit-gcs-prefixes                    *)
(* ===================================================================== *)

Lemma Split_lacks sep s : lacks sep s = true -> strings.Split s sep = [s].
Proof.
  induction s as [|c s IH]; [reflexivity|]. cbn [lacks strings.Split].
  intros H. apply andb_prop in H. destruct H as [Hc Hs].
  apply negb_true_iff in Hc. rewrite Hc, (IH Hs). reflexivity.
Qed.

Lemma Split_at sep a b :
  lacks sep a = true ->
  strings.Split (a ++ String sep b) sep = a :: strings.Split b sep.
Proof.
  induction a as [|c a IH]; cbn [lacks append strings.Split].
  - intros _. now rewrite Ascii.eqb_refl.
  - intros H. apply andb_prop in H. destruct H as [Hc Ha].
    apply negb_true_iff in Hc. now rewrite Hc, (IH Ha).
Qed.

Lemma lacks_app sep a b :
  lacks sep (a ++ b) = lacks sep a && lacks sep b.
Proof.
  induction a as [|c a IH]; [reflexivity|]. cbn [append lacks].
  now rewrite IH, andb_assoc.
Qed.

Lemma Split_pair name prefix :
  plainField name = true -> plainField prefix = true ->
  strings.Split (name ++ "=" ++ prefix) "=" = [name; prefix].
Proof.
  unfold plainField. intros Hn Hp.
  apply andb_prop in Hn, Hp. destruct Hn as [_ Hn], Hp as [_ Hp].
  change (name ++ "=" ++ prefix) with (name ++ String "=" prefix).
  now rewrite (Split_at "=" name prefix Hn), (Split_lacks "=" prefix Hp).
Qed.

Lemma pair_lacks_comma name prefix :
  plainField name = true -> plainField prefix = true ->
  lacks "," (name ++ "=" ++ prefix) = true.
Proof.
  unfold plainField. intros Hn Hp.
  apply andb_prop in Hn, Hp. destruct Hn as [Hn _], Hp as [Hp _].
  rewrite lacks_app, Hn. cbn [append lacks]. now rewrite Hp.
Qed.

Lemma Split_joined (parts : list string) :
  parts <> [] ->
  Forall (fun part => lacks "," part = true) parts ->
  strings.Split (stringsJoin parts ",") "," = parts.
Proof.
  induction parts as [|part rest IH]; intros Hne Hplain; [contradiction|].
  inversion Hplain as [|x l Hpart Hrest]; subst.
  destruct rest as [|next rest].
  - cbn [stringsJoin]. now apply Split_lacks.
  - change (stringsJoin (part :: next :: rest) ",")
      with (part ++ String "," (stringsJoin (next :: rest) ",")).
    rewrite (Split_at "," _ _ Hpart), IH; [reflexivity|discriminate|exact Hrest].
Qed.

Lemma setPairs_written values : forall current,
    Forall (fun v => plainField (jobName v) && plainField (gcsPrefix v) = true)
           values ->
    jobGCSPrefixSlice.setPairs
      (map (fun value => jobName value ++ "=" ++ gcsPrefix value) values) current
    = ((current ++ values)%list, None).
Proof.
  induction values as [|[name prefix] rest IH]; intros current Hplain.
  - cbn. now rewrite app_nil_r.
  - inversion Hplain as [|x l Hv Hrest]; subst.
    cbn [jobName gcsPrefix] in Hv. apply andb_prop in Hv. destruct Hv as [Hn Hp].
    cbn [map jobGCSPrefixSlice.setPairs jobName gcsPrefix].
    rewrite (Split_pair name prefix Hn Hp), (IH _ Hrest), <- app_assoc.
    reflexivity.
Qed.

Lemma setPairs_error jobPairs : forall values,
    snd (jobGCSPrefixSlice.setPairs jobPairs values)
    <> Some "need at least one GCS prefix configured with explicit-gcs-prefixes".
Proof.
  induction jobPairs as [|jobPair rest IH]; intros values;
    cbn [jobGCSPrefixSlice.setPairs]; [discriminate|].
  destruct (strings.Split jobPair "=") as [|a [|b [|c more]]];
    try discriminate.
  apply IH.
Qed.

(** X30. The value that String writes for a slice of explicit GCS
    prefixes is read back by Set: when the slice is not empty and no job
    name or prefix holds a comma or an equals sign, Set appends to the
    current slice exactly the pairs that were written, in order, and
    returns no error. For the empty slice String writes the empty text,
    which Set reads as an order to clear the slice. The error about
    needing at least one prefix is never returned by Set, since splitting
    a text gives at least one part. *)
Theorem jobGCSPrefixSlice_round_trip (values current : list jobGCSPrefix) :
  values <> [] ->
  Forall (fun v => plainField (jobName v) && plainField (gcsPrefix v) = true)
         values ->
  jobGCSPrefixSlice.Set_ current (jobGCSPrefixSlice.String values)
  = ((current ++ values)%list, None)
  /\ jobGCSPrefixSlice.Set_ current (jobGCSPrefixSlice.String []) = ([], None)
  /\ forall value,
      snd (jobGCSPrefixSlice.Set_ current value)
      <> Some "need at least one GCS prefix configured with explicit-gcs-prefixes".
Proof.
  intros Hne Hplain. split; [|split; [reflexivity|]].
  - unfold jobGCSPrefixSlice.String, jobGCSPrefixSlice.Set_.
    destruct values as [|v more]; [contradiction|].
    cbn [List.length Nat.eqb].
    set (parts := map (fun value => jobName value ++ "=" ++ gcsPrefix value)
                      (v :: more)).
    assert (Forall (fun part => lacks "," part = true) parts) as Hparts.
    { subst parts. apply Forall_map.
      eapply Forall_impl; [|exact Hplain]. cbv beta. intros w Hw.
      apply andb_prop in Hw. now apply pair_lacks_comma. }
    assert (strings.Split (stringsJoin parts ",") "," = parts) as Hsplit.
    { apply Split_joined; [discriminate|exact Hparts]. }
    assert ((String.length (stringsJoin parts ",") =? 0)%nat = false) as ->.
    { apply length_zero_string_false. intros Hempty.
      rewrite Hempty in Hsplit. subst parts.
      cbn [strings.Split map] in Hsplit. injection Hsplit as Hpair _.
      destruct (jobName v); discriminate Hpair. }
    cbv zeta. rewrite Hsplit. subst parts. cbn [map List.length Nat.eqb].
    exact (setPairs_written (v :: more) current Hplain).
  - intros value. unfold jobGCSPrefixSlice.Set_.
    destruct (String.length value =? 0)%nat; [discriminate|]. cbv zeta.
    pose proof (Split_nonempty value ",") as Hparts.
    destruct (strings.Split value ",") as [|part parts]; [contradiction|].
    cbn [List.length Nat.eqb]. apply setPairs_error.
Qed.

Lemma jobGCSPrefixSlice_round_trip_witness :
  let values :=
    [{| jobName := "periodic-ci-openshift-release-master-ci-4.11-e2e-aws-ovn-upgrade";
        gcsPrefix := "logs/openshift-machine-config-operator-3028-ci-4.11-e2e-aws-ovn-upgrade" |};
     {| jobName := "periodic-ci-openshift-release-master-ci-4.11-e2e-gcp";
        gcsPrefix := "logs/openshift-machine-config-operator-3028-ci-4.11-e2e-gcp" |}] in
  jobGCSPrefixSlice.String values
  = "periodic-ci-openshift-release-master-ci-4.11-e2e-aws-ovn-upgrade=logs/openshift-machine-config-operator-3028-ci-4.11-e2e-aws-ovn-upgrade,periodic-ci-openshift-release-master-ci-4.11-e2e-gcp=logs/openshift-machine-config-operator-3028-ci-4.11-e2e-gcp"
  /\ jobGCSPrefixSlice.Set_ [] (jobGCSPrefixSlice.String values) = (values, None).
Proof.
  intros values. split; [reflexivity|].
  refine (proj1 (jobGCSPrefixSlice_round_trip values [] _ _)).
  - discriminate.
  - repeat constructor.
Defined.
